(** * MAPF: map I/O, connectivity graph, time-expanded network, planner loop

    A shallow embedding of the Python package [map_ten] and the properties
    its specification states about it.

    Conventions of the embedding.
    - Python [int] is [Z]; a coordinate [(x, y)] is a pair of [Z].
    - A Python exception is a value of [exn]; a function that can raise
      returns [result A].
    - A [dict] whose iteration order matters is an association list kept in
      insertion order ([dict_set] updates in place, or appends a new key);
      a [dict] or [set] that is only looked up is a [gmap] or [gset].
    - The graph library (networkx) is outside the package: its two graph
      classes are modelled by their adjacency content, its two algorithms
      (ranked simple paths, network simplex) are parameters. *)

From Stdlib Require Import ZArith Lia.
From stdpp Require Import gmap strings list.

Local Open Scope Z_scope.

(** ** Exceptions and results *)

Inductive exn : Type :=
  | ZeroDivisionError
  | ValueError
  | TypeError
  | KeyError
  | AttributeError
  | NodeNotFound
  | NetworkXNoPath
  | NetworkXError
  | NetworkXUnfeasible
  | IndexError.

Inductive result (A : Type) : Type :=
  | Ok (a : A)
  | Raise (e : exn).
Arguments Ok {A} a.
Arguments Raise {A} e.

#[export] Instance result_ret : MRet result := @Ok.
#[export] Instance result_bind : MBind result := λ A B k r,
  match r with
  | Ok a => k a
  | Raise e => Raise e
  end.

(** [for x in l: acc = f(acc, x)] where the body can raise. *)
Fixpoint rfold {A B} (f : B → A → result B) (acc : B) (l : list A) : result B :=
  match l with
  | [] => Ok acc
  | x :: l' => acc' ← f acc x; rfold f acc' l'
  end.

Abbreviation Coordinate := (Z * Z)%type (only parsing).

(** [enumerate(l)]: the items paired with their index. *)
Definition enumerate {A} (l : list A) : list (Z * A) :=
  zip (seqZ 0 (Z.of_nat (length l))) l.

(** [l[:n]] for a Python slice bound [n] of either sign. *)
Definition slice_to {A} (l : list A) (n : Z) : list A :=
  if decide (0 ≤ n) then take (Z.to_nat n) l
  else take (Z.to_nat (Z.of_nat (length l) + n)) l.

(** [range(a, b)] *)
Definition py_range (a b : Z) : list Z := seqZ a (b - a).

(** The greatest element of [0 :: l]. *)
Definition max_with_zero (l : list Z) : Z := foldr Z.max 0 l.

(** *** Insertion-ordered dictionaries *)

(** [d.get(k)] *)
Fixpoint dict_get {K V} `{EqDecision K} (k : K) (d : list (K * V)) : option V :=
  match d with
  | [] => None
  | (k', v) :: d' => if decide (k' = k) then Some v else dict_get k d'
  end.

(** [d[k] = v]: an existing key keeps its place, a new key goes last. *)
Fixpoint dict_set {K V} `{EqDecision K} (k : K) (v : V) (d : list (K * V))
    : list (K * V) :=
  match d with
  | [] => [(k, v)]
  | (k', v') :: d' =>
      if decide (k' = k) then (k, v) :: d' else (k', v') :: dict_set k v d'
  end.

(** *** Generators

    A run of a generator to its end: the items it yields, closed by
    [StopIteration] or by an exception. *)
Inductive gen (A : Type) : Type :=
  | GStop
  | GRaise (e : exn)
  | GYield (a : A) (rest : gen A).
Arguments GStop {A}.
Arguments GRaise {A} e.
Arguments GYield {A} a rest.

(** A generator that yields the items of a list and stops. *)
Fixpoint yields {A} (l : list A) : gen A :=
  match l with
  | [] => GStop
  | a :: l' => GYield a (yields l')
  end.

(** Pulling at most [n] items. Nothing is pulled once [n] items are there. *)
Fixpoint pull {A} (n : nat) (g : gen A) : result (list A) :=
  match n with
  | O => Ok []
  | S n' =>
      match g with
      | GStop => Ok []
      | GRaise e => Raise e
      | GYield a rest => l ← pull n' rest; Ok (a :: l)
      end
  end.

(** [list(itertools.islice(g, k))]: [islice] refuses a negative [k]. *)
Definition list_islice {A} (g : gen A) (k : Z) : result (list A) :=
  if decide (k < 0) then Raise ValueError else pull (Z.to_nat k) g.


(** ** reservation_table.py *)

Module ReservationTable.

(** [self._table : Dict[Tuple[Coordinate, int], str]] *)
Abbreviation t := (gmap (Coordinate * Z) string) (only parsing).

(** [__init__] *)
Definition init : t := ∅.

(** [for t, node in enumerate(path): self._table[(node, t)] = agent] *)
Definition reserve (agent : string) (path : list Coordinate) (tbl : t) : t :=
  foldl (λ acc '(i, node), <[(node, i) := agent]> acc) tbl (enumerate path).

(** [(node, time) in self._table] *)
Definition is_reserved (tbl : t) (node : Coordinate) (time : Z) : bool :=
  bool_decide (is_Some (tbl !! (node, time))).

(** [for t, node in enumerate(path[:steps]): self._table[(node, t)] = agent] *)
Definition lock_ahead (agent : string) (path : list Coordinate) (steps : Z)
    (tbl : t) : t :=
  foldl (λ acc '(i, node), <[(node, i) := agent]> acc) tbl
        (enumerate (slice_to path steps)).

(** The two paths of the specification's example. *)
Definition path_A : list Coordinate := [(0, 0); (40, 0); (80, 0)].
Definition path_B : list Coordinate := [(0, 0); (40, 0)].

End ReservationTable.

(** ** map_io.py *)

Module MapIO.

(** *** Python values

    What a JSON or YAML document parses to, and the tuples the loader makes
    of coordinate lists. Floating-point numbers are left out: the loader
    and the saver pass every scalar through untouched. *)

Inductive pyval : Type :=
  | PNone
  | PBool (b : bool)
  | PInt (z : Z)
  | PStr (s : string)
  | PList (l : list pyval)
  | PTuple (l : list pyval)
  | PDict (d : list (string * pyval)).

(** The one-character strings of a string. *)
Fixpoint chars (s : string) : list pyval :=
  match s with
  | EmptyString => []
  | String a s' => PStr (String a EmptyString) :: chars s'
  end.

(** [bool(v)] *)
Definition py_truthy (v : pyval) : bool :=
  match v with
  | PNone => false
  | PBool b => b
  | PInt z => bool_decide (z ≠ 0)
  | PStr s => bool_decide (s ≠ EmptyString)
  | PList l | PTuple l => match l with [] => false | _ => true end
  | PDict d => match d with [] => false | _ => true end
  end.

(** [v[0]] *)
Definition py_first (v : pyval) : result pyval :=
  match v with
  | PList l | PTuple l => match l with x :: _ => Ok x | [] => Raise IndexError end
  | PStr s => match chars s with x :: _ => Ok x | [] => Raise IndexError end
  | PDict _ => Raise KeyError
  | PNone | PBool _ | PInt _ => Raise TypeError
  end.

(** [isinstance(v, dict)] *)
Definition is_dict (v : pyval) : bool :=
  match v with PDict _ => true | _ => false end.

(** The items of [for x in v]: a dictionary gives its keys, a string its
    characters; a scalar is not iterable. *)
Definition py_iter (v : pyval) : result (list pyval) :=
  match v with
  | PList l | PTuple l => Ok l
  | PStr s => Ok (chars s)
  | PDict d => Ok (PStr <$> d.*1)
  | PNone | PBool _ | PInt _ => Raise TypeError
  end.

(** [tuple(v)] and [list(v)] *)
Definition py_tuple (v : pyval) : result pyval := l ← py_iter v; Ok (PTuple l).
Definition py_list (v : pyval) : result pyval := l ← py_iter v; Ok (PList l).

(** The dictionary behind [v.get] and [v.items()]; anything else has
    neither method. *)
Definition dict_of (v : pyval) : result (list (string * pyval)) :=
  match v with
  | PDict d => Ok d
  | _ => Raise AttributeError
  end.

(** [d.get(key, default)] *)
Definition get (d : list (string * pyval)) (key : string) (dflt : pyval) : pyval :=
  default dflt (dict_get key d).

(** [[f(x) for x in l]] where [f] can raise. *)
Fixpoint rmap {A B} (f : A → result B) (l : list A) : result (list B) :=
  match l with
  | [] => Ok []
  | x :: l' => y ← f x; ys ← rmap f l'; Ok (y :: ys)
  end.

(** *** load_map *)

(** The meta record of an item that is a record. *)
Definition meta_of (entry : list (string * pyval)) : pyval :=
  PDict [("id", get entry "id" PNone);
         ("layer", get entry "layer" (PStr "Default"));
         ("attributes", get entry "attributes" (PDict []));
         ("style", get entry "style" (PDict []))].

(** The meta record made up for the item of index [idx] of a bare list. *)
Definition default_meta (idx : Z) : pyval :=
  PDict [("id", PInt (idx + 1));
         ("layer", PStr "Default");
         ("attributes", PDict []);
         ("style", PDict [])].

(** One of the three blocks of [load_map], which differ in how they read
    the geometry of a record ([per_item]) and of a bare value ([bare]):
    the geometry list and the meta list of one kind of item. *)
Definition load_collection (raw : pyval)
    (per_item : list (string * pyval) → result pyval)
    (bare : pyval → result pyval) : result (list pyval * list pyval) :=
  records ← (if py_truthy raw
             then first ← py_first raw; Ok (is_dict first)
             else Ok false);
  entries ← py_iter raw;
  if records : bool then
    items ← rmap (λ entry,
                    e ← dict_of entry;
                    geometry ← per_item e;
                    Ok (geometry, meta_of e))
                 entries;
    Ok (items.*1, items.*2)
  else
    items ← rmap (λ '(idx, x), geometry ← bare x; Ok (geometry, default_meta idx))
                 (enumerate entries);
    Ok (items.*1, items.*2).

(** [p1, p2 = entry.get("points", [[0, 0], [0, 0]])] and
    [(tuple(p1), tuple(p2))] *)
Definition line_of_entry (entry : list (string * pyval)) : result pyval :=
  pts ← py_iter (get entry "points"
                     (PList [PList [PInt 0; PInt 0]; PList [PInt 0; PInt 0]]));
  match pts with
  | [p1; p2] => t1 ← py_tuple p1; t2 ← py_tuple p2; Ok (PTuple [t1; t2])
  | _ => Raise ValueError
  end.

(** [tuple(map(tuple, line))] *)
Definition line_of_bare (line : pyval) : result pyval :=
  pts ← py_iter line; ts ← rmap py_tuple pts; Ok (PTuple ts).

(** [tuple(entry.get("point", [0, 0]))] *)
Definition node_of_entry (entry : list (string * pyval)) : result pyval :=
  py_tuple (get entry "point" (PList [PInt 0; PInt 0])).

(** [tuple(entry.get("rect", [0, 0, 0, 0]))] *)
Definition obstacle_of_entry (entry : list (string * pyval)) : result pyval :=
  py_tuple (get entry "rect" (PList [PInt 0; PInt 0; PInt 0; PInt 0])).

(** [k in v], then [v[k]], for a string [k]: only a dictionary can answer
    the second. *)
Definition agent_slot (v : pyval) (k : string) : result (option pyval) :=
  match v with
  | PDict d => Ok (dict_get k d)
  | PList l | PTuple l =>
      if existsb (λ x, match x with
                       | PStr s => bool_decide (s = k)
                       | _ => false
                       end) l
      then Raise TypeError else Ok None
  | PStr s =>
      match String.index 0 k s with
      | Some _ => Raise TypeError
      | None => Ok None
      end
  | PNone | PBool _ | PInt _ => Raise TypeError
  end.

(** [{k: tuple(v[k]) for k in ("start", "goal") if k in v}] *)
Definition load_agent (v : pyval) : result pyval :=
  slots ← rfold (λ acc k,
                   slot ← agent_slot v k;
                   match slot with
                   | Some coords => t ← py_tuple coords; Ok (dict_set k t acc)
                   | None => Ok acc
                   end)
                [] ["start"; "goal"];
  Ok (PDict slots).

(** [load_map], from the suffix of the path and from what the JSON or
    YAML parser makes of the text of the file. *)
Definition load_map (suffix : string) (parsed : pyval) : result pyval :=
  if bool_decide (suffix ∈ [".yml"; ".yaml"; ".json"]) then
    data ← dict_of parsed;
    let layers :=
      get data "layers"
          (PList [PDict [("name", PStr "Default"); ("color", PStr "#000000");
                         ("visible", PBool true)]]) in
    '(lines, line_meta) ←
      load_collection (get data "lines" (PList [])) line_of_entry line_of_bare;
    '(nodes, node_meta) ←
      load_collection (get data "nodes" (PList [])) node_of_entry py_tuple;
    '(obstacles, obstacle_meta) ←
      load_collection (get data "obstacles" (PList [])) obstacle_of_entry py_tuple;
    raw_agents ← dict_of (get data "agents" (PDict []));
    agents ← rfold (λ acc '(name, v), a ← load_agent v; Ok (dict_set name a acc))
                   [] raw_agents;
    Ok (PDict [("layers", layers);
               ("lines", PList lines);
               ("line_meta", PList line_meta);
               ("nodes", PList nodes);
               ("node_meta", PList node_meta);
               ("obstacles", PList obstacles);
               ("obstacle_meta", PList obstacle_meta);
               ("agents", PDict agents)])
  else Raise ValueError.

(** *** save_map *)

(** [entry.update(m)] for a meta record that is a dictionary. *)
Definition update (entry : list (string * pyval)) (m : pyval)
    : result (list (string * pyval)) :=
  match m with
  | PDict d => Ok (foldl (λ e '(k, v), dict_set k v e) entry d)
  | _ => Raise TypeError
  end.

Definition _combine_collection (geom meta : pyval) (key : string)
    : result (list pyval) :=
  gs ← py_iter geom;
  ms ← py_iter meta;
  rmap (λ '(g, m),
          payload ← (if bool_decide (key = "points")
                     then pts ← py_iter g; ls ← rmap py_list pts; Ok (PList ls)
                     else py_list g);
          entry ← update [(key, payload)] m;
          Ok (PDict entry))
       (zip gs ms).

(** [{key: list(coords) for key, coords in v.items()}] *)
Definition save_agent (v : pyval) : result pyval :=
  slots ← dict_of v;
  out ← rfold (λ acc '(key, coords), l ← py_list coords; Ok (dict_set key l acc))
              [] slots;
  Ok (PDict out).

(** [save_map], up to the dictionary that is handed to [json.dumps]. *)
Definition save_map (data_v : pyval) : result pyval :=
  data ← dict_of data_v;
  lines ← _combine_collection (get data "lines" (PList []))
                              (get data "line_meta" (PList [])) "points";
  nodes ← _combine_collection (get data "nodes" (PList []))
                              (get data "node_meta" (PList [])) "point";
  obstacles ← _combine_collection (get data "obstacles" (PList []))
                                  (get data "obstacle_meta" (PList [])) "rect";
  raw_agents ← dict_of (get data "agents" (PDict []));
  agents ← rfold (λ acc '(k, v), a ← save_agent v; Ok (dict_set k a acc))
                 [] raw_agents;
  Ok (PDict [("layers", get data "layers" (PList []));
             ("lines", PList lines);
             ("nodes", PList nodes);
             ("obstacles", PList obstacles);
             ("agents", PDict agents)]).

(** *** save_paths *)

(** [list(coord)] for a coordinate. *)
Definition coord_list (c : Z * Z) : pyval := PList [PInt c.1; PInt c.2].

(** [save_paths], up to the dictionary that is handed to [json.dumps]:
    [{"paths": {k: [list(coord) for coord in v] for k, v in paths.items()}}]. *)
Definition save_paths (paths : list (string * list (Z * Z))) : pyval :=
  PDict [("paths",
          PDict (foldl (λ acc '(k, v), dict_set k (PList (coord_list <$> v)) acc)
                       [] paths))].

(** *** Map files in the words of the specification *)

(** The geometry of a line record: two coordinate lists. *)
Definition is_segment (g : pyval) : Prop :=
  ∃ p1 p2, g = PList [PList p1; PList p2].

(** The geometry of a node or obstacle record: one list of numbers. *)
Definition is_sequence (g : pyval) : Prop := ∃ cs, g = PList cs.

(** A record in canonical form: its geometry under [key], and its id,
    layer, attributes and style. *)
Definition canonical_item (key : string) (shape : pyval → Prop)
    (rec : list (string * pyval)) : Prop :=
  (∃ g, dict_get key rec = Some g ∧ shape g) ∧
  is_Some (dict_get "id" rec) ∧ is_Some (dict_get "layer" rec) ∧
  is_Some (dict_get "attributes" rec) ∧ is_Some (dict_get "style" rec).

(** An agent record whose start and goal, where present, are coordinate
    lists. *)
Definition canonical_agent (a : list (string * pyval)) : Prop :=
  ∀ k c, k ∈ ["start"; "goal"] → dict_get k a = Some c → is_sequence c.

(** A coordinate list as the loader keeps it. *)
Definition as_tuple (c : pyval) : pyval :=
  match c with PList l => PTuple l | _ => c end.

(** The geometry the loader keeps of a line record and of a node or
    obstacle record. *)
Definition loaded_line (rec : list (string * pyval)) : pyval :=
  match get rec "points" PNone with
  | PList l => PTuple (as_tuple <$> l)
  | x => x
  end.

Definition loaded_sequence (key : string) (rec : list (string * pyval)) : pyval :=
  as_tuple (get rec key PNone).

(** The agent record the loader keeps. *)
Definition loaded_agent (a : list (string * pyval)) : list (string * pyval) :=
  match dict_get "start" a with Some c => [("start", as_tuple c)] | None => [] end ++
  match dict_get "goal" a with Some c => [("goal", as_tuple c)] | None => [] end.

(** The record [save_map] writes for an item that was loaded from [rec]. *)
Definition written_record (key : string) (rec : list (string * pyval))
    : list (string * pyval) :=
  [(key, get rec key PNone);
   ("id", get rec "id" PNone);
   ("layer", get rec "layer" PNone);
   ("attributes", get rec "attributes" PNone);
   ("style", get rec "style" PNone)].

(** The record [save_map] writes for an agent that was loaded from [a]. *)
Definition written_agent (a : list (string * pyval)) : list (string * pyval) :=
  match dict_get "start" a with Some c => [("start", c)] | None => [] end ++
  match dict_get "goal" a with Some c => [("goal", c)] | None => [] end.

(** A canonical map file with one line, one node, one obstacle and one
    agent; the line record has its keys in another order and one key more. *)
Definition sample_file : list (string * pyval) :=
  [("layers", PList [PDict [("name", PStr "Default"); ("color", PStr "#000000");
                            ("visible", PBool true)]]);
   ("lines", PList [PDict [("id", PInt 1);
                           ("points", PList [PList [PInt 0; PInt 0];
                                             PList [PInt 40; PInt 0]]);
                           ("layer", PStr "Default");
                           ("attributes", PDict [("name", PStr "aisle")]);
                           ("style", PDict [("fill", PStr "#000000")]);
                           ("note", PStr "kept out")]]);
   ("nodes", PList [PDict [("point", PList [PInt 40; PInt 0]); ("id", PInt 2);
                           ("layer", PStr "Default"); ("attributes", PDict []);
                           ("style", PDict [])]]);
   ("obstacles", PList [PDict [("rect", PList [PInt 0; PInt 0; PInt 80; PInt 80]);
                               ("id", PInt 3); ("layer", PStr "Default");
                               ("attributes", PDict []); ("style", PDict [])]]);
   ("agents", PDict [("A", PDict [("start", PList [PInt 0; PInt 0]);
                                  ("goal", PList [PInt 40; PInt 0])])])].

(** The legacy file of the specification: one bare line. *)
Definition legacy_file : list (string * pyval) :=
  [("lines", PList [PList [PList [PInt 0; PInt 0]; PList [PInt 40; PInt 0]]])].

(** *** occupancy grid *)

Abbreviation Line := ((Z * Z) * (Z * Z))%type (only parsing).
Abbreviation Rect := (Z * Z * Z * Z)%type (only parsing).
Abbreviation Grid := (list (list Z)) (only parsing).

(** The three geometry lists that [export_occupancy_grid] reads with
    [map_data.get(key, [])]; a key that is absent is the empty list. *)
Record MapGeometry : Type := {
  lines : list Line;
  nodes : list Coordinate;
  obstacles : list Rect
}.

(** [int(a / b)]: true division, then truncation toward zero. A zero
    divisor raises. The quotient is exact as long as the operands are below
    2^53 in magnitude, which is the range this embedding speaks about. *)
Definition int_div (a b : Z) : result Z :=
  if decide (b = 0) then Raise ZeroDivisionError else Ok (Z.quot a b).

(** The three loops that accumulate [max_x] and [max_y], both starting at 0. *)
Definition max_xy (m : MapGeometry) : Z * Z :=
  let acc :=
    foldl (λ '(max_x, max_y) '((x1, y1), (x2, y2)),
             (Z.max (Z.max max_x x1) x2, Z.max (Z.max max_y y1) y2))
          (0, 0) (lines m) in
  let acc :=
    foldl (λ '(max_x, max_y) '(x, y), (Z.max max_x x, Z.max max_y y))
          acc (nodes m) in
  foldl (λ '(max_x, max_y) '(x1, y1, x2, y2),
           (Z.max (Z.max max_x x1) x2, Z.max (Z.max max_y y1) y2))
        acc (obstacles m).

(** [grid[gy][gx] = 1], used under the bounds guard only. *)
Definition set_cell (grid : Grid) (gy gx : Z) : Grid :=
  alter (λ row, <[Z.to_nat gx := 1]> row) (Z.to_nat gy) grid.

(** The two nested [range] loops of one obstacle. *)
Definition mark_cells (width height : Z) (x_start x_end y_start y_end : Z)
    (grid : Grid) : Grid :=
  foldl (λ g gx,
           foldl (λ g' gy,
                    if decide ((0 ≤ gy < height) ∧ (0 ≤ gx < width))
                    then set_cell g' gy gx else g')
                 g (py_range y_start (y_end + 1)))
        grid (py_range x_start (x_end + 1)).

Definition mark_obstacle (resolution width height : Z) (grid : Grid)
    (r : Rect) : result Grid :=
  let '(x1, y1, x2, y2) := r in
  x_start ← int_div x1 resolution;
  y_start ← int_div y1 resolution;
  x_end ← int_div x2 resolution;
  y_end ← int_div y2 resolution;
  Ok (mark_cells width height x_start x_end y_start y_end grid).

Definition export_occupancy_grid (map_data : MapGeometry) (resolution : Z)
    : result Grid :=
  let '(max_x, max_y) := max_xy map_data in
  w ← int_div max_x resolution;
  h ← int_div max_y resolution;
  let width := w + 1 in
  let height := h + 1 in
  let grid := replicate (Z.to_nat height) (replicate (Z.to_nat width) 0) in
  rfold (mark_obstacle resolution width height) grid (obstacles map_data).

(** Reading [grid[gy][gx]] at non-negative indices. *)
Definition cell (grid : Grid) (gx gy : Z) : option Z :=
  if decide (0 ≤ gx ∧ 0 ≤ gy)
  then grid !! Z.to_nat gy ≫= (λ row, row !! Z.to_nat gx)
  else None.

(** A grid of [nr] rows of [nc] cells each. *)
Definition wf_grid (nr nc : nat) (g : list (list Z)) : Prop :=
  length g = nr ∧ Forall (λ row, length row = nc) g.

(** The cells the loops of [mark_obstacle] visit for one rectangle. *)
Definition covers (resolution : Z) (r : Rect) (gx gy : Z) : Prop :=
  let '(x1, y1, x2, y2) := r in
  (Z.quot x1 resolution ≤ gx ≤ Z.quot x2 resolution) ∧
  (Z.quot y1 resolution ≤ gy ≤ Z.quot y2 resolution).

(** The cells the specification names for one rectangle, with [floor]. *)
Definition covers_floor (resolution : Z) (r : Rect) (gx gy : Z) : Prop :=
  let '(x1, y1, x2, y2) := r in
  (x1 `div` resolution ≤ gx ≤ x2 `div` resolution) ∧
  (y1 `div` resolution ≤ gy ≤ y2 `div` resolution).

(** Every x (resp. y) coordinate that occurs in the map. *)
Definition all_xs (m : MapGeometry) : list Z :=
  (lines m ≫= λ '((x1, _), (x2, _)), [x1; x2]) ++
  (nodes m ≫= λ '(x, _), [x]) ++
  (obstacles m ≫= λ '(x1, _, x2, _), [x1; x2]).

Definition all_ys (m : MapGeometry) : list Z :=
  (lines m ≫= λ '((_, y1), (_, y2)), [y1; y2]) ++
  (nodes m ≫= λ '(_, y), [y]) ++
  (obstacles m ≫= λ '(_, y1, _, y2), [y1; y2]).



End MapIO.

(** ** The graph classes of the graph library

    Both classes keep an adjacency mapping [node -> neighbour -> edge data]
    whose keys are the nodes of the graph. Edge data is the attribute
    dictionary of the edge; the package only ever writes and reads the
    attributes [weight] (undirected graph) and [capacity], [weight]
    (directed graph). *)

Module Nx.

(** [nx.Graph] over coordinates; the edge data is the [weight] attribute,
    absent ([None]) or set. *)
Abbreviation Graph := (gmap (Z * Z) (gmap (Z * Z) (option Z))) (only parsing).

(** What [add_edge] does to an endpoint that is not a node yet. *)
Definition ensure_node {K A} `{Countable K}
    (n : K) (g : gmap K (gmap K A)) : gmap K (gmap K A) :=
  match g !! n with
  | Some _ => g
  | None => <[n := ∅]> g
  end.

(** [Graph.add_edge(u, v, weight=w)]: both endpoints become nodes, the
    edge data is updated with the attribute and stored in both directions. *)
Definition add_edge (u v : Coordinate) (w : Z) (g : Graph) : Graph :=
  let g1 := ensure_node v (ensure_node u g) in
  let g2 := <[u := <[v := Some w]> (default ∅ (g1 !! u))]> g1 in
  <[v := <[u := Some w]> (default ∅ (g2 !! v))]> g2.

(** [graph.nodes]. The library lists the nodes in the order they were
    added; here they come in the order of the map. Which node comes first
    decides nothing in what follows but the direction in which [edges]
    names an edge. *)
Definition nodes (g : Graph) : list Coordinate := (map_to_list g).*1.

(** The data of the edge between [u] and [v], if there is one. *)
Definition edge_data {K A} `{Countable K}
    (g : gmap K (gmap K A)) (u v : K) : option A :=
  g !! u ≫= (λ nbrs, nbrs !! v).

(** [graph.edges(data=True)]: every node in turn reports the edges to the
    neighbours that have not reported yet, so that an edge is listed once. *)
Fixpoint edges_from (seen : gset Coordinate)
    (adj : list (Coordinate * gmap Coordinate (option Z)))
    : list (Coordinate * Coordinate * option Z) :=
  match adj with
  | [] => []
  | (n, nbrs) :: adj' =>
      ((λ '(nbr, dd), (n, nbr, dd)) <$>
         filter (λ '(nbr, _), nbr ∉ seen) (map_to_list nbrs))
      ++ edges_from ({[n]} ∪ seen) adj'
  end.

Definition edges (g : Graph) : list (Coordinate * Coordinate * option Z) :=
  edges_from ∅ (map_to_list g).

(** The invariant of an undirected graph: the data of an edge is stored
    under both of its directions. *)
Definition symmetric (g : Graph) : Prop :=
  ∀ u v, edge_data g u v = edge_data g v u.

(** A node of the time-expanded network: a coordinate and a time step. *)
Abbreviation TNode := (Z * Z * Z)%type (only parsing).

(** The attributes [capacity] and [weight] of a directed edge. *)
Record EdgeAttr : Type := { capacity : Z; weight : Z }.

(** [nx.DiGraph] over time-expanded nodes: the successor mapping. *)
Abbreviation DiGraph := (gmap (Z * Z * Z) (gmap (Z * Z * Z) EdgeAttr))
  (only parsing).

(** [DiGraph.add_node(n)] *)
Definition di_add_node (n : TNode) (g : DiGraph) : DiGraph := ensure_node n g.

(** [DiGraph.add_edge(u, v, capacity=c, weight=w)] *)
Definition di_add_edge (u v : TNode) (c w : Z) (g : DiGraph) : DiGraph :=
  let g1 := ensure_node v (ensure_node u g) in
  <[u := <[v := {| capacity := c; weight := w |}]> (default ∅ (g1 !! u))]> g1.

(** [n in g] *)
Definition has_node (g : DiGraph) (n : TNode) : bool :=
  bool_decide (is_Some (g !! n)).

(** [DiGraph.remove_node(n)] for a node of the graph: the node goes, and
    with it the edges that leave or enter it. *)
Definition di_remove_node (n : TNode) (g : DiGraph) : DiGraph :=
  delete n <$> delete n g.

End Nx.

(** ** graph_builder.py *)

Module GraphBuilder.

Definition lines_to_graph (lines : list (Z * Z * (Z * Z))) : Nx.Graph :=
  foldl (λ graph '((x1, y1), (x2, y2)),
           let u := (x1, y1) in
           let v := (x2, y2) in
           let weight := Z.abs (x1 - x2) + Z.abs (y1 - y2) in
           Nx.add_edge u v weight graph)
        ∅ lines.

(** The Manhattan distance of the specification. *)
Definition manhattan (u v : Coordinate) : Z :=
  Z.abs (u.1 - v.1) + Z.abs (u.2 - v.2).

End GraphBuilder.

(** ** ten_builder.py *)

Module TenBuilder.
Import Nx.

Abbreviation PathType := (list (Z * Z)) (only parsing).

Section with_library.

(** [nx.shortest_simple_paths(graph, start, goal, weight="weight")]: the
    ranked simple-path search of the graph library, a generator. *)
Variable shortest_simple_paths : Graph → Coordinate → Coordinate → gen PathType.

Definition k_shortest_paths (graph : Graph) (start goal : Coordinate) (k : Z)
    : result (list PathType) :=
  let generator := shortest_simple_paths graph start goal in
  list_islice generator k.

End with_library.

(** [zip(path[:-1], path[1:])] *)
Definition path_steps (path : PathType) : list (Coordinate * Coordinate) :=
  zip (slice_to path (-1)) (drop 1 path).

(** The first loop of [build_ten]: the allowed edges and the longest path. *)
Definition scan_paths (paths_per_agent : list (string * list PathType))
    : gset (Coordinate * Coordinate) * Z :=
  foldl (λ acc paths,
           foldl (λ '(allowed_edges, max_len) path,
                    (allowed_edges ∪ list_to_set (path_steps path),
                     Z.max max_len (Z.of_nat (length path))))
                 acc paths)
        (∅, 0) (paths_per_agent.*2).

(** The body of the loop over [t]. *)
Definition ten_layer (graph : Graph)
    (allowed_edges : gset (Coordinate * Coordinate)) (ten : DiGraph) (t : Z)
    : DiGraph :=
  let ten1 :=
    foldl (λ ten0 node,
             di_add_edge (node, t) (node, t + 1) 1 1
                         (di_add_node (node, t) ten0))
          ten (nodes graph) in
  foldl (λ ten0 '(u, v, data),
           if decide ((u, v) ∈ allowed_edges ∨ (v, u) ∈ allowed_edges)
           then
             let cost := default 1 data in
             di_add_edge (v, t) (u, t + 1) 1 cost
               (di_add_edge (u, t) (v, t + 1) 1 cost ten0)
           else ten0)
        ten1 (edges graph).

Definition build_ten (graph : Graph)
    (paths_per_agent : list (string * list PathType)) : DiGraph * Z :=
  let '(allowed_edges, max_len) := scan_paths paths_per_agent in
  let horizon := max_len in
  let ten := foldl (ten_layer graph allowed_edges) ∅ (py_range 0 horizon) in
  let ten :=
    foldl (λ ten0 node, di_add_node (node, horizon) ten0) ten (nodes graph) in
  (ten, horizon).

(** *** The network in the words of the specification *)

(** Every candidate path of every agent. *)
Definition candidates (paths_per_agent : list (string * list PathType))
    : list PathType :=
  mjoin (paths_per_agent.*2).

(** [u] is directly followed by [v] in [path]. *)
Definition consecutive_in (path : PathType) (u v : Coordinate) : Prop :=
  ∃ i : nat, path !! i = Some u ∧ path !! S i = Some v.

(** A base edge between [a] and [b] that some candidate path follows, in
    one direction or the other. *)
Definition allowed_move (graph : Graph)
    (allowed_edges : gset (Coordinate * Coordinate)) (a b : Coordinate) : Prop :=
  is_Some (edge_data graph a b) ∧
  ((a, b) ∈ allowed_edges ∨ (b, a) ∈ allowed_edges).

(** The weight of the base edge, 1 when the edge carries none. *)
Definition move_cost (graph : Graph) (a b : Coordinate) : Z :=
  default 1 (default None (edge_data graph a b)).

(** The attributes of the edge from [(a, t)] to [(b, t + 1)]: those of the
    move when the move is allowed, else those of the wait when [a = b] is a
    node, else there is no edge. *)
Definition ten_attr (graph : Graph)
    (allowed_edges : gset (Coordinate * Coordinate)) (a b : Coordinate)
    : option EdgeAttr :=
  if decide (allowed_move graph allowed_edges a b)
  then Some {| capacity := 1; weight := move_cost graph a b |}
  else if decide (a = b ∧ a ∈ dom graph)
       then Some {| capacity := 1; weight := 1 |}
       else None.

(** *** Ranked simple paths in the words of the specification *)

(** Every step of [path] follows an edge of the graph. *)
Definition is_walk (graph : Graph) (path : PathType) : Prop :=
  Forall (λ e, is_Some (edge_data graph e.1 e.2)) (path_steps path).

(** A simple (loopless) path from [start] to [goal] over the graph. *)
Definition simple_path (graph : Graph) (start goal : Coordinate)
    (path : PathType) : Prop :=
  head path = Some start ∧ last path = Some goal ∧ NoDup path ∧
  Forall (λ c, c ∈ dom graph) path ∧ is_walk graph path.








(** The line graph (0,0) - (40,0) - (80,0) and one agent with one
    candidate path of three coordinates. *)
Definition line_graph_lines : list (Z * Z * (Z * Z)) :=
  [((0, 0), (40, 0)); ((40, 0), (80, 0))].

Definition one_agent_paths : list (string * list PathType) :=
  [("A"%string, [[(0, 0); (40, 0); (80, 0)]])].

(** A degenerate segment gives the graph a self-loop of weight 0; a path
    that stays on its coordinate makes the self-loop an allowed edge. *)
Definition loop_lines : list (Z * Z * (Z * Z)) := [((0, 0), (0, 0))].

Definition staying_paths : list (string * list PathType) :=
  [("A"%string, [[(0, 0); (0, 0)]])].

(** *** Following a path through the network *)

(** A directed walk: every node is joined to the next one by an edge. *)
Definition di_walk (ten : DiGraph) (ns : list TNode) : Prop :=
  ∀ (i : nat) x y, ns !! i = Some x → ns !! S i = Some y →
    is_Some (edge_data ten x y).

(** The nodes of the network an agent visits from time 0 to [horizon]
    when it follows [path], one coordinate per step, and then stays on the
    last coordinate. *)
Definition timed_walk (path : PathType) (horizon : Z) : list TNode :=
  match last path with
  | None => []
  | Some goal =>
      (λ t, (default goal (path !! Z.to_nat t), t)) <$> py_range 0 (horizon + 1)
  end.

End TenBuilder.

(** ** mcf_solver.py *)

Module McfSolver.
Import Nx TenBuilder.

Abbreviation AgentSpec := (Z * Z * (Z * Z))%type (only parsing).
Abbreviation Flow := (list (Z * Z * Z * list (Z * Z * Z * Z))) (only parsing).
Abbreviation Paths := (list (string * list (Z * Z))) (only parsing).
Abbreviation Conflict := (string * string * (Z * Z) * Z)%type (only parsing).
Abbreviation Constraints := (list (string * gset (Z * Z * Z))) (only parsing).

(** The first edge of [edges.items()] that carries flow. *)
Fixpoint first_flow (edges : list (TNode * Z)) : option (TNode * Z) :=
  match edges with
  | [] => None
  | (v, f) :: edges' => if decide (0 < f) then Some (v, f) else first_flow edges'
  end.

(** The inner loop of [_extract_paths]: at most [hops] steps along edges
    that carry flow, each step taking one unit off the edge it follows. The
    flow table is shared between the agents, so it is threaded through. *)
Fixpoint walk (hops : nat) (flow : Flow) (node : TNode) (path : PathType)
    : Flow * PathType :=
  match hops with
  | O => (flow, path)
  | S hops' =>
      let edges := default [] (dict_get node flow) in
      match first_flow edges with
      | None => (flow, path)
      | Some (next_node, f) =>
          let flow' := dict_set node (dict_set next_node (f - 1) edges) flow in
          walk hops' flow' next_node (path ++ [next_node.1])
      end
  end.

Definition _extract_paths (flow : Flow) (agents : list (string * AgentSpec))
    (horizon : Z) : Paths :=
  (foldl (λ '(flow0, paths) '(agent, (start, _goal)),
            let '(flow1, path) :=
              walk (Z.to_nat horizon) flow0 (start, 0) [start] in
            (flow1, dict_set agent path paths))
         (flow, []) agents).2.

(** [max] of a sequence: it raises on the empty one. *)
Definition py_max (l : list Z) : result Z :=
  match l with
  | [] => Raise ValueError
  | x :: l' => Ok (foldl Z.max x l')
  end.

(** [path[t] if t < len(path) else path[-1]], for [t >= 0]. *)
Definition position (path : PathType) (t : Z) : result Coordinate :=
  let at_t :=
    if decide (t < Z.of_nat (length path)) then path !! Z.to_nat t
    else last path in
  match at_t with
  | Some node => Ok node
  | None => Raise IndexError
  end.

(** The loop over the agents at one time step. *)
Fixpoint scan_agents (t : Z) (occupancy : gmap Coordinate string)
    (items : Paths) : result (option Conflict) :=
  match items with
  | [] => Ok None
  | (agent, path) :: items' =>
      node ← position path t;
      match occupancy !! node with
      | Some other => Ok (Some (other, agent, node, t))
      | None => scan_agents t (<[node := agent]> occupancy) items'
      end
  end.

(** The loop over the time steps. *)
Fixpoint scan_times (ts : list Z) (paths : Paths) : result (option Conflict) :=
  match ts with
  | [] => Ok None
  | t :: ts' =>
      c ← scan_agents t ∅ paths;
      match c with
      | Some conflict => Ok (Some conflict)
      | None => scan_times ts' paths
      end
  end.

Definition _detect_conflict (paths : Paths) : result (option Conflict) :=
  max_len ← py_max ((λ p, Z.of_nat (length p)) <$> paths.*2);
  scan_times (py_range 0 max_len) paths.

(** [graph.nodes[n]["demand"] += d]: the node has to be there. *)
Definition add_demand (n : TNode) (d : Z) (demand : gmap TNode Z)
    : result (gmap TNode Z) :=
  match demand !! n with
  | Some x => Ok (<[n := x + d]> demand)
  | None => Raise KeyError
  end.

(** The demands [solve_mcf] writes on a copy of the network. *)
Definition set_demands (graph : DiGraph) (agents : list (string * AgentSpec))
    (horizon : Z) : result (gmap TNode Z) :=
  rfold (λ demand '(agent, (start, goal)),
           demand1 ← add_demand (start, 0) (-1) demand;
           add_demand (goal, horizon) 1 demand1)
        ((λ _, 0) <$> graph) agents.

(** The state of the outer loop after one iteration. *)
Inductive step_result : Type :=
  | Return (paths : Paths) (reservation : gmap (Coordinate * Z) string)
  | Again (constraints : Constraints).

Section with_library.

(** The two algorithms of the graph library: the ranked simple-path search
    and [nx.network_simplex], which takes the network with its demands and
    returns the cost and the flow, or raises. *)
Variable shortest_simple_paths : Graph → Coordinate → Coordinate → gen PathType.
Variable network_simplex : DiGraph → gmap TNode Z → result (Z * Flow).

Definition solve_mcf (ten : DiGraph) (agents : list (string * AgentSpec))
    (horizon : Z) : result Paths :=
  let graph := ten in
  demand ← set_demands graph agents horizon;
  '(_cost, flow) ← network_simplex graph demand;
  Ok (_extract_paths flow agents horizon).

(** [{a: set() for a in agents}] *)
Definition init_constraints (agents : list (string * AgentSpec)) : Constraints :=
  foldl (λ constraints '(a, _), dict_set a ∅ constraints) [] agents.

(** [{a: k_shortest_paths(graph, start, goal, k) for a, (start, goal) in
    agents.items()}] *)
Definition candidate_paths (graph : Graph) (agents : list (string * AgentSpec))
    (k : Z) : result (list (string * list PathType)) :=
  rfold (λ acc '(a, (start, goal)),
           paths ← k_shortest_paths shortest_simple_paths graph start goal k;
           Ok (dict_set a paths acc))
        [] agents.

(** The loop that removes the forbidden nodes from the network. *)
Definition remove_forbidden (constraints : Constraints) (ten : DiGraph)
    : DiGraph :=
  foldl (λ ten0 '(agent, forbidden),
           foldl (λ ten1 '(node, t),
                    if has_node ten1 (node, t)
                    then di_remove_node (node, t) ten1 else ten1)
                 ten0 (elements forbidden))
        ten constraints.

(** One iteration of the [while True] loop of [cbm_solve]. *)
Definition cbm_iteration (graph : Graph) (agents : list (string * AgentSpec))
    (k : Z) (constraints : Constraints) : result step_result :=
  paths_per_agent ← candidate_paths graph agents k;
  let '(ten, horizon) := build_ten graph paths_per_agent in
  let ten := remove_forbidden constraints ten in
  paths ← solve_mcf ten agents horizon;
  conflict ← _detect_conflict paths;
  match conflict with
  | None =>
      Ok (Return paths
            (foldl (λ reservation '(agent, path),
                      ReservationTable.reserve agent path reservation)
                   ReservationTable.init paths))
  | Some (a1, a2, node, time) =>
      match dict_get a2 constraints with
      | Some forbidden =>
          Ok (Again (dict_set a2 (forbidden ∪ {[(node, time)]}) constraints))
      | None => Raise KeyError
      end
  end.

(** The loop, run for at most [fuel] iterations; [None] when it has not
    returned by then. *)
Fixpoint cbm_loop (fuel : nat) (graph : Graph)
    (agents : list (string * AgentSpec)) (k : Z) (constraints : Constraints)
    : option (result Paths) :=
  match fuel with
  | O => None
  | S fuel' =>
      match cbm_iteration graph agents k constraints with
      | Raise e => Some (Raise e)
      | Ok (Return paths _) => Some (Ok paths)
      | Ok (Again constraints') => cbm_loop fuel' graph agents k constraints'
      end
  end.

Definition cbm_solve (fuel : nat) (graph : Graph)
    (agents : list (string * AgentSpec)) (k : Z) : option (result Paths) :=
  cbm_loop fuel graph agents k (init_constraints agents).

(** The constraint sets with which iteration [n] of the loop starts, if the
    loop gets that far. *)
Fixpoint constraints_at (n : nat) (graph : Graph)
    (agents : list (string * AgentSpec)) (k : Z) : option Constraints :=
  match n with
  | O => Some (init_constraints agents)
  | S n' =>
      match constraints_at n' graph agents k with
      | Some constraints =>
          match cbm_iteration graph agents k constraints with
          | Ok (Again constraints') => Some constraints'
          | _ => None
          end
      | None => None
      end
  end.

End with_library.

(** *** A run with a conflict

    Two agents on the segment (0,0) - (40,0) that share the goal (40,0). The
    search yields the direct path; the flow sends A through a wait and a
    move and B through two waits, within the capacities; both agents are on
    (40,0) at time 2. *)

Definition meeting_lines : list (Z * Z * (Z * Z)) := [((0, 0), (40, 0))].

Definition meeting_agents : list (string * AgentSpec) :=
  [("A"%string, ((0, 0), (40, 0))); ("B"%string, ((40, 0), (40, 0)))].

Definition meeting_search (graph : Graph) (start goal : Coordinate)
    : gen PathType :=
  yields [if decide (start = goal) then [start] else [start; goal]].

Definition meeting_flow : Flow :=
  [((0, 0, 0), [((0, 0, 1), 1); ((40, 0, 1), 0)]);
   ((0, 0, 1), [((0, 0, 2), 0); ((40, 0, 2), 1)]);
   ((40, 0, 0), [((40, 0, 1), 1); ((0, 0, 1), 0)]);
   ((40, 0, 1), [((40, 0, 2), 1); ((0, 0, 2), 0)]);
   ((0, 0, 2), []);
   ((40, 0, 2), [])].

Definition meeting_simplex (ten : DiGraph) (demand : gmap TNode Z)
    : result (Z * Flow) :=
  Ok (43, meeting_flow).

(** *** The flow and the demands, in the words of the graph library *)

(** A flow that is positive on edges of the network only, as the network
    simplex returns it. *)
Definition flow_within (ten : DiGraph) (flow : Flow) : Prop :=
  Forall (λ entry : TNode * list (TNode * Z),
            Forall (λ vf : TNode * Z,
                      0 < vf.2 → is_Some (edge_data ten entry.1 vf.1))
                   entry.2)
         flow.

#[export] Instance flow_within_dec (ten : DiGraph) (flow : Flow) :
  Decision (flow_within ten flow).
Proof. unfold flow_within. apply _. Defined.

(** The sum of the demands of all nodes. *)
Definition total_demand (demand : gmap TNode Z) : Z :=
  map_fold (λ _ d acc, d + acc) 0 demand.

(** How often [n] is the start node, resp. the goal node, of an agent. *)
Definition starts_at (agents : list (string * AgentSpec)) (n : TNode) : Z :=
  Z.of_nat (length (filter (λ a, (a.2.1, 0) = n) agents)).

Definition ends_at (agents : list (string * AgentSpec)) (horizon : Z)
    (n : TNode) : Z :=
  Z.of_nat (length (filter (λ a, (a.2.2, horizon) = n) agents)).

(** *** A run that returns, and a run that cannot

    One agent on the segment (0,0) - (40,0). The flow sends it over the
    segment and lets it wait on the goal; the simplex returns this flow
    when the network has the edges for it. *)

Definition single_agent : list (string * AgentSpec) :=
  [("A"%string, ((0, 0), (40, 0)))].

Definition single_flow : Flow :=
  [((0, 0, 0), [((0, 0, 1), 0); ((40, 0, 1), 1)]);
   ((40, 0, 1), [((40, 0, 2), 1)])].

Definition single_simplex (ten : DiGraph) (demand : gmap TNode Z)
    : result (Z * Flow) :=
  if decide (flow_within ten single_flow) then Ok (41, single_flow)
  else Raise NetworkXUnfeasible.

(** Two agents that start on the same coordinate. *)
Definition shared_start_agents : list (string * AgentSpec) :=
  [("A"%string, ((0, 0), (40, 0))); ("B"%string, ((0, 0), (0, 0)))].

End McfSolver.

(** ** cli.py: the agents handed to the planner *)

Module Cli.

(** [{name: (spec["start"], spec["goal"]) for name, spec in agents.items()
    if "start" in spec and "goal" in spec}], on agents whose start and goal
    are each present or absent. *)
Definition plan_agents
    (agents : list (string * (option Coordinate * option Coordinate)))
    : list (string * (Z * Z * (Z * Z))) :=
  foldl (λ acc '(name, (start, goal)),
           match start, goal with
           | Some s, Some g => dict_set name (s, g) acc
           | _, _ => acc
           end)
        [] agents.

End Cli.

(** ** map_editor.py: the bookkeeping behind Undo, Delete and Clear

    The editor keeps the geometry in three pairs of parallel lists
    ([lines] and [line_meta], and so on), the agents' markers in [agents],
    and three tables about the canvas items it has drawn: [history] (what
    was drawn, in order), [item_map] (what an item stands for) and
    [layer_items] (the items of each layer). The canvas itself belongs to
    the GUI toolkit; its calls in these methods ([canvas.delete],
    [draw_grid]) return nothing the methods use, and are left out.
    A method that raises leaves the object as it was at that moment: the
    outcome of a method is the state it leaves and the exception, if any. *)

Module MapEditor.

(** [Layer], the dataclass. *)
Record Layer : Type := { name : string; color : string; visible : bool }.

(** A meta record as the editor makes it: the values under [id],
    [layer], [attributes] and [style]. *)
Record Meta : Type := {
  meta_id : Z;
  meta_layer : string;
  meta_attributes : list (string * string);
  meta_style : list (string * string)
}.

(** The kind of a canvas item, the first component of an [item_map] value
    and of a [history] entry: one of the strings [line], [node],
    [obstacle], [start], [goal]. *)
Inductive kind : Type := KLine | KNode | KObstacle | KStart | KGoal.

#[export] Instance kind_eq_dec : EqDecision kind.
Proof. solve_decision. Defined.

Definition kind_key (k : kind) : string :=
  match k with
  | KLine => "line" | KNode => "node" | KObstacle => "obstacle"
  | KStart => "start" | KGoal => "goal"
  end.

(** The other component, [info]: [None], the index of the item in the
    lists of its kind (never negative: it is [len(list) - 1] when the item
    is drawn), or the name of an agent. *)
Inductive info : Type := INone | Index (i : nat) | Name (s : string).

Record Editor : Type := {
  layers : list Layer;
  lines : list (Z * Z * (Z * Z));
  line_meta : list Meta;
  nodes : list (Z * Z);
  node_meta : list Meta;
  obstacles : list (Z * Z * Z * Z);
  obstacle_meta : list Meta;
  agents : list (string * list (string * (Z * Z)));
  history : list (kind * Z * info);
  item_map : gmap Z (kind * info);
  layer_items : gmap string (list Z);
  next_id : Z;
  _line_start : option (Z * Z);
  _rect_start : option (Z * Z);
  selected_item : option Z
}.

(** Assignments to one attribute. *)
Definition set_lines v (e : Editor) : Editor :=
  Build_Editor (layers e) v (line_meta e) (nodes e) (node_meta e) (obstacles e)
    (obstacle_meta e) (agents e) (history e) (item_map e) (layer_items e)
    (next_id e) (_line_start e) (_rect_start e) (selected_item e).
Definition set_line_meta v (e : Editor) : Editor :=
  Build_Editor (layers e) (lines e) v (nodes e) (node_meta e) (obstacles e)
    (obstacle_meta e) (agents e) (history e) (item_map e) (layer_items e)
    (next_id e) (_line_start e) (_rect_start e) (selected_item e).
Definition set_nodes v (e : Editor) : Editor :=
  Build_Editor (layers e) (lines e) (line_meta e) v (node_meta e) (obstacles e)
    (obstacle_meta e) (agents e) (history e) (item_map e) (layer_items e)
    (next_id e) (_line_start e) (_rect_start e) (selected_item e).
Definition set_node_meta v (e : Editor) : Editor :=
  Build_Editor (layers e) (lines e) (line_meta e) (nodes e) v (obstacles e)
    (obstacle_meta e) (agents e) (history e) (item_map e) (layer_items e)
    (next_id e) (_line_start e) (_rect_start e) (selected_item e).
Definition set_obstacles v (e : Editor) : Editor :=
  Build_Editor (layers e) (lines e) (line_meta e) (nodes e) (node_meta e) v
    (obstacle_meta e) (agents e) (history e) (item_map e) (layer_items e)
    (next_id e) (_line_start e) (_rect_start e) (selected_item e).
Definition set_obstacle_meta v (e : Editor) : Editor :=
  Build_Editor (layers e) (lines e) (line_meta e) (nodes e) (node_meta e)
    (obstacles e) v (agents e) (history e) (item_map e) (layer_items e)
    (next_id e) (_line_start e) (_rect_start e) (selected_item e).
Definition set_agents v (e : Editor) : Editor :=
  Build_Editor (layers e) (lines e) (line_meta e) (nodes e) (node_meta e)
    (obstacles e) (obstacle_meta e) v (history e) (item_map e) (layer_items e)
    (next_id e) (_line_start e) (_rect_start e) (selected_item e).
Definition set_history v (e : Editor) : Editor :=
  Build_Editor (layers e) (lines e) (line_meta e) (nodes e) (node_meta e)
    (obstacles e) (obstacle_meta e) (agents e) v (item_map e) (layer_items e)
    (next_id e) (_line_start e) (_rect_start e) (selected_item e).
Definition set_item_map v (e : Editor) : Editor :=
  Build_Editor (layers e) (lines e) (line_meta e) (nodes e) (node_meta e)
    (obstacles e) (obstacle_meta e) (agents e) (history e) v (layer_items e)
    (next_id e) (_line_start e) (_rect_start e) (selected_item e).
Definition set_layer_items v (e : Editor) : Editor :=
  Build_Editor (layers e) (lines e) (line_meta e) (nodes e) (node_meta e)
    (obstacles e) (obstacle_meta e) (agents e) (history e) (item_map e) v
    (next_id e) (_line_start e) (_rect_start e) (selected_item e).
Definition set_selected_item v (e : Editor) : Editor :=
  Build_Editor (layers e) (lines e) (line_meta e) (nodes e) (node_meta e)
    (obstacles e) (obstacle_meta e) (agents e) (history e) (item_map e)
    (layer_items e) (next_id e) (_line_start e) (_rect_start e) v.

(** [l.pop()] on a list that is not empty: what is left. *)
Definition pop_last {A} (l : list A) : list A := take (pred (length l)) l.

(** [l.remove(x)]: the first occurrence goes; [ValueError] when there is
    none. *)
Fixpoint list_remove (x : Z) (l : list Z) : result (list Z) :=
  match l with
  | [] => Raise ValueError
  | y :: l' =>
      if decide (y = x) then Ok l'
      else l'' ← list_remove x l'; Ok (y :: l'')
  end.

(** [self.layer_items.get(layer, []).remove(item)]: the list of the layer
    is changed in place; for a layer without a list the removal is tried
    on a fresh empty list, and fails. *)
Definition remove_layer_item (layer : string) (item : Z)
    (items : gmap string (list Z)) : result (gmap string (list Z)) :=
  match items !! layer with
  | Some l => l' ← list_remove item l; Ok (<[layer := l']> items)
  | None => Raise ValueError
  end.

(** [agent = self.agents.get(name, {}); agent.pop(kind, None)] and then
    [if not agent: self.agents.pop(name, None)]: the marker goes from the
    record of the agent, and the agent goes when no marker is left. *)
Definition drop_marker (k : kind) (inf : info)
    (ags : list (string * list (string * (Z * Z))))
    : list (string * list (string * (Z * Z))) :=
  match inf with
  | Name agent_name =>
      match dict_get agent_name ags with
      | Some agent =>
          match filter (λ kv, kv.1 ≠ kind_key k) agent with
          | [] => filter (λ na, na.1 ≠ agent_name) ags
          | agent' => dict_set agent_name agent' ags
          end
      | None => ags
      end
  | _ => ags
  end.

(** [for item, (k, idx) in list(self.item_map.items()): if k == kind and
    idx > index: self.item_map[item] = (k, idx - 1)] *)
Definition reindex (k : kind) (index : nat) (m : gmap Z (kind * info))
    : gmap Z (kind * info) :=
  (λ v : kind * info,
     match v.2 with
     | Index idx =>
         if decide (v.1 = k ∧ (index < idx)%nat) then (v.1, Index (idx - 1))
         else v
     | _ => v
     end) <$> m.

Definition clear (e : Editor) : Editor :=
  {| layers := layers e;
     lines := []; line_meta := [];
     nodes := []; node_meta := [];
     obstacles := []; obstacle_meta := [];
     agents := [];
     history := [];
     item_map := ∅;
     layer_items := list_to_map ((λ layer, (name layer, [])) <$> layers e);
     next_id := 1;
     _line_start := None;
     _rect_start := None;
     selected_item := None |}.

Definition undo (e : Editor) : Editor * option exn :=
  match last (history e) with
  | None => (e, None)
  | Some (kind, item, inf) =>
      let e := set_history (pop_last (history e)) e in
      let e := set_item_map (delete item (item_map e)) e in
      match kind with
      | KLine =>
          if decide (lines e = []) then (e, None)
          else
            match last (line_meta e) with
            | None => (e, Some IndexError)
            | Some meta =>
                let e := set_line_meta (pop_last (line_meta e)) e in
                let e := set_lines (pop_last (lines e)) e in
                match remove_layer_item (meta_layer meta) item (layer_items e) with
                | Ok items => (set_layer_items items e, None)
                | Raise ex => (e, Some ex)
                end
            end
      | KNode =>
          if decide (nodes e = []) then (e, None)
          else
            match last (node_meta e) with
            | None => (e, Some IndexError)
            | Some meta =>
                let e := set_node_meta (pop_last (node_meta e)) e in
                let e := set_nodes (pop_last (nodes e)) e in
                match remove_layer_item (meta_layer meta) item (layer_items e) with
                | Ok items => (set_layer_items items e, None)
                | Raise ex => (e, Some ex)
                end
            end
      | KObstacle =>
          if decide (obstacles e = []) then (e, None)
          else
            match last (obstacle_meta e) with
            | None => (e, Some IndexError)
            | Some meta =>
                let e := set_obstacle_meta (pop_last (obstacle_meta e)) e in
                let e := set_obstacles (pop_last (obstacles e)) e in
                match remove_layer_item (meta_layer meta) item (layer_items e) with
                | Ok items => (set_layer_items items e, None)
                | Raise ex => (e, Some ex)
                end
            end
      | KStart | KGoal =>
          (set_agents (drop_marker kind inf (agents e)) e, None)
      end
  end.

Definition delete_selected (e : Editor) : Editor * option exn :=
  match selected_item e with
  | None => (e, None)
  | Some sel =>
      let entry := item_map e !! sel in
      let e := set_item_map (delete sel (item_map e)) e in
      match entry with
      | None => (set_selected_item None e, None)
      | Some (KLine, inf) =>
          match inf with
          | Index index =>
              match line_meta e !! index with
              | None => (e, Some IndexError)
              | Some meta =>
                  let e := set_line_meta (delete index (line_meta e)) e in
                  if decide (length (lines e) ≤ index)%nat
                  then (e, Some IndexError)
                  else
                    let e := set_lines (delete index (lines e)) e in
                    match remove_layer_item (meta_layer meta) sel
                                            (layer_items e) with
                    | Raise ex => (e, Some ex)
                    | Ok items =>
                        let e := set_layer_items items e in
                        let e := set_item_map
                                   (reindex KLine index (item_map e)) e in
                        (set_selected_item None e, None)
                    end
              end
          | _ => (e, Some TypeError)
          end
      | Some (KNode, inf) =>
          match inf with
          | Index index =>
              match node_meta e !! index with
              | None => (e, Some IndexError)
              | Some meta =>
                  let e := set_node_meta (delete index (node_meta e)) e in
                  if decide (length (nodes e) ≤ index)%nat
                  then (e, Some IndexError)
                  else
                    let e := set_nodes (delete index (nodes e)) e in
                    match remove_layer_item (meta_layer meta) sel
                                            (layer_items e) with
                    | Raise ex => (e, Some ex)
                    | Ok items =>
                        let e := set_layer_items items e in
                        let e := set_item_map
                                   (reindex KNode index (item_map e)) e in
                        (set_selected_item None e, None)
                    end
              end
          | _ => (e, Some TypeError)
          end
      | Some (KObstacle, inf) =>
          match inf with
          | Index index =>
              match obstacle_meta e !! index with
              | None => (e, Some IndexError)
              | Some meta =>
                  let e := set_obstacle_meta (delete index (obstacle_meta e)) e in
                  if decide (length (obstacles e) ≤ index)%nat
                  then (e, Some IndexError)
                  else
                    let e := set_obstacles (delete index (obstacles e)) e in
                    match remove_layer_item (meta_layer meta) sel
                                            (layer_items e) with
                    | Raise ex => (e, Some ex)
                    | Ok items =>
                        let e := set_layer_items items e in
                        let e := set_item_map
                                   (reindex KObstacle index (item_map e)) e in
                        (set_selected_item None e, None)
                    end
              end
          | _ => (e, Some TypeError)
          end
      | Some (KStart as k, inf) | Some (KGoal as k, inf) =>
          let e := set_agents (drop_marker k inf (agents e)) e in
          (set_selected_item None e, None)
      end
  end.

(** *** The lists of one kind of geometry *)

(** The meta list of a kind of geometry. *)
Definition metas_of (k : kind) (e : Editor) : list Meta :=
  match k with
  | KLine => line_meta e
  | KNode => node_meta e
  | KObstacle => obstacle_meta e
  | KStart | KGoal => []
  end.

(** The geometry list of a kind, every item as the list of its numbers. *)
Definition geometry_of (k : kind) (e : Editor) : list (list Z) :=
  match k with
  | KLine => (λ l : Z * Z * (Z * Z), [l.1.1; l.1.2; l.2.1; l.2.2]) <$> lines e
  | KNode => (λ n : Z * Z, [n.1; n.2]) <$> nodes e
  | KObstacle =>
      (λ r : Z * Z * Z * Z, [r.1.1.1; r.1.1.2; r.1.2; r.2]) <$> obstacles e
  | KStart | KGoal => []
  end.

Definition is_geometry (k : kind) : Prop := k = KLine ∨ k = KNode ∨ k = KObstacle.

(** An editor in which two lines were drawn on the default layer, as
    canvas items 11 and 12. *)
Definition two_lines : Editor :=
  {| layers := [{| name := "Default"; color := "#000000"; visible := true |}];
     lines := [((0, 0), (40, 0)); ((40, 0), (80, 0))];
     line_meta := [{| meta_id := 1; meta_layer := "Default";
                      meta_attributes := [];
                      meta_style := [("color"%string, "#000000"%string)] |};
                   {| meta_id := 2; meta_layer := "Default";
                      meta_attributes := [];
                      meta_style := [("color"%string, "#000000"%string)] |}];
     nodes := []; node_meta := [];
     obstacles := []; obstacle_meta := [];
     agents := [];
     history := [(KLine, 11, INone); (KLine, 12, INone)];
     item_map := {[11 := (KLine, Index 0); 12 := (KLine, Index 1)]};
     layer_items := {["Default"%string := [11; 12]]};
     next_id := 3;
     _line_start := None;
     _rect_start := None;
     selected_item := None |}.

End MapEditor.

(** * Properties *)

(** ** Reservation table *)

Section reservation.
Import ReservationTable.

Lemma enumerate_from_lookup (agent : string) (l : list Coordinate) (s : Z)
    (tbl : t) (c : Coordinate) (i : Z) :
  foldl (λ acc '(j, node), <[(node, j) := agent]> acc) tbl
        (zip (seqZ s (Z.of_nat (length l))) l) !! (c, i)
  = if decide (s ≤ i ∧ l !! Z.to_nat (i - s) = Some c)
    then Some agent else tbl !! (c, i).
Proof.
  revert s tbl. induction l as [|x l IH]; intros s tbl.
  - simpl. case_decide as H; [|done]. by destruct H as [_ ?].
  - rewrite seqZ_cons; [|simpl; lia]. cbn [zip zip_with foldl length].
    replace (Z.pred (Z.of_nat (S (length l)))) with (Z.of_nat (length l)) by lia.
    rewrite IH. destruct (decide (i = s)) as [->|Hne].
    + rewrite Z.sub_diag. change (Z.to_nat 0) with 0%nat.
      cbn [lookup list_lookup].
      case_decide as H1; [lia|].
      destruct (decide (x = c)) as [->|Hxc].
      * rewrite lookup_insert_eq. by rewrite decide_True.
      * rewrite lookup_insert_ne; [|congruence].
        rewrite decide_False; [done|]. intros [_ ?]. congruence.
    + destruct (decide (s ≤ i)) as [Hle|Hgt].
      * replace (Z.to_nat (i - s)) with (S (Z.to_nat (i - Z.succ s))) by lia.
        cbn [lookup list_lookup].
        case_decide as H1; case_decide as H2; try done.
        -- exfalso. apply H2. split; [lia|]. by destruct H1.
        -- exfalso. apply H1. split; [lia|]. by destruct H2.
        -- rewrite lookup_insert_ne; [done|]. congruence.
      * rewrite !decide_False; [|lia..].
        rewrite lookup_insert_ne; [done|]. congruence.
Qed.

Lemma reserve_lookup agent path tbl c i :
  reserve agent path tbl !! (c, i)
  = if decide (0 ≤ i ∧ path !! Z.to_nat i = Some c)
    then Some agent else tbl !! (c, i).
Proof.
  unfold reserve, enumerate. rewrite enumerate_from_lookup.
  by rewrite Z.sub_0_r.
Qed.

Lemma lock_ahead_lookup agent path (n : nat) tbl c i :
  lock_ahead agent path (Z.of_nat n) tbl !! (c, i)
  = if decide (0 ≤ i < Z.of_nat n ∧ path !! Z.to_nat i = Some c)
    then Some agent else tbl !! (c, i).
Proof.
  unfold lock_ahead, enumerate, slice_to.
  rewrite decide_True by lia. rewrite enumerate_from_lookup, Z.sub_0_r, Nat2Z.id.
  destruct (decide (0 ≤ i)) as [Hi|Hi]; [|by rewrite !decide_False by lia].
  destruct (decide (i < Z.of_nat n)) as [Hlt|Hge].
  - rewrite lookup_take_lt by lia.
    case_decide as H1; case_decide as H2; try done.
    + exfalso. apply H2. destruct H1. split; [lia|done].
    + exfalso. apply H1. destruct H2. split; [lia|done].
  - rewrite lookup_take_ge by lia.
    rewrite !decide_False; [done|lia|]. by intros [_ ?].
Qed.

End reservation.

Section reservation_claim.
Import ReservationTable.

(** C9. [reserve agent path] stores [agent] at [(path[i], i)] for every
    index [i] of the path, whatever was stored there before, and touches
    no other key; [is_reserved] is true exactly at the keys that hold a
    reservation; [lock_ahead agent path n] stores [agent] at [(path[i], i)]
    for the indices [i < n] only and touches no other key, so the rest of
    the path stays as it was. The two examples of the specification are
    evaluated on the empty table, and the second one also on the table
    left by the first. *)
Theorem reservation_table_reserve_lock_ahead
    (agent : string) (path : list Coordinate) (tbl : t) (n : nat) :
  (∀ (i : nat) c, path !! i = Some c →
      reserve agent path tbl !! (c, Z.of_nat i) = Some agent) ∧
  (∀ c i, ¬ (0 ≤ i ∧ path !! Z.to_nat i = Some c) →
      reserve agent path tbl !! (c, i) = tbl !! (c, i)) ∧
  (∀ c i, is_reserved tbl c i = true ↔ ∃ a, tbl !! (c, i) = Some a) ∧
  (∀ (i : nat) c, (i < n)%nat → path !! i = Some c →
      lock_ahead agent path (Z.of_nat n) tbl !! (c, Z.of_nat i) = Some agent) ∧
  (∀ c i, ¬ (0 ≤ i < Z.of_nat n ∧ path !! Z.to_nat i = Some c) →
      lock_ahead agent path (Z.of_nat n) tbl !! (c, i) = tbl !! (c, i)) ∧
  is_reserved (reserve "A" path_A init) (40, 0) 1 = true ∧
  is_reserved (reserve "A" path_A init) (40, 0) 0 = false ∧
  (∀ c i, is_reserved (lock_ahead "B" path_B 1 init) c i = true
          ↔ (c, i) = ((0, 0), 0)) ∧
  lock_ahead "B" path_B 1 (reserve "A" path_A init) !! ((0, 0), 0) = Some "B" ∧
  lock_ahead "B" path_B 1 (reserve "A" path_A init) !! ((40, 0), 1) = Some "A".
Proof.
  split_and!.
  - intros i c Hi. rewrite reserve_lookup, decide_True; [done|].
    split; [lia|]. by rewrite Nat2Z.id.
  - intros c i Hn. by rewrite reserve_lookup, decide_False.
  - intros c i. unfold is_reserved. by rewrite bool_decide_eq_true.
  - intros i c Hlt Hi. rewrite lock_ahead_lookup, decide_True; [done|].
    split; [lia|]. by rewrite Nat2Z.id.
  - intros c i Hn. by rewrite lock_ahead_lookup, decide_False.
  - unfold is_reserved. rewrite bool_decide_eq_true, reserve_lookup.
    by rewrite decide_True.
  - unfold is_reserved. rewrite bool_decide_eq_false, reserve_lookup.
    rewrite decide_False; [by intros [? ?]|]. by intros [_ [=]].
  - intros c i. unfold is_reserved.
    rewrite bool_decide_eq_true, (lock_ahead_lookup _ _ 1).
    case_decide as H; split.
    + intros _. destruct H as [Hi Hc]. assert (i = 0) as -> by lia.
      simpl in Hc. by simplify_eq.
    + done.
    + by intros [? ?].
    + intros [= -> ->]. destruct H. split; [lia|done].
  - by rewrite (lock_ahead_lookup _ _ 1), decide_True.
  - rewrite (lock_ahead_lookup _ _ 1), decide_False by lia.
    by rewrite reserve_lookup, decide_True.
Qed.

End reservation_claim.


(** ** Occupancy grid *)

Section occupancy.
Import MapIO.

#[local] Instance covers_dec res r gx gy : Decision (covers res r gx gy).
Proof. destruct r as [[[x1 y1] x2] y2]. unfold covers. apply _. Defined.

#[local] Instance covers_floor_dec res r gx gy : Decision (covers_floor res r gx gy).
Proof. destruct r as [[[x1 y1] x2] y2]. unfold covers_floor. apply _. Defined.

Lemma wf_grid_set_cell nr nc g gy gx :
  wf_grid nr nc g → wf_grid nr nc (set_cell g gy gx).
Proof.
  intros [Hlen Hrows]. split; unfold set_cell.
  - by rewrite length_alter.
  - apply Forall_alter; [done|]. intros row _ Hrow. by rewrite length_insert.
Qed.

Lemma cell_set_cell nr nc g gy gx x y :
  wf_grid nr nc g →
  0 ≤ gy < Z.of_nat nr → 0 ≤ gx < Z.of_nat nc →
  cell (set_cell g gy gx) x y
  = if decide (x = gx ∧ y = gy) then Some 1 else cell g x y.
Proof.
  intros [Hlen Hrows] Hy Hx. unfold cell, set_cell.
  destruct (decide (0 ≤ x ∧ 0 ≤ y)) as [[Hx0 Hy0]|Hneg].
  - rewrite list_lookup_alter.
    destruct (decide (Z.to_nat gy = Z.to_nat y)) as [Heq|Hne].
    + assert (y = gy) as -> by lia.
      destruct (lookup_lt_is_Some_2 g (Z.to_nat gy)) as [row Hrow]; [lia|].
      rewrite Hrow. simpl.
      assert (length row = nc) as Hw by (by eapply Forall_lookup_1 in Hrows).
      rewrite list_lookup_insert.
      destruct (decide (x = gx)) as [->|Hxne].
      * rewrite !decide_True; [done|done|]. split; [done|lia].
      * rewrite !decide_False; [done| |]; intros [? ?]; [done|lia].
    + rewrite decide_False; [done|]. intros [_ ->]. done.
  - rewrite decide_False; [done|]. intros [-> ->]. lia.
Qed.

(** A loop whose body marks the cells satisfying [P a], for each [a] of a
    list, marks the cells satisfying [P a] for some [a] of the list. *)
Lemma foldl_marks {A} (f : list (list Z) → A → list (list Z))
    (P : A → Z → Z → Prop) `{!∀ a x y, Decision (P a x y)} (nr nc : nat) :
  (∀ g a, wf_grid nr nc g → wf_grid nr nc (f g a)) →
  (∀ g a x y, wf_grid nr nc g →
     cell (f g a) x y = if decide (P a x y) then Some 1 else cell g x y) →
  ∀ l g x y, wf_grid nr nc g →
    wf_grid nr nc (foldl f g l) ∧
    cell (foldl f g l) x y
    = if decide (Exists (λ a, P a x y) l) then Some 1 else cell g x y.
Proof.
  intros Hwf Hcell l. induction l as [|a l IH]; intros g x y Hg; cbn [foldl].
  - split; [done|]. rewrite decide_False; [done|]. by intros ?%Exists_nil.
  - destruct (IH (f g a) x y (Hwf _ _ Hg)) as [Hwf' ->]. split; [done|].
    rewrite Hcell by done.
    destruct (decide (Exists (λ a0, P a0 x y) l)) as [Hex|Hnex].
    + rewrite decide_True; [done|]. by apply Exists_cons_tl.
    + destruct (decide (P a x y)) as [Hp|Hnp].
      * rewrite decide_True; [done|]. by apply Exists_cons_hd.
      * rewrite decide_False; [done|]. by intros [?|?]%Exists_cons.
Qed.

Lemma mark_cells_spec (nr nc : nat) xs xe ys ye g x y :
  wf_grid nr nc g →
  wf_grid nr nc (mark_cells (Z.of_nat nc) (Z.of_nat nr) xs xe ys ye g) ∧
  cell (mark_cells (Z.of_nat nc) (Z.of_nat nr) xs xe ys ye g) x y
  = if decide ((xs ≤ x ≤ xe ∧ ys ≤ y ≤ ye) ∧
               (0 ≤ y < Z.of_nat nr ∧ 0 ≤ x < Z.of_nat nc))
    then Some 1 else cell g x y.
Proof.
  intros Hg. unfold mark_cells.
  (* the inner loop, for a fixed column gx *)
  assert (∀ gx l g' x y, wf_grid nr nc g' →
    wf_grid nr nc (foldl (λ g0 gy,
        if decide ((0 ≤ gy < Z.of_nat nr) ∧ (0 ≤ gx < Z.of_nat nc))
        then set_cell g0 gy gx else g0) g' l) ∧
    cell (foldl (λ g0 gy,
        if decide ((0 ≤ gy < Z.of_nat nr) ∧ (0 ≤ gx < Z.of_nat nc))
        then set_cell g0 gy gx else g0) g' l) x y
    = if decide (Exists (λ gy, x = gx ∧ y = gy ∧
                   (0 ≤ gy < Z.of_nat nr) ∧ (0 ≤ gx < Z.of_nat nc)) l)
      then Some 1 else cell g' x y) as Hinner.
  { intros gx.
    apply (foldl_marks _ (λ gy x y, x = gx ∧ y = gy ∧
                   (0 ≤ gy < Z.of_nat nr) ∧ (0 ≤ gx < Z.of_nat nc))).
    - intros g0 gy Hg0. case_decide; [by apply wf_grid_set_cell|done].
    - intros g0 gy x0 y0 Hg0. case_decide as Hb.
      + destruct Hb as [Hb1 Hb2].
        rewrite (cell_set_cell nr nc) by done.
        destruct (decide (x0 = gx ∧ y0 = gy)) as [[-> ->]|Hne].
        * by rewrite decide_True.
        * rewrite decide_False; [done|]. intros (?&?&?). by apply Hne.
      + rewrite decide_False; [done|]. intros (?&?&?). by apply Hb. }
  destruct (foldl_marks
    (λ g0 gx, foldl (λ g' gy,
        if decide ((0 ≤ gy < Z.of_nat nr) ∧ (0 ≤ gx < Z.of_nat nc))
        then set_cell g' gy gx else g') g0 (py_range ys (ye + 1)))
    (λ gx x y, Exists (λ gy, x = gx ∧ y = gy ∧
                   (0 ≤ gy < Z.of_nat nr) ∧ (0 ≤ gx < Z.of_nat nc))
                 (py_range ys (ye + 1))) nr nc
    (λ g0 gx Hg0, proj1 (Hinner gx _ g0 0 0 Hg0))
    (λ g0 gx x0 y0 Hg0, proj2 (Hinner gx _ g0 x0 y0 Hg0))
    (py_range xs (xe + 1)) g x y Hg) as [Hwf ->].
  split; [done|]. apply decide_ext.
  rewrite Exists_exists. setoid_rewrite Exists_exists.
  unfold py_range. setoid_rewrite elem_of_seqZ. split.
  - intros (gx & Hgx & gy & Hgy & -> & -> & Hb). split; [lia|done].
  - intros [[Hxr Hyr] Hb]. exists x. split; [lia|].
    exists y. split; [lia|done].
Qed.

Lemma mark_cells_dims (nr nc : nat) width height xs xe ys ye g x y :
  width = Z.of_nat nc → height = Z.of_nat nr →
  wf_grid nr nc g →
  wf_grid nr nc (mark_cells width height xs xe ys ye g) ∧
  cell (mark_cells width height xs xe ys ye g) x y
  = if decide ((xs ≤ x ≤ xe ∧ ys ≤ y ≤ ye) ∧
               (0 ≤ y < height ∧ 0 ≤ x < width))
    then Some 1 else cell g x y.
Proof. intros -> ->. apply mark_cells_spec. Qed.

Lemma max_with_zero_app l1 l2 :
  max_with_zero (l1 ++ l2) = Z.max (max_with_zero l1) (max_with_zero l2).
Proof.
  unfold max_with_zero. induction l1 as [|a l1 IH]; simpl.
  - pose proof (Z.le_max_l 0 (foldr Z.max 0 l2)) as Hle.
    assert (0 ≤ foldr Z.max 0 l2) by (induction l2; simpl; lia). lia.
  - rewrite IH. lia.
Qed.

Lemma max_with_zero_nonneg l : 0 ≤ max_with_zero l.
Proof. unfold max_with_zero. induction l; simpl; lia. Qed.

Lemma max_with_zero_upper l x : x ∈ l → x ≤ max_with_zero l.
Proof.
  unfold max_with_zero. induction 1 as [|x y l Hin IH]; simpl; lia.
Qed.

Lemma max_with_zero_attained l : max_with_zero l = 0 ∨ max_with_zero l ∈ l.
Proof.
  unfold max_with_zero. induction l as [|a l IH]; simpl; [by left|].
  destruct (Z.max_spec a (foldr Z.max 0 l)) as [[_ ->]|[_ ->]].
  - destruct IH as [->|IH]; [by left|]. right. by apply list_elem_of_further.
  - right. apply list_elem_of_here.
Qed.

Lemma max_xy_spec m :
  max_xy m = (max_with_zero (all_xs m), max_with_zero (all_ys m)).
Proof.
  unfold max_xy, all_xs, all_ys. rewrite !max_with_zero_app.
  assert (∀ l mx my, 0 ≤ mx → 0 ≤ my →
    foldl (λ '(max_x, max_y) '((x1, y1), (x2, y2)),
             (Z.max (Z.max max_x x1) x2, Z.max (Z.max max_y y1) y2))
          (mx, my) l
    = (Z.max mx (max_with_zero (l ≫= λ '((x1, _), (x2, _)), [x1; x2])),
       Z.max my (max_with_zero (l ≫= λ '((_, y1), (_, y2)), [y1; y2]))))
    as Hlines.
  { induction l as [|[[x1 y1] [x2 y2]] l IH]; intros mx my Hmx Hmy;
      cbn [foldl].
    - f_equal; unfold max_with_zero; simpl; lia.
    - rewrite IH by lia. rewrite !bind_cons. unfold max_with_zero.
      cbn [foldr app]. f_equal; lia. }
  assert (∀ l mx my, 0 ≤ mx → 0 ≤ my →
    foldl (λ '(max_x, max_y) '(x, y), (Z.max max_x x, Z.max max_y y))
          (mx, my) l
    = (Z.max mx (max_with_zero (l ≫= λ '(x, _), [x])),
       Z.max my (max_with_zero (l ≫= λ '(_, y), [y])))) as Hnodes.
  { induction l as [|[x y] l IH]; intros mx my Hmx Hmy;
      cbn [foldl].
    - f_equal; unfold max_with_zero; simpl; lia.
    - rewrite IH by lia. rewrite !bind_cons. unfold max_with_zero.
      cbn [foldr app]. f_equal; lia. }
  assert (∀ l mx my, 0 ≤ mx → 0 ≤ my →
    foldl (λ '(max_x, max_y) '(x1, y1, x2, y2),
             (Z.max (Z.max max_x x1) x2, Z.max (Z.max max_y y1) y2))
          (mx, my) l
    = (Z.max mx (max_with_zero (l ≫= λ '(x1, _, x2, _), [x1; x2])),
       Z.max my (max_with_zero (l ≫= λ '(_, y1, _, y2), [y1; y2]))))
    as Hobs.
  { induction l as [|[[[x1 y1] x2] y2] l IH]; intros mx my Hmx Hmy;
      cbn [foldl].
    - f_equal; unfold max_with_zero; simpl; lia.
    - rewrite IH by lia. rewrite !bind_cons. unfold max_with_zero.
      cbn [foldr app]. f_equal; lia. }
  rewrite Hlines, Hnodes, Hobs by lia.
  pose proof (max_with_zero_nonneg (lines m ≫= λ '((x1, _), (x2, _)), [x1; x2])).
  pose proof (max_with_zero_nonneg (lines m ≫= λ '((_, y1), (_, y2)), [y1; y2])).
  f_equal; lia.
Qed.

Lemma mark_obstacle_ok res width height g x1 y1 x2 y2 :
  res ≠ 0 →
  mark_obstacle res width height g (x1, y1, x2, y2)
  = Ok (mark_cells width height (Z.quot x1 res) (Z.quot x2 res)
                   (Z.quot y1 res) (Z.quot y2 res) g).
Proof.
  intros Hres. unfold mark_obstacle, int_div.
  destruct (decide (res = 0)) as [?|_]; [done|]. reflexivity.
Qed.

Lemma rfold_mark_obstacle res width height g obs :
  res ≠ 0 →
  rfold (mark_obstacle res width height) g obs
  = Ok (foldl (λ g0 '(x1, y1, x2, y2),
                 mark_cells width height (Z.quot x1 res) (Z.quot x2 res)
                            (Z.quot y1 res) (Z.quot y2 res) g0) g obs).
Proof.
  intros Hres. revert g. induction obs as [|[[[x1 y1] x2] y2] obs IH];
    intros g; [done|].
  cbn [rfold foldl]. rewrite mark_obstacle_ok by done. apply IH.
Qed.

(** What [export_occupancy_grid] returns for a non-zero resolution, cell by
    cell. *)
Lemma export_occupancy_grid_ok m res :
  0 < res →
  let width := max_with_zero (all_xs m) `div` res + 1 in
  let height := max_with_zero (all_ys m) `div` res + 1 in
  ∃ grid, export_occupancy_grid m res = Ok grid ∧
    length grid = Z.to_nat height ∧
    Forall (λ row, length row = Z.to_nat width) grid ∧
    ∀ gx gy, 0 ≤ gx < width → 0 ≤ gy < height →
      cell grid gx gy
      = Some (if decide (Exists (λ r, covers res r gx gy) (obstacles m))
              then 1 else 0).
Proof.
  intros Hres width height. unfold export_occupancy_grid.
  rewrite max_xy_spec. unfold int_div.
  destruct (decide (res = 0)) as [?|_]; [lia|]. cbn [mbind result_bind].
  pose proof (max_with_zero_nonneg (all_xs m)) as Hx.
  pose proof (max_with_zero_nonneg (all_ys m)) as Hy.
  rewrite !Z.quot_div_nonneg by lia. fold width height.
  assert (0 < width) as Hw by (unfold width; pose proof (Z.div_pos _ res Hx); lia).
  assert (0 < height) as Hh by (unfold height; pose proof (Z.div_pos _ res Hy); lia).
  rewrite rfold_mark_obstacle by lia.
  set (g0 := replicate (Z.to_nat height) (replicate (Z.to_nat width) 0)).
  assert (wf_grid (Z.to_nat height) (Z.to_nat width) g0) as Hg0.
  { unfold wf_grid, g0. split; [by rewrite length_replicate|].
    apply Forall_replicate. by rewrite length_replicate. }
  eexists. split; [done|].
  assert (∀ x y,
    wf_grid (Z.to_nat height) (Z.to_nat width)
      (foldl (λ g1 '(x1, y1, x2, y2),
                mark_cells width height (Z.quot x1 res) (Z.quot x2 res)
                           (Z.quot y1 res) (Z.quot y2 res) g1) g0 (obstacles m)) ∧
    cell (foldl (λ g1 '(x1, y1, x2, y2),
                mark_cells width height (Z.quot x1 res) (Z.quot x2 res)
                           (Z.quot y1 res) (Z.quot y2 res) g1) g0 (obstacles m)) x y
    = if decide (Exists (λ r, covers res r x y ∧
                   (0 ≤ y < height ∧ 0 ≤ x < width)) (obstacles m))
      then Some 1 else cell g0 x y) as Hall.
  { intros x y.
    destruct (foldl_marks
      (λ g1 '(x1, y1, x2, y2),
         mark_cells width height (Z.quot x1 res) (Z.quot x2 res)
                    (Z.quot y1 res) (Z.quot y2 res) g1)
      (λ r x y, covers res r x y ∧ (0 ≤ y < height ∧ 0 ≤ x < width))
      (Z.to_nat height) (Z.to_nat width)) with (l := obstacles m) (g := g0)
      (x := x) (y := y) as [Hwf Hc]; [| |done|].
    - intros g [[[x1 y1] x2] y2] Hg.
      destruct (mark_cells_dims (Z.to_nat height) (Z.to_nat width)
        width height (Z.quot x1 res) (Z.quot x2 res) (Z.quot y1 res)
        (Z.quot y2 res) g 0 0) as [Hr _]; [lia|lia|done|done].
    - intros g [[[x1 y1] x2] y2] x0 y0 Hg.
      destruct (mark_cells_dims (Z.to_nat height) (Z.to_nat width)
        width height (Z.quot x1 res) (Z.quot x2 res) (Z.quot y1 res)
        (Z.quot y2 res) g x0 y0) as [_ ->]; [lia|lia|done|].
      apply decide_ext. unfold covers. done.
    - split; [done|]. rewrite Hc. by apply decide_ext. }
  destruct (Hall 0 0) as [[Hlen Hrows] _]. split_and!; [done..|].
  intros gx gy Hgx Hgy. destruct (Hall gx gy) as [_ ->].
  assert (cell g0 gx gy = Some 0) as ->.
  { unfold cell, g0. rewrite decide_True by lia.
    rewrite lookup_replicate_2 by lia. simpl.
    by rewrite lookup_replicate_2 by lia. }
  destruct (decide (Exists (λ r, covers res r gx gy) (obstacles m))) as [He|Hne].
  - rewrite decide_True; [done|].
    eapply Exists_impl; [done|]. intros r Hr. done.
  - rewrite decide_False; [done|]. intros He. apply Hne.
    eapply Exists_impl; [done|]. by intros r [Hr _].
Qed.

End occupancy.

Section occupancy_claims.
Import MapIO.








End occupancy_claims.

(** ** Connectivity graph *)

Section graph_library.
Import Nx.
Context {K A : Type} `{Countable K}.
Implicit Types g : gmap K (gmap K A).

Lemma edge_data_ensure_node n g a b :
  edge_data (ensure_node n g) a b = edge_data g a b.
Proof.
  unfold edge_data, ensure_node. destruct (g !! n) as [nbrs|] eqn:Hn; [done|].
  destruct (decide (n = a)) as [->|Hne].
  - by rewrite lookup_insert_eq, Hn.
  - by rewrite lookup_insert_ne.
Qed.

Lemma dom_ensure_node n g : dom (ensure_node n g) = {[n]} ∪ dom g.
Proof.
  unfold ensure_node. destruct (g !! n) as [nbrs|] eqn:Hn.
  - apply (elem_of_dom_2 (D := gset K)) in Hn. set_solver.
  - by rewrite dom_insert_L.
Qed.

Lemma ensure_node_lookup_ne n g a : n ≠ a → ensure_node n g !! a = g !! a.
Proof.
  intros Hne. unfold ensure_node. destruct (g !! n); [done|].
  by rewrite lookup_insert_ne.
Qed.

Lemma ensure_node_is_Some n g a :
  is_Some (ensure_node n g !! a) ↔ n = a ∨ is_Some (g !! a).
Proof. rewrite <-!(elem_of_dom (D := gset K)), dom_ensure_node. set_solver. Qed.

End graph_library.

Section graph.
Import Nx GraphBuilder.

Lemma edge_data_add_edge (u v : Z * Z) (w : Z)
    (g : gmap (Z * Z) (gmap (Z * Z) (option Z))) (a b : Z * Z) :
  edge_data (add_edge u v w g) a b
  = if decide ((a = u ∧ b = v) ∨ (a = v ∧ b = u)) then Some (Some w)
    else edge_data g a b.
Proof.
  unfold add_edge.
  set (g1 := ensure_node v (ensure_node u g)).
  assert (∀ x y, edge_data g1 x y = edge_data g x y) as Hg1
    by (intros; unfold g1; by rewrite !edge_data_ensure_node).
  set (g2 := <[u := <[v := Some w]> (default ∅ (g1 !! u))]> g1).
  assert (∀ x y, edge_data g2 x y
    = if decide (x = u ∧ y = v) then Some (Some w) else edge_data g x y) as Hg2.
  { intros x y. unfold g2, edge_data at 1.
    destruct (decide (x = u)) as [->|Hxu].
    - rewrite lookup_insert_eq. simpl.
      destruct (decide (y = v)) as [->|Hyv].
      + rewrite lookup_insert_eq. by rewrite decide_True.
      + rewrite lookup_insert_ne by done. rewrite decide_False by tauto.
        rewrite <-Hg1. unfold edge_data. by destruct (g1 !! u).
    - rewrite lookup_insert_ne by done. rewrite decide_False by tauto.
      apply Hg1. }
  unfold edge_data at 1.
  destruct (decide (a = v)) as [->|Hav].
  - rewrite lookup_insert_eq. simpl.
    destruct (decide (b = u)) as [->|Hbu].
    + rewrite lookup_insert_eq. rewrite decide_True; [done|]. by right.
    + rewrite lookup_insert_ne by done.
      transitivity (edge_data g2 v b).
      { unfold edge_data. by destruct (g2 !! v). }
      rewrite Hg2. apply decide_ext. split; [by left|]. intros [?|[_ ?]]; done.
  - rewrite lookup_insert_ne by done.
    change (g2 !! a ≫= (λ nbrs, nbrs !! b)) with (edge_data g2 a b).
    rewrite Hg2. apply decide_ext. split; [by left|]. intros [?|[? _]]; done.
Qed.

Lemma dom_add_edge (u v : Z * Z) (w : Z)
    (g : gmap (Z * Z) (gmap (Z * Z) (option Z))) :
  dom (add_edge u v w g) = {[u; v]} ∪ dom g.
Proof.
  unfold add_edge. rewrite !dom_insert_L, !dom_ensure_node. set_solver.
Qed.

Lemma lines_to_graph_snoc ls (x1 y1 x2 y2 : Z) :
  lines_to_graph (ls ++ [((x1, y1), (x2, y2))])
  = add_edge (x1, y1) (x2, y2) (manhattan (x1, y1) (x2, y2)) (lines_to_graph ls).
Proof. unfold lines_to_graph. by rewrite foldl_snoc. Qed.

Lemma manhattan_sym (u v : Z * Z) : manhattan u v = manhattan v u.
Proof. unfold manhattan. lia. Qed.

Lemma lines_to_graph_nodes ls (c : Z * Z) :
  c ∈ dom (lines_to_graph ls) ↔ ∃ l, l ∈ ls ∧ (c = l.1 ∨ c = l.2).
Proof.
  induction ls as [|[[x1 y1] [x2 y2]] ls IH] using rev_ind.
  - unfold lines_to_graph. simpl. rewrite dom_empty_L. split; [set_solver|].
    intros (l & Hl & _). by apply elem_of_nil in Hl.
  - rewrite lines_to_graph_snoc, dom_add_edge.
    rewrite elem_of_union, IH. split.
    + intros [Hc|(l & Hl & Hc)].
      * exists ((x1, y1), (x2, y2)). split; [set_solver|]. set_solver.
      * exists l. split; [set_solver|done].
    + intros (l & Hl & Hc). apply elem_of_app in Hl as [Hl|Hl].
      * right. by exists l.
      * apply list_elem_of_singleton in Hl as ->. left. set_solver.
Qed.

Lemma lines_to_graph_edge_data ls (u v : Z * Z) :
  edge_data (lines_to_graph ls) u v
  = if decide ((u, v) ∈ ls ∨ (v, u) ∈ ls)
    then Some (Some (manhattan u v)) else None.
Proof.
  induction ls as [|[[x1 y1] [x2 y2]] ls IH] using rev_ind.
  - unfold lines_to_graph, edge_data. cbn [foldl]. rewrite lookup_empty.
    destruct (decide _) as [[Hl|Hl]|]; [by apply elem_of_nil in Hl..|done].
  - rewrite lines_to_graph_snoc, edge_data_add_edge, IH.
    destruct (decide ((u = (x1, y1) ∧ v = (x2, y2)) ∨
                      (u = (x2, y2) ∧ v = (x1, y1)))) as [Hnew|Hold].
    + rewrite decide_True.
      * destruct Hnew as [[-> ->]|[-> ->]]; [done|].
        by rewrite (manhattan_sym (x2, y2)).
      * rewrite !elem_of_app, !list_elem_of_singleton.
        destruct Hnew as [[-> ->]|[-> ->]]; tauto.
    + apply decide_ext. rewrite !elem_of_app, !list_elem_of_singleton.
      split; [tauto|].
      intros [[?|Heq]|[?|Heq]]; [tauto| |tauto|]; exfalso; apply Hold;
        injection Heq as -> ->; tauto.
Qed.

Lemma lines_to_graph_symmetric ls : symmetric (lines_to_graph ls).
Proof.
  intros u v. rewrite !lines_to_graph_edge_data.
  rewrite (manhattan_sym v u). apply decide_ext. tauto.
Qed.

(** Neighbours are nodes: the adjacency of a node is empty or holds edges
    that the graph was given. *)
Lemma lines_to_graph_lookup ls u nbrs :
  lines_to_graph ls !! u = Some nbrs →
  ∀ v, nbrs !! v = edge_data (lines_to_graph ls) u v.
Proof. intros Hu v. unfold edge_data. by rewrite Hu. Qed.

Lemma lines_to_graph_nodes_pair ls (c : Z * Z) :
  c ∈ dom (lines_to_graph ls) ↔ ∃ d, (c, d) ∈ ls ∨ (d, c) ∈ ls.
Proof.
  rewrite lines_to_graph_nodes. split.
  - intros ([a b] & Hl & [->| ->]); [exists b|exists a]; simpl; tauto.
  - intros (d & [Hl|Hl]); [exists (c, d)|exists (d, c)]; simpl; tauto.
Qed.

(** Two lists with the same segments, up to the direction of a segment,
    give the same graph. *)
Lemma lines_to_graph_ext ls ls' :
  (∀ u v, ((u, v) ∈ ls ∨ (v, u) ∈ ls) ↔ ((u, v) ∈ ls' ∨ (v, u) ∈ ls')) →
  lines_to_graph ls = lines_to_graph ls'.
Proof.
  intros Hsame.
  assert (∀ c, c ∈ dom (lines_to_graph ls) ↔ c ∈ dom (lines_to_graph ls'))
    as Hdom.
  { intros c. rewrite !lines_to_graph_nodes_pair.
    split; intros (d & Hd); exists d; by apply Hsame. }
  apply map_eq. intros u.
  destruct (lines_to_graph ls !! u) as [nbrs|] eqn:Hu;
    destruct (lines_to_graph ls' !! u) as [nbrs'|] eqn:Hu'.
  - f_equal. apply map_eq. intros v.
    rewrite (lines_to_graph_lookup _ _ _ Hu), (lines_to_graph_lookup _ _ _ Hu').
    rewrite !lines_to_graph_edge_data. by apply decide_ext.
  - exfalso. apply (elem_of_dom_2 (D := gset (Z * Z))) in Hu.
    apply (not_elem_of_dom_2 (D := gset (Z * Z))) in Hu'. by apply Hu', Hdom.
  - exfalso. apply (elem_of_dom_2 (D := gset (Z * Z))) in Hu'.
    apply (not_elem_of_dom_2 (D := gset (Z * Z))) in Hu. by apply Hu, Hdom.
  - done.
Qed.

End graph.

(** ** The edge listing of an undirected graph *)

Section graph_edges.
Import Nx.
Implicit Types g : gmap (Z * Z) (gmap (Z * Z) (option Z)).

Lemma elem_of_nodes g (c : Z * Z) : c ∈ nodes g ↔ c ∈ dom g.
Proof.
  unfold nodes. rewrite list_elem_of_fmap, elem_of_dom. split.
  - intros ([c' nbrs] & -> & Hin). apply elem_of_map_to_list in Hin. by exists nbrs.
  - intros [nbrs Hc]. exists (c, nbrs). split; [done|].
    by apply elem_of_map_to_list.
Qed.

Lemma elem_of_edges_from seen adj (u v : Z * Z) (d : option Z) :
  (u, v, d) ∈ edges_from seen adj →
  ∃ nbrs, (u, nbrs) ∈ adj ∧ nbrs !! v = Some d.
Proof.
  revert seen. induction adj as [|[n nbrs] adj IH]; intros seen Hin; simpl in Hin.
  - by apply elem_of_nil in Hin.
  - apply elem_of_app in Hin as [Hin|Hin].
    + apply list_elem_of_fmap in Hin as ([nbr dd] & [= -> -> ->] & Hin).
      apply list_elem_of_filter in Hin as [_ Hin].
      apply elem_of_map_to_list in Hin. exists nbrs. split; [set_solver|done].
    + destruct (IH _ Hin) as (nbrs' & Hin' & Hv). exists nbrs'.
      split; [set_solver|done].
Qed.

Lemma edges_from_complete seen adj (u v : Z * Z) nu nv (d : option Z) :
  NoDup adj.*1 → (∀ n, n ∈ adj.*1 → n ∉ seen) →
  (u, nu) ∈ adj → (v, nv) ∈ adj →
  nu !! v = Some d → nv !! u = Some d →
  (u, v, d) ∈ edges_from seen adj ∨ (v, u, d) ∈ edges_from seen adj.
Proof.
  revert seen. induction adj as [|[n nbrs] adj IH];
    intros seen Hnd Hseen Hu Hv Huv Hvu.
  - by apply elem_of_nil in Hu.
  - rewrite fmap_cons in Hnd. apply NoDup_cons in Hnd as [Hn Hnd].
    cbn [edges_from]. rewrite !elem_of_app.
    assert (∀ x nx, (x, nx) ∈ (n, nbrs) :: adj → x = n → nx = nbrs) as Hhd.
    { intros x nx [[= -> ->]|Hin]%elem_of_cons Hx; [done|]. subst x.
      exfalso. apply Hn. apply list_elem_of_fmap. by exists (n, nx). }
    assert (∀ x nx, (x, nx) ∈ (n, nbrs) :: adj → x ≠ n → (x, nx) ∈ adj) as Htl.
    { intros x nx [[= -> ->]|Hin]%elem_of_cons Hx; done. }
    assert (∀ x nx, (x, nx) ∈ (n, nbrs) :: adj → x ∉ seen) as Hns.
    { intros x nx Hin. apply Hseen. apply list_elem_of_fmap. by exists (x, nx). }
    destruct (decide (u = n)) as [->|Hun].
    + left. left. rewrite (Hhd _ _ Hu eq_refl) in Huv.
      apply list_elem_of_fmap. exists (v, d). split; [done|].
      apply list_elem_of_filter. split; [by eapply Hns|].
      by apply elem_of_map_to_list.
    + destruct (decide (v = n)) as [->|Hvn].
      * right. left. rewrite (Hhd _ _ Hv eq_refl) in Hvu.
        apply list_elem_of_fmap. exists (u, d). split; [done|].
        apply list_elem_of_filter. split; [by eapply Hns|].
        by apply elem_of_map_to_list.
      * destruct (IH ({[n]} ∪ seen)) as [Hin|Hin]; try by auto.
        intros m Hm. apply not_elem_of_union. split.
        -- apply not_elem_of_singleton. by intros ->.
        -- apply Hseen. rewrite fmap_cons. by apply list_elem_of_further.
Qed.

Lemma elem_of_edges g (u v : Z * Z) (d : option Z) :
  (u, v, d) ∈ edges g → edge_data g u v = Some d.
Proof.
  intros (nbrs & Hin & Hv)%elem_of_edges_from.
  apply elem_of_map_to_list in Hin. unfold edge_data. by rewrite Hin.
Qed.

Lemma edges_complete g (u v : Z * Z) (d : option Z) :
  symmetric g → edge_data g u v = Some d →
  (u, v, d) ∈ edges g ∨ (v, u, d) ∈ edges g.
Proof.
  intros Hsym Huv. pose proof Huv as Hvu. rewrite Hsym in Hvu.
  unfold edge_data in Huv, Hvu.
  destruct (g !! u) as [nu|] eqn:Hu; [|done].
  destruct (g !! v) as [nv|] eqn:Hv; [|done]. simpl in Huv, Hvu.
  apply (edges_from_complete ∅ (map_to_list g) u v nu nv d).
  - apply NoDup_fst_map_to_list.
  - intros n _. apply not_elem_of_empty.
  - by apply elem_of_map_to_list.
  - by apply elem_of_map_to_list.
  - done.
  - done.
Qed.

Lemma symmetric_neighbour_node g (u v : Z * Z) :
  symmetric g → is_Some (edge_data g u v) → u ∈ dom g ∧ v ∈ dom g.
Proof.
  intros Hsym Huv. pose proof Huv as Hvu. rewrite Hsym in Hvu.
  unfold edge_data in Huv, Hvu. rewrite !elem_of_dom.
  destruct (g !! u); [|by destruct Huv]. destruct (g !! v); [|by destruct Hvu].
  by split.
Qed.

Lemma elem_of_edges_from_seen seen adj (a b : Z * Z) (d : option Z) :
  (a, b, d) ∈ edges_from seen adj → a ∈ adj.*1 ∧ b ∉ seen.
Proof.
  revert seen. induction adj as [|[n nbrs] adj IH]; intros seen Hin;
    cbn [edges_from] in Hin.
  - by apply elem_of_nil in Hin.
  - rewrite fmap_cons. apply elem_of_app in Hin as [Hin|Hin].
    + apply list_elem_of_fmap in Hin as ([nbr dd] & [= -> -> ->] & Hin).
      apply list_elem_of_filter in Hin as [Hns _].
      split; [apply list_elem_of_here|done].
    + destruct (IH _ Hin) as [Ha Hb]. split; [by apply list_elem_of_further|].
      set_solver.
Qed.

Lemma edges_from_one_direction seen adj (u v : Z * Z) (d d' : option Z) :
  NoDup adj.*1 →
  (u, v, d) ∈ edges_from seen adj → (v, u, d') ∈ edges_from seen adj → u = v.
Proof.
  revert seen. induction adj as [|[n nbrs] adj IH]; intros seen Hnd Huv Hvu;
    cbn [edges_from] in Huv, Hvu.
  - by apply elem_of_nil in Huv.
  - rewrite fmap_cons in Hnd. apply NoDup_cons in Hnd as [Hn Hnd].
    apply elem_of_app in Huv as [Huv|Huv]; apply elem_of_app in Hvu as [Hvu|Hvu].
    + apply list_elem_of_fmap in Huv as ([? ?] & [= -> -> ->] & _).
      by apply list_elem_of_fmap in Hvu as ([? ?] & [= -> -> ->] & _).
    + apply list_elem_of_fmap in Huv as ([? ?] & [= -> -> ->] & _).
      apply elem_of_edges_from_seen in Hvu as [_ Hvu]. set_solver.
    + apply list_elem_of_fmap in Hvu as ([? ?] & [= -> -> ->] & _).
      apply elem_of_edges_from_seen in Huv as [_ Huv]. set_solver.
    + by eapply IH.
Qed.

Lemma edges_from_NoDup seen adj : NoDup adj.*1 → NoDup (edges_from seen adj).
Proof.
  revert seen. induction adj as [|[n nbrs] adj IH]; intros seen Hnd;
    cbn [edges_from]; [apply NoDup_nil_2|].
  rewrite fmap_cons in Hnd. apply NoDup_cons in Hnd as [Hn Hnd].
  apply NoDup_app. split_and!.
  - apply NoDup_fmap_2.
    + intros [b1 d1] [b2 d2] [= -> ->]. done.
    + apply NoDup_filter, NoDup_map_to_list.
  - intros [[a b] d] Hin Hin'.
    apply list_elem_of_fmap in Hin as ([? ?] & [= -> -> ->] & _).
    apply elem_of_edges_from_seen in Hin' as [Hin' _]. done.
  - by apply IH.
Qed.

(** The edge listing names every edge once, in one direction. *)
Lemma edges_once g :
  NoDup (edges g) ∧
  (∀ (u v : Z * Z) (d d' : option Z),
     (u, v, d) ∈ edges g → (v, u, d') ∈ edges g → u = v).
Proof.
  split.
  - apply edges_from_NoDup, NoDup_fst_map_to_list.
  - intros u v d d'. apply edges_from_one_direction, NoDup_fst_map_to_list.
Qed.

End graph_edges.

Section graph_claim.
Import Nx GraphBuilder.

(** C3. The nodes of [lines_to_graph ls] are exactly the endpoints of the
    segments of [ls]. Between [u] and [v] there is an edge exactly when [ls]
    has a segment from [u] to [v] or from [v] to [u]; the graph keeps one
    edge data per unordered pair, stored under both directions, and its
    weight is the Manhattan distance of the endpoints. The edge listing of
    the graph names each of these edges once, in one direction. The graph
    depends only on which unordered endpoint pairs occur: a list with a
    repeated segment gives the graph of the list without the repetition, as
    in the example of the specification. *)
Theorem lines_to_graph_connectivity (ls : list (Z * Z * (Z * Z))) :
  (∀ c, c ∈ dom (lines_to_graph ls) ↔ ∃ l, l ∈ ls ∧ (c = l.1 ∨ c = l.2)) ∧
  (∀ u v, (u, v) ∈ ls ∨ (v, u) ∈ ls →
     edge_data (lines_to_graph ls) u v
     = Some (Some (Z.abs (u.1 - v.1) + Z.abs (u.2 - v.2)))) ∧
  (∀ u v, ¬ ((u, v) ∈ ls ∨ (v, u) ∈ ls) →
     edge_data (lines_to_graph ls) u v = None) ∧
  symmetric (lines_to_graph ls) ∧
  (NoDup (edges (lines_to_graph ls)) ∧
   (∀ u v d d', (u, v, d) ∈ edges (lines_to_graph ls) →
                (v, u, d') ∈ edges (lines_to_graph ls) → u = v) ∧
   (∀ u v d, (u, v, d) ∈ edges (lines_to_graph ls) →
      ((u, v) ∈ ls ∨ (v, u) ∈ ls) ∧
      d = Some (Z.abs (u.1 - v.1) + Z.abs (u.2 - v.2))) ∧
   (∀ u v, (u, v) ∈ ls ∨ (v, u) ∈ ls →
      ∃ d, (u, v, d) ∈ edges (lines_to_graph ls) ∨
           (v, u, d) ∈ edges (lines_to_graph ls))) ∧
  (∀ ls', (∀ u v, ((u, v) ∈ ls ∨ (v, u) ∈ ls) ↔ ((u, v) ∈ ls' ∨ (v, u) ∈ ls')) →
     lines_to_graph ls' = lines_to_graph ls) ∧
  (∀ l ls1 ls2 ls3, ls = ls1 ++ l :: ls2 ++ l :: ls3 →
     lines_to_graph ls = lines_to_graph (ls1 ++ l :: ls2 ++ ls3)) ∧
  lines_to_graph [((0, 0), (1, 0)); ((0, 0), (1, 0))]
  = lines_to_graph [((0, 0), (1, 0))] ∧
  edge_data (lines_to_graph [((0, 0), (3, 4))]) (0, 0) (3, 4) = Some (Some 7).
Proof.
  split_and!.
  - apply lines_to_graph_nodes.
  - intros u v Huv. rewrite lines_to_graph_edge_data. by rewrite decide_True.
  - intros u v Huv. rewrite lines_to_graph_edge_data. by rewrite decide_False.
  - apply lines_to_graph_symmetric.
  - apply edges_once.
  - apply edges_once.
  - intros u v d Hin%elem_of_edges.
    rewrite lines_to_graph_edge_data in Hin.
    destruct (decide ((u, v) ∈ ls ∨ (v, u) ∈ ls)) as [Huv|]; [|done].
    split; [done|]. by injection Hin as <-.
  - intros u v Huv. exists (Some (manhattan u v)).
    apply edges_complete; [apply lines_to_graph_symmetric|].
    rewrite lines_to_graph_edge_data. by rewrite decide_True.
  - intros ls' Hsame. symmetry. by apply lines_to_graph_ext.
  - intros l ls1 ls2 ls3 ->. apply lines_to_graph_ext. intros u v.
    rewrite !elem_of_app, !elem_of_cons, !elem_of_app, !elem_of_cons. tauto.
  - apply lines_to_graph_ext. intros u v. rewrite !elem_of_cons. tauto.
  - rewrite lines_to_graph_edge_data. rewrite decide_True; [done|].
    left. apply list_elem_of_here.
Qed.

End graph_claim.


(** ** Time-expanded network *)

Section digraph.
Import Nx.
Implicit Types ten : gmap (Z * Z * Z) (gmap (Z * Z * Z) EdgeAttr).

Lemma edge_data_di_add_edge (u v : Z * Z * Z) c w ten (a b : Z * Z * Z) :
  edge_data (di_add_edge u v c w ten) a b
  = if decide (a = u ∧ b = v) then Some {| capacity := c; weight := w |}
    else edge_data ten a b.
Proof.
  unfold di_add_edge. set (g1 := ensure_node v (ensure_node u ten)).
  assert (∀ x y, edge_data g1 x y = edge_data ten x y) as Hg1
    by (intros; unfold g1; by rewrite !edge_data_ensure_node).
  unfold edge_data at 1. destruct (decide (a = u)) as [->|Hau].
  - rewrite lookup_insert_eq. simpl. destruct (decide (b = v)) as [->|Hbv].
    + rewrite lookup_insert_eq. by rewrite decide_True.
    + rewrite lookup_insert_ne by done. rewrite decide_False by tauto.
      rewrite <-Hg1. unfold edge_data. by destruct (g1 !! u).
  - rewrite lookup_insert_ne by done. rewrite decide_False by tauto. apply Hg1.
Qed.

Lemma dom_di_add_edge (u v : Z * Z * Z) c w ten :
  dom (di_add_edge u v c w ten) = {[u; v]} ∪ dom ten.
Proof.
  unfold di_add_edge. rewrite dom_insert_L, !dom_ensure_node. set_solver.
Qed.

Lemma edge_data_di_add_node (n : Z * Z * Z) ten a b :
  edge_data (di_add_node n ten) a b = edge_data ten a b.
Proof. apply edge_data_ensure_node. Qed.

Lemma dom_di_add_node (n : Z * Z * Z) ten :
  dom (di_add_node n ten) = {[n]} ∪ dom ten.
Proof. apply dom_ensure_node. Qed.

(** A loop whose body writes [val x y] on the edges [P a], for each [a] of
    a list, writes it on the edges [P a] for some [a] of the list. *)
Lemma foldl_edge_data {B} (step : gmap (Z * Z * Z) (gmap (Z * Z * Z) EdgeAttr)
                                  → B → gmap (Z * Z * Z) (gmap (Z * Z * Z) EdgeAttr))
    (P : B → Z * Z * Z → Z * Z * Z → Prop) `{!∀ a x y, Decision (P a x y)}
    (val : Z * Z * Z → Z * Z * Z → EdgeAttr) (l : list B) x y :
  (∀ ten a, a ∈ l →
     edge_data (step ten a) x y
     = if decide (P a x y) then Some (val x y) else edge_data ten x y) →
  ∀ ten,
    edge_data (foldl step ten l) x y
    = if decide (Exists (λ a, P a x y) l) then Some (val x y)
      else edge_data ten x y.
Proof.
  induction l as [|a l IH]; intros Hstep ten; cbn [foldl].
  - rewrite decide_False; [done|]. by intros ?%Exists_nil.
  - rewrite IH by (intros; apply Hstep; by apply list_elem_of_further).
    rewrite Hstep by apply list_elem_of_here.
    destruct (decide (Exists (λ a0, P a0 x y) l)) as [Hex|Hnex].
    + rewrite decide_True; [done|]. by apply Exists_cons_tl.
    + destruct (decide (P a x y)) as [Hp|Hnp].
      * rewrite decide_True; [done|]. by apply Exists_cons_hd.
      * rewrite decide_False; [done|]. by intros [?|?]%Exists_cons.
Qed.

Lemma foldl_dom {B} (step : gmap (Z * Z * Z) (gmap (Z * Z * Z) EdgeAttr)
                            → B → gmap (Z * Z * Z) (gmap (Z * Z * Z) EdgeAttr))
    (Q : B → Z * Z * Z → Prop) (l : list B) n :
  (∀ ten a, a ∈ l → n ∈ dom (step ten a) ↔ Q a n ∨ n ∈ dom ten) →
  ∀ ten, n ∈ dom (foldl step ten l) ↔ Exists (λ a, Q a n) l ∨ n ∈ dom ten.
Proof.
  induction l as [|a l IH]; intros Hstep ten; cbn [foldl].
  - rewrite Exists_nil. tauto.
  - rewrite IH by (intros; apply Hstep; by apply list_elem_of_further).
    rewrite Hstep by apply list_elem_of_here. rewrite Exists_cons. tauto.
Qed.

End digraph.

Section ten_layer.
Import Nx TenBuilder.
Context (g : gmap (Z * Z) (gmap (Z * Z) (option Z))).
Context (allowed : gset (Z * Z * (Z * Z))).
Hypothesis g_symmetric : symmetric g.

Lemma move_cost_edge (u v : Z * Z) d :
  (u, v, d) ∈ edges g →
  move_cost g u v = default 1 d ∧ move_cost g v u = default 1 d.
Proof.
  intros Hin%elem_of_edges. unfold move_cost.
  by rewrite <-(g_symmetric u v), Hin.
Qed.

Lemma exists_move_edge (t : Z) (a b : Z * Z) (ta tb : Z) :
  Exists (λ e : Z * Z * (Z * Z) * option Z,
            ((e.1.1, e.1.2) ∈ allowed ∨ (e.1.2, e.1.1) ∈ allowed) ∧
            (((a, ta) = (e.1.2, t) ∧ (b, tb) = (e.1.1, t + 1)) ∨
             ((a, ta) = (e.1.1, t) ∧ (b, tb) = (e.1.2, t + 1))))
         (edges g)
  ↔ ta = t ∧ tb = t + 1 ∧ allowed_move g allowed a b.
Proof.
  rewrite Exists_exists. unfold allowed_move. split.
  - intros ([[u v] d] & Hin & Hal & Hxy). simpl in *.
    apply elem_of_edges in Hin.
    destruct Hxy as [[[= -> ->] [= -> ->]]|[[= -> ->] [= -> ->]]].
    + split_and!; [done..| |tauto]. rewrite <-g_symmetric, Hin. by eexists.
    + split_and!; [done..| |tauto]. rewrite Hin. by eexists.
  - intros (-> & -> & [d Hd] & Hal).
    destruct (edges_complete g a b d g_symmetric Hd) as [Hin|Hin].
    + exists (a, b, d). simpl. split_and!; [done|tauto|tauto].
    + exists (b, a, d). simpl. split_and!; [done|tauto|tauto].
Qed.

Lemma exists_wait_edge (t : Z) (a b : Z * Z) (ta tb : Z) :
  Exists (λ node : Z * Z, (a, ta) = (node, t) ∧ (b, tb) = (node, t + 1))
         (nodes g)
  ↔ ta = t ∧ tb = t + 1 ∧ a = b ∧ a ∈ dom g.
Proof.
  rewrite Exists_exists. setoid_rewrite elem_of_nodes. split.
  - by intros (node & Hin & [= -> ->] & [= -> ->]).
  - intros (-> & -> & -> & Hin). by exists b.
Qed.

Lemma ten_layer_edge_data ten (t : Z) (a b : Z * Z) (ta tb : Z) :
  edge_data (ten_layer g allowed ten t) (a, ta) (b, tb)
  = if decide (ta = t ∧ tb = t + 1 ∧ is_Some (ten_attr g allowed a b))
    then ten_attr g allowed a b
    else edge_data ten (a, ta) (b, tb).
Proof.
  unfold ten_layer.
  rewrite (foldl_edge_data _
    (λ e x y, ((e.1.1, e.1.2) ∈ allowed ∨ (e.1.2, e.1.1) ∈ allowed) ∧
              ((x = (e.1.2, t) ∧ y = (e.1.1, t + 1)) ∨
               (x = (e.1.1, t) ∧ y = (e.1.2, t + 1))))
    (λ x y, {| capacity := 1; weight := move_cost g x.1 y.1 |})).
  2:{ intros ten0 [[u v] d] Hin. cbn [fst snd].
      destruct (move_cost_edge u v d Hin) as [Huv Hvu].
      destruct (decide ((u, v) ∈ allowed ∨ (v, u) ∈ allowed)) as [Hal|Hnal].
      - rewrite !edge_data_di_add_edge.
        destruct (decide ((a, ta) = (v, t) ∧ (b, tb) = (u, t + 1)))
          as [[[= -> ->] [= -> ->]]|Hn1].
        + rewrite decide_True by tauto. cbn [fst]. by rewrite Hvu.
        + destruct (decide ((a, ta) = (u, t) ∧ (b, tb) = (v, t + 1)))
            as [[[= -> ->] [= -> ->]]|Hn2].
          * rewrite decide_True by tauto. cbn [fst]. by rewrite Huv.
          * rewrite decide_False by tauto. done.
      - rewrite decide_False by tauto. done. }
  rewrite (foldl_edge_data _
    (λ node x y, x = (node, t) ∧ y = (node, t + 1))
    (λ _ _, {| capacity := 1; weight := 1 |})).
  2:{ intros ten0 node Hin.
      by rewrite edge_data_di_add_edge, edge_data_di_add_node. }
  unfold ten_attr.
  destruct (decide (allowed_move g allowed a b)) as [Hmv|Hnmv].
  - destruct (decide (ta = t ∧ tb = t + 1)) as [[-> ->]|Hnt].
    + rewrite decide_True by (by apply exists_move_edge).
      rewrite decide_True; [done|]. split_and!; [done..|by eexists].
    + rewrite decide_False by (rewrite exists_move_edge; tauto).
      rewrite decide_False by (rewrite exists_wait_edge; tauto).
      rewrite decide_False by tauto. done.
  - rewrite decide_False by (rewrite exists_move_edge; tauto).
    destruct (decide (a = b ∧ a ∈ dom g)) as [Hw|Hnw].
    + destruct (decide (ta = t ∧ tb = t + 1)) as [[-> ->]|Hnt].
      * rewrite decide_True by (apply exists_wait_edge; tauto).
        rewrite decide_True; [done|]. split_and!; [done..|by eexists].
      * rewrite decide_False by (rewrite exists_wait_edge; tauto).
        rewrite decide_False by tauto. done.
    + rewrite decide_False by (rewrite exists_wait_edge; tauto).
      rewrite decide_False; [done|]. intros (_ & _ & [? [=]]).
Qed.

Lemma ten_layer_dom ten (t : Z) (c : Z * Z) (tc : Z) :
  (c, tc) ∈ dom (ten_layer g allowed ten t)
  ↔ (c ∈ dom g ∧ (tc = t ∨ tc = t + 1)) ∨ (c, tc) ∈ dom ten.
Proof.
  unfold ten_layer.
  rewrite (foldl_dom _
    (λ e n, ((e.1.1, e.1.2) ∈ allowed ∨ (e.1.2, e.1.1) ∈ allowed) ∧
            (n = (e.1.1, t) ∨ n = (e.1.2, t + 1) ∨
             n = (e.1.2, t) ∨ n = (e.1.1, t + 1)))).
  2:{ intros ten0 [[u v] d] Hin. cbn [fst snd].
      destruct (decide ((u, v) ∈ allowed ∨ (v, u) ∈ allowed)) as [Hal|Hnal].
      - rewrite !dom_di_add_edge. set_solver.
      - tauto. }
  rewrite (foldl_dom _ (λ node n, n = (node, t) ∨ n = (node, t + 1))).
  2:{ intros ten0 node Hin. rewrite dom_di_add_edge, dom_di_add_node.
      set_solver. }
  rewrite !Exists_exists. setoid_rewrite elem_of_nodes. split.
  - intros [([[u v] d] & Hin & _ & Hn)|[(node & Hin & Hn)|Hin]];
      [|left|by right].
    + left. simpl in Hn. apply elem_of_edges in Hin.
      destruct (symmetric_neighbour_node g u v g_symmetric) as [Hu Hv];
        [by eexists|].
      destruct Hn as [[= -> ->]|[[= -> ->]|[[= -> ->]|[= -> ->]]]]; tauto.
    + destruct Hn as [[= -> ->]|[= -> ->]]; tauto.
  - intros [[Hc Ht]|Hin]; [|tauto]. right. left. exists c.
    split; [done|]. destruct Ht as [-> | ->]; tauto.
Qed.

End ten_layer.

Section build_ten.
Import Nx TenBuilder.

Lemma foldl_mjoin {B C} (f : B → C → B) (ls : list (list C)) (acc : B) :
  foldl (λ acc0 l, foldl f acc0 l) acc ls = foldl f acc (mjoin ls).
Proof.
  revert acc. induction ls as [|l ls IH]; intros acc; [done|].
  cbn [foldl mjoin list_join]. by rewrite foldl_app, IH.
Qed.

Lemma scan_paths_spec ppa :
  scan_paths ppa
  = (list_to_set (candidates ppa ≫= path_steps),
     max_with_zero ((λ p, Z.of_nat (length p)) <$> candidates ppa)).
Proof.
  unfold scan_paths, candidates. rewrite foldl_mjoin.
  assert (∀ (ps : list (list (Z * Z))) (al : gset (Z * Z * (Z * Z))) (ml : Z),
    0 ≤ ml →
    foldl (λ '(allowed_edges, max_len) path,
             (allowed_edges ∪ list_to_set (path_steps path),
              Z.max max_len (Z.of_nat (length path))))
          (al, ml) ps
    = (al ∪ list_to_set (ps ≫= path_steps),
       Z.max ml (max_with_zero ((λ p, Z.of_nat (length p)) <$> ps)))) as Hfold.
  { induction ps as [|p ps IH]; intros al ml Hml; cbn [foldl].
    - f_equal; [set_solver|]. unfold max_with_zero. simpl. lia.
    - rewrite IH by lia. rewrite bind_cons, fmap_cons, list_to_set_app_L.
      unfold max_with_zero. cbn [foldr]. f_equal; [set_solver|lia]. }
  rewrite Hfold by done. f_equal; [set_solver|].
  pose proof (max_with_zero_nonneg
    ((λ p, Z.of_nat (length p)) <$> mjoin ppa.*2)). lia.
Qed.

Lemma elem_of_path_steps path (u v : Z * Z) :
  (u, v) ∈ path_steps path ↔ consecutive_in path u v.
Proof.
  unfold path_steps, consecutive_in, slice_to. rewrite decide_False by lia.
  rewrite list_elem_of_lookup. setoid_rewrite lookup_zip_Some.
  setoid_rewrite lookup_drop. split.
  - intros (i & Hu & Hv). exists i. split; [|done].
    apply lookup_take_Some in Hu. tauto.
  - intros (i & Hu & Hv). exists i. split; [|done].
    apply lookup_lt_Some in Hv. apply lookup_take_Some. split; [done|lia].
Qed.

Lemma elem_of_allowed ppa (u v : Z * Z) :
  (u, v) ∈ (scan_paths ppa).1
  ↔ ∃ path, path ∈ candidates ppa ∧ consecutive_in path u v.
Proof.
  rewrite scan_paths_spec. cbn [fst].
  rewrite elem_of_list_to_set, list_elem_of_bind.
  setoid_rewrite elem_of_path_steps. split; intros (p & ? & ?); exists p; tauto.
Qed.

Lemma foldl_add_terminal (ns : list (Z * Z)) (h : Z)
    (ten : gmap (Z * Z * Z) (gmap (Z * Z * Z) EdgeAttr)) :
  (∀ x y, edge_data (foldl (λ ten0 node, di_add_node (node, h) ten0) ten ns) x y
          = edge_data ten x y) ∧
  (∀ n, n ∈ dom (foldl (λ ten0 node, di_add_node (node, h) ten0) ten ns)
        ↔ (n.2 = h ∧ n.1 ∈ ns) ∨ n ∈ dom ten).
Proof.
  revert ten. induction ns as [|c ns IH]; intros ten; cbn [foldl].
  - split; [done|]. intros n. rewrite elem_of_nil. tauto.
  - destruct (IH (di_add_node (c, h) ten)) as [IHe IHd]. split.
    + intros x y. by rewrite IHe, edge_data_di_add_node.
    + intros [c' t']. rewrite IHd, dom_di_add_node, elem_of_cons.
      rewrite elem_of_union, elem_of_singleton. cbn [fst snd].
      split; [|intros [[-> [->|?]]|?]; tauto].
      intros [[-> ?]|[[= -> ->]|?]]; tauto.
Qed.

(** The network that [build_ten] returns, edge by edge and node by node. *)
Lemma build_ten_spec (g : gmap (Z * Z) (gmap (Z * Z) (option Z))) ppa :
  symmetric g →
  let allowed := (scan_paths ppa).1 in
  let h := max_with_zero ((λ p, Z.of_nat (length p)) <$> candidates ppa) in
  (build_ten g ppa).2 = h ∧
  (∀ a ta b tb,
     edge_data (build_ten g ppa).1 (a, ta) (b, tb)
     = if decide (0 ≤ ta < h ∧ tb = ta + 1) then ten_attr g allowed a b
       else None) ∧
  (∀ c tc, (c, tc) ∈ dom (build_ten g ppa).1 ↔ c ∈ dom g ∧ 0 ≤ tc ≤ h).
Proof.
  intros Hsym. cbv zeta. unfold build_ten.
  rewrite scan_paths_spec. cbn [fst snd].
  set (allowed := list_to_set (candidates ppa ≫= path_steps)).
  set (h := max_with_zero ((λ p, Z.of_nat (length p)) <$> candidates ppa)).
  destruct (foldl_add_terminal (nodes g) h
    (foldl (ten_layer g allowed) ∅ (py_range 0 h))) as [He Hd].
  assert (0 ≤ h) as Hh by apply max_with_zero_nonneg.
  split_and!; [done| |].
  - intros a ta b tb. rewrite He.
    rewrite (foldl_edge_data _
      (λ t x y, x.2 = t ∧ y.2 = t + 1 ∧
                is_Some (ten_attr g allowed x.1 y.1))
      (λ x y, default {| capacity := 0; weight := 0 |}
                      (ten_attr g allowed x.1 y.1))).
    2:{ intros ten0 t _. rewrite ten_layer_edge_data by done. cbn [fst snd].
        destruct (decide (ta = t ∧ tb = t + 1 ∧
                          is_Some (ten_attr g allowed a b)))
          as [(_ & _ & [attr Hattr])|_]; [|done].
        by rewrite Hattr. }
    cbn [fst snd]. unfold edge_data at 1. rewrite lookup_empty. cbn.
    destruct (decide (0 ≤ ta < h ∧ tb = ta + 1)) as [[Hta ->]|Hn].
    + destruct (ten_attr g allowed a b) as [attr|] eqn:Hattr.
      * rewrite decide_True; [done|]. apply Exists_exists. exists ta.
        unfold py_range. rewrite elem_of_seqZ. split; [lia|].
        split_and!; [done..|by eexists].
      * rewrite decide_False; [done|].
        intros (t & _ & _ & _ & [? [=]])%Exists_exists.
    + rewrite decide_False; [done|].
      intros (t & Ht & -> & -> & _)%Exists_exists.
      unfold py_range in Ht. apply elem_of_seqZ in Ht. lia.
  - intros c tc. rewrite Hd. cbn [fst snd]. rewrite elem_of_nodes.
    rewrite (foldl_dom _ (λ t n, n.1 ∈ dom g ∧ (n.2 = t ∨ n.2 = t + 1))).
    2:{ intros ten0 t _. by rewrite ten_layer_dom. }
    rewrite dom_empty_L, Exists_exists. unfold py_range.
    setoid_rewrite elem_of_seqZ. cbn [fst snd]. split.
    + intros [[-> Hc]|[(t & Ht & Hc & Htc)|Hin]].
      * split; [done|lia].
      * split; [done|lia].
      * by apply not_elem_of_empty in Hin.
    + intros [Hc Htc]. destruct (decide (tc = h)) as [->|Hne]; [tauto|].
      right. left. exists tc. split; [lia|tauto].
Qed.

End build_ten.


Section build_ten_claim.
Import Nx TenBuilder GraphBuilder.

Lemma consecutive_in_NoDup path (c : Z * Z) :
  NoDup path → ¬ consecutive_in path c c.
Proof.
  intros Hnd (i & Hi & HSi).
  pose proof (NoDup_lookup _ _ _ _ Hnd Hi HSi). lia.
Qed.

(** C5. For an undirected base graph and candidate paths that are simple,
    [build_ten] returns the horizon [h], the length of the longest candidate
    path (0 when there is none), and a network whose nodes are the pairs
    [(c, t)] of a base coordinate [c] and a time [0 <= t <= h], and whose
    edges are exactly: for every [0 <= t < h] the wait edge
    [(c, t) -> (c, t + 1)] of every base coordinate, with capacity 1 and
    weight 1, and both move edges [(u, t) -> (v, t + 1)] and
    [(v, t) -> (u, t + 1)] of every base edge that some candidate path
    follows in one direction or the other, with capacity 1 and the weight
    of the base edge (1 for an edge without weight). No edge leaves a node
    of time [h]. *)
Theorem build_ten_network (g : gmap (Z * Z) (gmap (Z * Z) (option Z)))
    (ppa : list (string * list (list (Z * Z)))) :
  symmetric g →
  (∀ path, path ∈ candidates ppa → NoDup path) →
  let ten := (build_ten g ppa).1 in
  let h := (build_ten g ppa).2 in
  ((∀ path, path ∈ candidates ppa → Z.of_nat (length path) ≤ h) ∧
   (h = 0 ∨ ∃ path, path ∈ candidates ppa ∧ Z.of_nat (length path) = h)) ∧
  (∀ c t, c ∈ dom g → 0 ≤ t < h →
     edge_data ten (c, t) (c, t + 1) = Some {| capacity := 1; weight := 1 |}) ∧
  (∀ u v d t,
     edge_data g u v = Some d →
     (∃ path, path ∈ candidates ppa ∧
              (consecutive_in path u v ∨ consecutive_in path v u)) →
     0 ≤ t < h →
     edge_data ten (u, t) (v, t + 1)
     = Some {| capacity := 1; weight := default 1 d |} ∧
     edge_data ten (v, t) (u, t + 1)
     = Some {| capacity := 1; weight := default 1 d |}) ∧
  (∀ a ta b tb attr,
     edge_data ten (a, ta) (b, tb) = Some attr →
     0 ≤ ta < h ∧ tb = ta + 1 ∧
     ((a = b ∧ a ∈ dom g ∧ attr = {| capacity := 1; weight := 1 |}) ∨
      (a ≠ b ∧ ∃ d, edge_data g a b = Some d ∧
         (∃ path, path ∈ candidates ppa ∧
                  (consecutive_in path a b ∨ consecutive_in path b a)) ∧
         attr = {| capacity := 1; weight := default 1 d |}))) ∧
  (∀ c tc, (c, tc) ∈ dom ten ↔ c ∈ dom g ∧ 0 ≤ tc ≤ h) ∧
  (∀ c y, edge_data ten (c, h) y = None).
Proof.
  intros Hsym Hsimple ten h.
  destruct (build_ten_spec g ppa Hsym) as (Hh & Hedge & Hdom).
  fold ten in Hedge, Hdom. fold h in Hh.
  set (allowed := (scan_paths ppa).1) in *.
  assert (∀ a b, ((a, b) ∈ allowed ∨ (b, a) ∈ allowed)
     ↔ ∃ path, path ∈ candidates ppa ∧
               (consecutive_in path a b ∨ consecutive_in path b a)) as Hal.
  { intros a b. unfold allowed. rewrite !elem_of_allowed. split.
    - intros [(p & ? & ?)|(p & ? & ?)]; exists p; tauto.
    - intros (p & ? & [?|?]); [left|right]; exists p; tauto. }
  assert (∀ c, ¬ allowed_move g allowed c c) as Hnoloop.
  { intros c [_ Hc]. apply Hal in Hc as (p & Hp & Hc).
    apply (consecutive_in_NoDup p c (Hsimple p Hp)). tauto. }
  split_and!.
  - intros path Hin. rewrite Hh. apply max_with_zero_upper.
    apply list_elem_of_fmap. by exists path.
  - rewrite Hh.
    destruct (max_with_zero_attained
      ((λ p, Z.of_nat (length p)) <$> candidates ppa)) as [->|Hin]; [by left|].
    right. apply list_elem_of_fmap in Hin as (path & Heq & Hin).
    by exists path.
  - intros c t Hc Ht. rewrite Hedge, <-Hh, decide_True by (fold h; lia).
    unfold ten_attr. rewrite decide_False by apply Hnoloop.
    by rewrite decide_True.
  - intros u v d t Hd Hpath Ht. split.
    + rewrite Hedge, <-Hh, decide_True by (fold h; lia).
      unfold ten_attr, move_cost. rewrite decide_True.
      * by rewrite Hd.
      * split; [by eexists|]. by apply Hal.
    + rewrite Hedge, <-Hh, decide_True by (fold h; lia).
      unfold ten_attr, move_cost. rewrite decide_True.
      * by rewrite <-(Hsym u v), Hd.
      * split; [rewrite <-(Hsym u v); by eexists|].
        apply Hal. destruct Hpath as (p & ? & ?). exists p. tauto.
  - intros a ta b tb attr Hattr. rewrite Hedge, <-Hh in Hattr. fold h in Hattr.
    destruct (decide (0 ≤ ta < h ∧ tb = ta + 1)) as [[Hta ->]|]; [|done].
    split_and!; [lia..|]. unfold ten_attr in Hattr.
    destruct (decide (allowed_move g allowed a b)) as [[[d Hd] Hmv]|Hnmv].
    + right. split; [intros ->; by apply (Hnoloop b)|]. exists d.
      split_and!; [done|by apply Hal|].
      injection Hattr as <-. unfold move_cost. by rewrite Hd.
    + destruct (decide (a = b ∧ a ∈ dom g)) as [[-> Hb]|]; [|done].
      left. by injection Hattr as <-.
  - intros c tc. by rewrite Hdom, <-Hh.
  - intros c [b tb]. rewrite Hedge, <-Hh. fold h.
    rewrite decide_False; [done|lia].
Qed.

Lemma build_ten_network_witness :
  symmetric (lines_to_graph line_graph_lines) ∧
  (build_ten (lines_to_graph line_graph_lines) one_agent_paths).2 = 3 ∧
  edge_data (build_ten (lines_to_graph line_graph_lines) one_agent_paths).1
            ((40, 0), 2) ((40, 0), 3)
  = Some {| capacity := 1; weight := 1 |}.
Proof.
  split; [apply lines_to_graph_symmetric|]. split; [reflexivity|].
  destruct (build_ten_network (lines_to_graph line_graph_lines) one_agent_paths)
    as (_ & Hwait & _).
  - apply lines_to_graph_symmetric.
  - intros path Hin. vm_compute in Hin.
    apply list_elem_of_singleton in Hin as ->.
    apply (bool_decide_unpack _). vm_compute. exact I.
  - apply (Hwait (40, 0) 2).
    + apply lines_to_graph_nodes. exists ((0, 0), (40, 0)).
      split; [apply list_elem_of_here|by right].
    + vm_compute. split; [discriminate|reflexivity].
Defined.

(** Without the premise on the paths the wait edge can lose its weight: on
    a base graph with a self-loop of weight 0 and a path that stays on the
    coordinate, the move edge of the self-loop is written after the wait
    edge, on the same pair of nodes. *)
Lemma build_ten_self_loop_overwrites_wait :
  edge_data (build_ten (lines_to_graph loop_lines) staying_paths).1
            ((0, 0), 0) ((0, 0), 1)
  = Some {| capacity := 1; weight := 0 |}.
Proof. vm_compute. reflexivity. Qed.

End build_ten_claim.

(** ** k shortest paths *)

Section k_shortest.
Import Nx TenBuilder GraphBuilder.
Implicit Types g : gmap (Z * Z) (gmap (Z * Z) (option Z)).


(** What the slice does with a search that raises on its first pull, as
    the library's search does when start or goal is not a node or no path
    joins them: the exception leaves [k_shortest_paths], unless [k = 0]. *)
Lemma k_shortest_paths_search_raises
    (ssp : gmap (Z * Z) (gmap (Z * Z) (option Z))
           → Z * Z → Z * Z → gen (list (Z * Z))) g (s t : Z * Z) (k : Z) e :
  ssp g s t = GRaise e →
  (0 < k → k_shortest_paths ssp g s t k = Raise e) ∧
  (k = 0 → k_shortest_paths ssp g s t k = Ok []).
Proof.
  intros Hgen. unfold k_shortest_paths, list_islice. rewrite Hgen. split.
  - intros Hk. rewrite decide_False by lia.
    destruct (Z.to_nat k) as [|n] eqn:Hn; [lia|done].
  - by intros ->.
Qed.

Lemma path_steps_cons (u v : Z * Z) (p : list (Z * Z)) :
  path_steps (u :: v :: p) = (u, v) :: path_steps (v :: p).
Proof.
  unfold path_steps, slice_to. rewrite !decide_False by lia.
  cbn [length drop].
  replace (Z.to_nat (Z.of_nat (S (S (length p))) + -1)) with (S (length p)) by lia.
  replace (Z.to_nat (Z.of_nat (S (length p)) + -1)) with (length p) by lia.
  done.
Qed.





End k_shortest.

Section k_shortest_claim.
Import Nx TenBuilder GraphBuilder.

#[local] Instance simple_path_dec g s t p : Decision (simple_path g s t p).
Proof. unfold simple_path, is_walk. apply _. Defined.




End k_shortest_claim.

(** ** Insertion-ordered dictionaries *)

Section dict.
Context {K V : Type} `{EqDecision K}.
Implicit Types d : list (K * V).

Lemma dict_get_set k v d k' :
  dict_get k' (dict_set k v d) = if decide (k = k') then Some v else dict_get k' d.
Proof.
  induction d as [|[k0 v0] d IH]; cbn [dict_set dict_get].
  - done.
  - destruct (decide (k0 = k)) as [->|Hne]; cbn [dict_get].
    + by destruct (decide (k = k')).
    + destruct (decide (k0 = k')) as [->|Hne'].
      * by rewrite decide_False by done.
      * done.
Qed.

Lemma dict_set_keys k v d k' :
  k' ∈ (dict_set k v d).*1 ↔ k' = k ∨ k' ∈ d.*1.
Proof.
  induction d as [|[k0 v0] d IH]; cbn [dict_set].
  - rewrite fmap_cons, elem_of_cons. simpl. rewrite elem_of_nil. tauto.
  - destruct (decide (k0 = k)) as [->|Hne]; rewrite !fmap_cons, !elem_of_cons.
    + simpl. tauto.
    + rewrite IH. simpl. tauto.
Qed.

Lemma dict_set_NoDup k v d : NoDup d.*1 → NoDup (dict_set k v d).*1.
Proof.
  induction d as [|[k0 v0] d IH]; cbn [dict_set]; intros Hnd.
  - rewrite fmap_cons. apply NoDup_singleton.
  - rewrite fmap_cons in Hnd. apply NoDup_cons in Hnd as [Hk0 Hnd].
    destruct (decide (k0 = k)) as [->|Hne]; rewrite fmap_cons.
    + by apply NoDup_cons.
    + apply NoDup_cons. split; [|by apply IH].
      rewrite dict_set_keys. simpl. intros [?|?]; [by apply Hne|done].
Qed.

Lemma dict_get_is_Some k d : is_Some (dict_get k d) ↔ k ∈ d.*1.
Proof.
  induction d as [|[k0 v0] d IH]; cbn [dict_get].
  - rewrite fmap_nil, elem_of_nil. split; [by intros [? ?]|done].
  - rewrite fmap_cons, elem_of_cons. simpl.
    destruct (decide (k0 = k)) as [->|Hne].
    + split; [by left|by eexists].
    + rewrite IH. split; [by right|]. intros [?|?]; [by subst|done].
Qed.

End dict.

(** ** The planner loop *)

Section results.

Lemma bind_Ok {B C} (r : result B) (f : B → result C) c :
  r ≫= f = Ok c → ∃ b, r = Ok b ∧ f b = Ok c.
Proof. destruct r as [b|e]; [|done]. intros Hf. by exists b. Qed.

End results.

Section planner.
Import Nx TenBuilder McfSolver.
Context (ssp : gmap (Z * Z) (gmap (Z * Z) (option Z))
               → Z * Z → Z * Z → gen (list (Z * Z))).
Context (simplex : gmap (Z * Z * Z) (gmap (Z * Z * Z) EdgeAttr)
                   → gmap (Z * Z * Z) Z
                   → result (Z * list (Z * Z * Z * list (Z * Z * Z * Z)))).


Lemma _extract_paths_NoDup flow (agents : list (string * (Z * Z * (Z * Z)))) h :
  NoDup (_extract_paths flow agents h).*1.
Proof.
  unfold _extract_paths.
  assert (∀ (l : list (string * (Z * Z * (Z * Z)))) fl
            (paths : list (string * list (Z * Z))),
    NoDup paths.*1 →
    NoDup (foldl (λ '(flow0, paths0) '(agent, (start, _goal)),
                    let '(flow1, path) :=
                      walk (Z.to_nat h) flow0 (start, 0) [start] in
                    (flow1, dict_set agent path paths0))
                 (fl, paths) l).2.*1) as Hfold.
  { induction l as [|[agent [start goal]] l IH]; intros fl paths Hnd;
      cbn [foldl]; [done|].
    destruct (walk (Z.to_nat h) fl (start, 0) [start]) as [fl1 path].
    apply IH. by apply dict_set_NoDup. }
  apply Hfold. rewrite fmap_nil. apply NoDup_nil_2.
Qed.






End planner.


Section planner_claims.
Import Nx TenBuilder McfSolver GraphBuilder.



(** The run with a conflict: the first iteration detects A and B on (40,0)
    at time 2 and forbids that to B, the second agent. *)
Lemma cbm_solve_conflict_example :
  _detect_conflict [("A"%string, [(0, 0); (0, 0); (40, 0)]);
                    ("B"%string, [(40, 0); (40, 0); (40, 0)])]
  = Ok (Some ("A"%string, "B"%string, (40, 0), 2)) ∧
  constraints_at meeting_search meeting_simplex 1
                 (lines_to_graph meeting_lines) meeting_agents 1
  = Some [("A"%string, ∅); ("B"%string, {[((40, 0), 2)]})].
Proof. split; vm_compute; reflexivity. Qed.

Lemma plan_agents_none
    (agents : list (string * (option (Z * Z) * option (Z * Z)))) :
  Forall (λ entry, entry.2.1 = None ∨ entry.2.2 = None) agents →
  Cli.plan_agents agents = [].
Proof.
  unfold Cli.plan_agents. induction 1 as [|[name [start goal]] l Hx Hl IH];
    [done|].
  cbn [foldl]. simpl in Hx. destruct Hx as [-> | ->]; [done|].
  by destruct start.
Qed.

(** C10. With no agents, [cbm_solve] never returns a path mapping. Its
    first iteration has no candidate paths to compute, builds the network
    of horizon 0, and hands it to the flow solver; if the solver raises,
    that exception leaves [cbm_solve]; if it returns, no path is extracted
    and conflict detection raises [ValueError], for the maximum of no path
    lengths. The [plan] command calls the planner this way when no agent of
    the map has both a start and a goal. *)
Theorem cbm_solve_no_agents_raises
    (ssp : gmap (Z * Z) (gmap (Z * Z) (option Z))
           → Z * Z → Z * Z → gen (list (Z * Z)))
    (simplex : gmap (Z * Z * Z) (gmap (Z * Z * Z) EdgeAttr)
               → gmap (Z * Z * Z) Z
               → result (Z * list (Z * Z * Z * list (Z * Z * Z * Z))))
    (graph : gmap (Z * Z) (gmap (Z * Z) (option Z))) (k : Z) (fuel : nat) :
  _detect_conflict [] = Raise ValueError ∧
  (let ten := (build_ten graph []).1 in
   cbm_solve ssp simplex (S fuel) graph [] k
   = Some (Raise match simplex ten ((λ _, 0) <$> ten) with
                 | Ok _ => ValueError
                 | Raise e => e
                 end)) ∧
  (∀ paths, cbm_solve ssp simplex fuel graph [] k ≠ Some (Ok paths)) ∧
  (∀ agents,
     Forall (λ entry, entry.2.1 = None ∨ entry.2.2 = None) agents →
     ∃ e, cbm_solve ssp simplex (S fuel) graph (Cli.plan_agents agents) k
          = Some (Raise e)).
Proof.
  assert (∀ f, cbm_solve ssp simplex (S f) graph [] k
   = Some (Raise match simplex (build_ten graph []).1
                         ((λ _, 0) <$> (build_ten graph []).1) with
                 | Ok _ => ValueError
                 | Raise e => e
                 end)) as Hraise.
  { intros f. unfold cbm_solve. cbn [cbm_loop]. unfold cbm_iteration.
    cbn [candidate_paths rfold mbind result_bind init_constraints foldl].
    destruct (build_ten graph []) as [ten horizon]. cbn [fst].
    unfold remove_forbidden. cbn [foldl]. unfold solve_mcf, set_demands.
    cbn [rfold mbind result_bind].
    destruct (simplex ten ((λ _, 0) <$> ten)) as [[cost flow]|e]; done. }
  split_and!.
  - done.
  - apply Hraise.
  - intros paths. destruct fuel as [|fuel']; [done|]. by rewrite Hraise.
  - intros agents Hnone. rewrite plan_agents_none by done. by eexists.
Qed.

End planner_claims.

(** ** Loading and saving maps *)

Section map_file.
Import MapIO.

Lemma rmap_ok {B C} (f : B → result C) (g : B → C) (l : list B) :
  Forall (λ x, f x = Ok (g x)) l → rmap f l = Ok (g <$> l).
Proof.
  induction 1 as [|x l Hx Hl IH]; [done|].
  cbn [rmap]. by rewrite Hx, IH.
Qed.

Lemma rmap_enumerate_from (bare : pyval → result pyval) (tup : pyval → pyval)
    (l : list pyval) (s : Z) :
  Forall (λ x, bare x = Ok (tup x)) l →
  rmap (λ '(idx, x), geometry ← bare x; Ok (geometry, default_meta idx))
       (zip (seqZ s (Z.of_nat (length l))) l)
  = Ok (zip (tup <$> l) (default_meta <$> seqZ s (Z.of_nat (length l)))).
Proof.
  intros Hl. revert s. induction Hl as [|x l Hx Hl IH]; intros s; [done|].
  rewrite seqZ_cons by (simpl; lia).
  replace (Z.pred (Z.of_nat (length (x :: l)))) with (Z.of_nat (length l))
    by (simpl; lia).
  cbn [zip zip_with rmap fmap list_fmap]. rewrite Hx. cbn [mbind result_bind].
  by rewrite IH.
Qed.

(** The bare branch of a block of [load_map]. *)
Lemma load_collection_bare per_item (bare : pyval → result pyval)
    (tup : pyval → pyval) (l : list pyval) :
  (match l with x :: _ => is_dict x = false | [] => True end) →
  Forall (λ x, bare x = Ok (tup x)) l →
  load_collection (PList l) per_item bare
  = Ok (tup <$> l, default_meta <$> seqZ 0 (Z.of_nat (length l))).
Proof.
  intros Hhead Hl. unfold load_collection.
  assert ((if py_truthy (PList l)
           then first ← py_first (PList l); Ok (is_dict first)
           else Ok false) = Ok false) as ->.
  { destruct l as [|x l']; [done|]. simpl. by rewrite Hhead. }
  cbn [mbind result_bind py_iter]. unfold enumerate.
  rewrite (rmap_enumerate_from bare tup) by done. cbn [mbind result_bind].
  rewrite fst_zip, snd_zip; [done|..];
    rewrite !length_fmap, length_seqZ; lia.
Qed.

Lemma line_of_bare_ok (pts : list (list pyval)) :
  line_of_bare (PList (PList <$> pts)) = Ok (PTuple (PTuple <$> pts)).
Proof.
  unfold line_of_bare. cbn [py_iter mbind result_bind].
  rewrite (rmap_ok py_tuple (λ p, match p with PList l => PTuple l | _ => p end)).
  - cbn [mbind result_bind]. do 2 f_equal. rewrite <-list_fmap_compose.
    by apply list_fmap_ext.
  - apply Forall_fmap, Forall_true. done.
Qed.

End map_file.

Section map_file_canonical.
Import MapIO.

Lemma dict_set_fresh {V} (k : string) (v : V) (d : list (string * V)) :
  k ∉ d.*1 → dict_set k v d = d ++ [(k, v)].
Proof.
  induction d as [|[k0 v0] d IH]; intros Hk; cbn [dict_set]; [done|].
  rewrite fmap_cons, not_elem_of_cons in Hk. destruct Hk as [Hne Hk].
  simpl in Hne. rewrite decide_False by done. by rewrite IH.
Qed.

(** A dictionary comprehension over a dictionary: one entry per key, in
    the order of the keys. *)
Lemma rfold_comprehension {B} (f : pyval → result pyval) (wrap g : B → pyval)
    (l : list (string * B)) (acc : list (string * pyval)) :
  NoDup (acc.*1 ++ l.*1) →
  Forall (λ na, f (wrap na.2) = Ok (g na.2)) l →
  rfold (λ acc0 '(n, v), a ← f v; Ok (dict_set n a acc0)) acc
        ((λ na, (na.1, wrap na.2)) <$> l)
  = Ok (acc ++ ((λ na, (na.1, g na.2)) <$> l)).
Proof.
  intros Hnd Hl. revert acc Hnd.
  induction Hl as [|[n v] l Hx Hl IH]; intros acc Hnd.
  - by rewrite !fmap_nil, app_nil_r.
  - rewrite !fmap_cons. cbn [rfold fst snd]. simpl in Hx. rewrite Hx.
    cbn [mbind result_bind].
    rewrite fmap_cons in Hnd. cbn [fst] in Hnd.
    assert (n ∉ acc.*1) as Hfresh.
    { apply NoDup_app in Hnd as (_ & Hdisj & _). intros Hin.
      apply (Hdisj _ Hin). apply list_elem_of_here. }
    rewrite dict_set_fresh by done. rewrite IH.
    + by rewrite <-app_assoc.
    + rewrite fmap_app. simpl. by rewrite <-app_assoc.
Qed.

Lemma load_agent_ok a :
  canonical_agent a → load_agent (PDict a) = Ok (PDict (loaded_agent a)).
Proof.
  intros Hcan. unfold load_agent, loaded_agent.
  cbn [rfold agent_slot mbind result_bind].
  destruct (dict_get "start" a) as [cs|] eqn:Hs;
    destruct (dict_get "goal" a) as [cg|] eqn:Hg.
  - destruct (Hcan "start" cs) as [ls ->]; [set_solver|done|].
    destruct (Hcan "goal" cg) as [lg ->]; [set_solver|done|]. done.
  - destruct (Hcan "start" cs) as [ls ->]; [set_solver|done|]. done.
  - destruct (Hcan "goal" cg) as [lg ->]; [set_solver|done|]. done.
  - done.
Qed.

Lemma save_agent_ok a :
  canonical_agent a →
  save_agent (PDict (loaded_agent a)) = Ok (PDict (written_agent a)).
Proof.
  intros Hcan. unfold save_agent, loaded_agent, written_agent.
  destruct (dict_get "start" a) as [cs|] eqn:Hs;
    destruct (dict_get "goal" a) as [cg|] eqn:Hg.
  - destruct (Hcan "start" cs) as [ls ->]; [set_solver|done|].
    destruct (Hcan "goal" cg) as [lg ->]; [set_solver|done|]. done.
  - destruct (Hcan "start" cs) as [ls ->]; [set_solver|done|]. done.
  - destruct (Hcan "goal" cg) as [lg ->]; [set_solver|done|]. done.
  - done.
Qed.

(** The record branch of a block of [load_map]. *)
Lemma load_collection_records (per_item : list (string * pyval) → result pyval)
    bare (geom : list (string * pyval) → pyval)
    (recs : list (list (string * pyval))) :
  Forall (λ rec, per_item rec = Ok (geom rec)) recs →
  load_collection (PList (PDict <$> recs)) per_item bare
  = Ok (geom <$> recs, meta_of <$> recs).
Proof.
  intros Hrecs. unfold load_collection. destruct recs as [|rec recs]; [done|].
  assert ((if py_truthy (PList (PDict <$> rec :: recs))
           then first ← py_first (PList (PDict <$> rec :: recs));
                Ok (is_dict first)
           else Ok false) = Ok true) as -> by done.
  revert Hrecs. generalize (rec :: recs). intros l Hl.
  cbn [mbind result_bind py_iter].
  rewrite (rmap_ok _ (λ entry, match entry with
                               | PDict e => (geom e, meta_of e)
                               | _ => (PNone, PNone)
                               end)).
  - cbn [mbind result_bind]. by rewrite <-!list_fmap_compose.
  - apply Forall_fmap. eapply Forall_impl; [exact Hl|].
    intros e He. simpl. by rewrite He.
Qed.

Lemma line_of_entry_ok rec :
  canonical_item "points" is_segment rec →
  line_of_entry rec = Ok (loaded_line rec).
Proof.
  intros [(g & Hg & p1 & p2 & ->) _]. unfold line_of_entry, loaded_line, get.
  by rewrite Hg.
Qed.

Lemma sequence_of_entry_ok key dflt rec :
  canonical_item key is_sequence rec →
  py_tuple (get rec key dflt) = Ok (loaded_sequence key rec).
Proof.
  intros [(g & Hg & cs & ->) _]. unfold loaded_sequence, get. by rewrite Hg.
Qed.

End map_file_canonical.

Section map_file_save.
Import MapIO.

Lemma rmap_zip_fmap {B} (F : pyval * pyval → result pyval)
    (g1 g2 h : B → pyval) (l : list B) :
  Forall (λ x, F (g1 x, g2 x) = Ok (h x)) l →
  rmap F (zip (g1 <$> l) (g2 <$> l)) = Ok (h <$> l).
Proof.
  induction 1 as [|x l Hx Hl IH]; [done|].
  rewrite !fmap_cons. cbn [zip zip_with rmap]. by rewrite Hx, IH.
Qed.

Lemma meta_of_canonical key shape rec :
  canonical_item key shape rec →
  meta_of rec = PDict [("id", get rec "id" PNone);
                       ("layer", get rec "layer" PNone);
                       ("attributes", get rec "attributes" PNone);
                       ("style", get rec "style" PNone)].
Proof.
  intros (_ & [i Hi] & [l Hl] & [a Ha] & [s Hs]). unfold meta_of, get.
  by rewrite Hi, Hl, Ha, Hs.
Qed.

Lemma combine_lines recs :
  Forall (canonical_item "points" is_segment) recs →
  _combine_collection (PList (loaded_line <$> recs)) (PList (meta_of <$> recs))
                      "points"
  = Ok ((λ rec, PDict (written_record "points" rec)) <$> recs).
Proof.
  intros Hrecs. unfold _combine_collection. cbn [py_iter mbind result_bind].
  apply rmap_zip_fmap. eapply Forall_impl; [exact Hrecs|].
  intros rec Hrec. rewrite (meta_of_canonical _ _ _ Hrec).
  destruct Hrec as [(g & Hg & p1 & p2 & ->) _].
  unfold loaded_line, written_record, get. rewrite Hg. done.
Qed.

Lemma combine_sequences key recs :
  key = "point" ∨ key = "rect" →
  Forall (canonical_item key is_sequence) recs →
  _combine_collection (PList (loaded_sequence key <$> recs))
                      (PList (meta_of <$> recs)) key
  = Ok ((λ rec, PDict (written_record key rec)) <$> recs).
Proof.
  intros Hkey Hrecs. unfold _combine_collection. cbn [py_iter mbind result_bind].
  apply rmap_zip_fmap. eapply Forall_impl; [exact Hrecs|].
  intros rec Hrec. rewrite (meta_of_canonical _ _ _ Hrec).
  destruct Hrec as [(g & Hg & cs & ->) _].
  unfold loaded_sequence, written_record, get. rewrite Hg.
  by destruct Hkey as [-> | ->].
Qed.

Lemma written_record_fields key shape rec k :
  canonical_item key shape rec →
  key = "points" ∨ key = "point" ∨ key = "rect" →
  k ∈ [key; "id"; "layer"; "attributes"; "style"] →
  dict_get k (written_record key rec) = dict_get k rec.
Proof.
  intros ((g & Hg & _) & [i Hi] & [l Hl] & [a Ha] & [s Hs]) Hkey Hk.
  unfold written_record, get. rewrite Hg, Hi, Hl, Ha, Hs. simpl.
  repeat (apply elem_of_cons in Hk as [->|Hk]);
    [|destruct Hkey as [->|[->| ->]]; done..|by apply elem_of_nil in Hk].
  by rewrite decide_True.
Qed.

Lemma written_agent_fields a k :
  k ∈ ["start"; "goal"] → dict_get k (written_agent a) = dict_get k a.
Proof.
  intros Hk. unfold written_agent.
  repeat (apply elem_of_cons in Hk as [->|Hk]); [..|by apply elem_of_nil in Hk];
    by destruct (dict_get "start" a), (dict_get "goal" a).
Qed.

End map_file_save.

Section map_file_claims.
Import MapIO.

Lemma load_agents_ok (agents : list (string * list (string * pyval))) :
  NoDup agents.*1 → Forall (λ na, canonical_agent na.2) agents →
  rfold (λ acc '(name, v), a ← load_agent v; Ok (dict_set name a acc))
        [] ((λ na, (na.1, PDict na.2)) <$> agents)
  = Ok ((λ na, (na.1, PDict (loaded_agent na.2))) <$> agents).
Proof.
  intros Hnd Hcan.
  rewrite (rfold_comprehension load_agent PDict (λ a, PDict (loaded_agent a)));
    [done|done|].
  eapply Forall_impl; [exact Hcan|]. intros [n a] Ha. by apply load_agent_ok.
Qed.

Lemma save_agents_ok (agents : list (string * list (string * pyval))) :
  NoDup agents.*1 → Forall (λ na, canonical_agent na.2) agents →
  rfold (λ acc '(k, v), a ← save_agent v; Ok (dict_set k a acc))
        [] ((λ na, (na.1, PDict (loaded_agent na.2))) <$> agents)
  = Ok ((λ na, (na.1, PDict (written_agent na.2))) <$> agents).
Proof.
  intros Hnd Hcan.
  rewrite (rfold_comprehension save_agent (λ a, PDict (loaded_agent a))
             (λ a, PDict (written_agent a))); [done|done|].
  eapply Forall_impl; [exact Hcan|]. intros [n a] Ha. by apply save_agent_ok.
Qed.

(** C7. Take a map file in canonical form: its layers, then line, node
    and obstacle records that each carry their geometry ([points]: two
    coordinate lists; [point], [rect]: one list) and an id, a layer,
    attributes and a style, then agents whose start and goal are coordinate
    lists. Loading it and saving the result writes the same layers; for
    every item, in the order of the file, a record made of the geometry
    under its key followed by id, layer, attributes and style, each with the
    value it has in the file; and for every agent, in the order of the
    file, its start and goal with the values they have in the file. *)
Theorem save_map_load_map_round_trip (suffix : string)
    (data : list (string * pyval)) (layers : pyval)
    (lines nodes obstacles : list (list (string * pyval)))
    (agents : list (string * list (string * pyval))) :
  suffix ∈ [".yml"; ".yaml"; ".json"] →
  dict_get "layers" data = Some layers →
  dict_get "lines" data = Some (PList (PDict <$> lines)) →
  dict_get "nodes" data = Some (PList (PDict <$> nodes)) →
  dict_get "obstacles" data = Some (PList (PDict <$> obstacles)) →
  dict_get "agents" data = Some (PDict ((λ na, (na.1, PDict na.2)) <$> agents)) →
  Forall (canonical_item "points" is_segment) lines →
  Forall (canonical_item "point" is_sequence) nodes →
  Forall (canonical_item "rect" is_sequence) obstacles →
  NoDup agents.*1 →
  Forall (λ na, canonical_agent na.2) agents →
  ∃ m,
    load_map suffix (PDict data) = Ok m ∧
    save_map m
    = Ok (PDict
            [("layers", layers);
             ("lines", PList ((λ rec, PDict (written_record "points" rec)) <$> lines));
             ("nodes", PList ((λ rec, PDict (written_record "point" rec)) <$> nodes));
             ("obstacles",
              PList ((λ rec, PDict (written_record "rect" rec)) <$> obstacles));
             ("agents",
              PDict ((λ na, (na.1, PDict (written_agent na.2))) <$> agents))]) ∧
    (∀ rec k, rec ∈ lines →
       k ∈ ["points"; "id"; "layer"; "attributes"; "style"] →
       dict_get k (written_record "points" rec) = dict_get k rec) ∧
    (∀ rec k, rec ∈ nodes →
       k ∈ ["point"; "id"; "layer"; "attributes"; "style"] →
       dict_get k (written_record "point" rec) = dict_get k rec) ∧
    (∀ rec k, rec ∈ obstacles →
       k ∈ ["rect"; "id"; "layer"; "attributes"; "style"] →
       dict_get k (written_record "rect" rec) = dict_get k rec) ∧
    (∀ na k, na ∈ agents → k ∈ ["start"; "goal"] →
       dict_get k (written_agent na.2) = dict_get k na.2).
Proof.
  intros Hsuffix Hlayers Hlines Hnodes Hobs Hagents Hcl Hcn Hco Hnd Hca.
  eexists. split_and!.
  - unfold load_map. rewrite bool_decide_eq_true_2 by done.
    cbn [dict_of mbind result_bind]. unfold get at 2 3 4 5.
    rewrite Hlines, Hnodes, Hobs, Hagents. cbn [default from_option id].
    rewrite (load_collection_records line_of_entry line_of_bare loaded_line).
    2:{ eapply Forall_impl; [exact Hcl|]. apply line_of_entry_ok. }
    cbn [mbind result_bind].
    rewrite (load_collection_records node_of_entry py_tuple
               (loaded_sequence "point")).
    2:{ eapply Forall_impl; [exact Hcn|]. intros rec Hrec.
        by apply sequence_of_entry_ok. }
    cbn [mbind result_bind].
    rewrite (load_collection_records obstacle_of_entry py_tuple
               (loaded_sequence "rect")).
    2:{ eapply Forall_impl; [exact Hco|]. intros rec Hrec.
        by apply sequence_of_entry_ok. }
    cbn [mbind result_bind dict_of].
    rewrite load_agents_ok by done. cbn [mbind result_bind]. reflexivity.
  - unfold save_map. cbn [dict_of mbind result_bind].
    unfold get. cbn [dict_get]. simpl default.
    rewrite combine_lines by done. cbn [mbind result_bind].
    rewrite (combine_sequences "point") by (done || by left).
    cbn [mbind result_bind].
    rewrite (combine_sequences "rect") by (done || by right).
    cbn [mbind result_bind dict_of].
    rewrite save_agents_ok by done. cbn [mbind result_bind].
    unfold get in Hlayers. by rewrite Hlayers.
  - intros rec k Hrec Hk.
    eapply written_record_fields; [|by left|done].
    by eapply Forall_forall in Hcl.
  - intros rec k Hrec Hk.
    eapply written_record_fields; [|right; by left|done].
    by eapply Forall_forall in Hcn.
  - intros rec k Hrec Hk.
    eapply written_record_fields; [|right; by right|done].
    by eapply Forall_forall in Hco.
  - intros na k _ Hk. by apply written_agent_fields.
Qed.

Lemma save_map_load_map_round_trip_witness :
  ∃ m,
    load_map ".json" (PDict sample_file) = Ok m ∧
    save_map m
    = Ok (PDict
            [("layers", PList [PDict [("name", PStr "Default");
                                      ("color", PStr "#000000");
                                      ("visible", PBool true)]]);
             ("lines", PList [PDict [("points", PList [PList [PInt 0; PInt 0];
                                                       PList [PInt 40; PInt 0]]);
                                     ("id", PInt 1);
                                     ("layer", PStr "Default");
                                     ("attributes", PDict [("name", PStr "aisle")]);
                                     ("style", PDict [("fill", PStr "#000000")])]]);
             ("nodes", PList [PDict [("point", PList [PInt 40; PInt 0]);
                                     ("id", PInt 2); ("layer", PStr "Default");
                                     ("attributes", PDict []);
                                     ("style", PDict [])]]);
             ("obstacles",
              PList [PDict [("rect", PList [PInt 0; PInt 0; PInt 80; PInt 80]);
                            ("id", PInt 3); ("layer", PStr "Default");
                            ("attributes", PDict []); ("style", PDict [])]]);
             ("agents", PDict [("A", PDict [("start", PList [PInt 0; PInt 0]);
                                            ("goal", PList [PInt 40; PInt 0])])])]).
Proof.
  destruct (save_map_load_map_round_trip ".json" sample_file
    (PList [PDict [("name", PStr "Default"); ("color", PStr "#000000");
                   ("visible", PBool true)]])
    [[("id", PInt 1);
      ("points", PList [PList [PInt 0; PInt 0]; PList [PInt 40; PInt 0]]);
      ("layer", PStr "Default");
      ("attributes", PDict [("name", PStr "aisle")]);
      ("style", PDict [("fill", PStr "#000000")]);
      ("note", PStr "kept out")]]
    [[("point", PList [PInt 40; PInt 0]); ("id", PInt 2);
      ("layer", PStr "Default"); ("attributes", PDict []); ("style", PDict [])]]
    [[("rect", PList [PInt 0; PInt 0; PInt 80; PInt 80]); ("id", PInt 3);
      ("layer", PStr "Default"); ("attributes", PDict []); ("style", PDict [])]]
    [("A", [("start", PList [PInt 0; PInt 0]); ("goal", PList [PInt 40; PInt 0])])])
    as (m & Hload & Hsave & _).
  - apply list_elem_of_further, list_elem_of_further, list_elem_of_here.
  - reflexivity.
  - reflexivity.
  - reflexivity.
  - reflexivity.
  - reflexivity.
  - apply Forall_singleton. unfold canonical_item, is_segment. simpl.
    split_and!; eauto.
  - apply Forall_singleton. unfold canonical_item, is_sequence. simpl.
    split_and!; eauto.
  - apply Forall_singleton. unfold canonical_item, is_sequence. simpl.
    split_and!; eauto.
  - apply NoDup_singleton.
  - apply Forall_singleton. intros k c Hk. simpl.
    repeat (apply elem_of_cons in Hk as [->|Hk]);
      [..|by apply elem_of_nil in Hk]; simpl; intros [= <-];
      unfold is_sequence; eauto.
  - exists m. split; [exact Hload|exact Hsave].
Defined.

Lemma default_meta_lookup (n i : nat) :
  (i < n)%nat →
  (default_meta <$> seqZ 0 (Z.of_nat n)) !! i
  = Some (PDict [("id", PInt (Z.of_nat i + 1)); ("layer", PStr "Default");
                 ("attributes", PDict []); ("style", PDict [])]).
Proof.
  intros Hi. rewrite list_lookup_fmap, lookup_seqZ_lt by lia. done.
Qed.

(** C8. In a map file whose lines, nodes and obstacles are bare lists of
    geometry values (or absent), [load_map] keeps the geometry in the order
    of the file, as tuples, and makes a meta list of the same length for
    each kind on its own: the item of index [i] gets id [i + 1], layer
    ["Default"], empty attributes and empty style. The file with the one
    bare line [[[0,0],[40,0]]] loads to one line with meta
    [{id: 1, layer: "Default", attributes: {}, style: {}}]. *)
Theorem load_map_legacy_metadata (suffix : string)
    (data : list (string * pyval))
    (lines : list (list (list pyval))) (nodes obstacles : list (list pyval))
    (agents : list (string * list (string * pyval))) :
  suffix ∈ [".yml"; ".yaml"; ".json"] →
  get data "lines" (PList []) = PList ((λ pts, PList (PList <$> pts)) <$> lines) →
  get data "nodes" (PList []) = PList (PList <$> nodes) →
  get data "obstacles" (PList []) = PList (PList <$> obstacles) →
  get data "agents" (PDict []) = PDict ((λ na, (na.1, PDict na.2)) <$> agents) →
  NoDup agents.*1 →
  Forall (λ na, canonical_agent na.2) agents →
  ∃ m,
    load_map suffix (PDict data) = Ok (PDict m) ∧
    dict_get "lines" m
    = Some (PList ((λ pts, PTuple (PTuple <$> pts)) <$> lines)) ∧
    dict_get "line_meta" m
    = Some (PList (default_meta <$> seqZ 0 (Z.of_nat (length lines)))) ∧
    dict_get "nodes" m = Some (PList (PTuple <$> nodes)) ∧
    dict_get "node_meta" m
    = Some (PList (default_meta <$> seqZ 0 (Z.of_nat (length nodes)))) ∧
    dict_get "obstacles" m = Some (PList (PTuple <$> obstacles)) ∧
    dict_get "obstacle_meta" m
    = Some (PList (default_meta <$> seqZ 0 (Z.of_nat (length obstacles)))) ∧
    (∀ n i : nat, (i < n)%nat →
       (default_meta <$> seqZ 0 (Z.of_nat n)) !! i
       = Some (PDict [("id", PInt (Z.of_nat i + 1)); ("layer", PStr "Default");
                      ("attributes", PDict []); ("style", PDict [])])) ∧
    (∃ layers agents',
       load_map ".json" (PDict legacy_file)
       = Ok (PDict
               [("layers", layers);
                ("lines", PList [PTuple [PTuple [PInt 0; PInt 0];
                                         PTuple [PInt 40; PInt 0]]]);
                ("line_meta",
                 PList [PDict [("id", PInt 1); ("layer", PStr "Default");
                               ("attributes", PDict []); ("style", PDict [])]]);
                ("nodes", PList []); ("node_meta", PList []);
                ("obstacles", PList []); ("obstacle_meta", PList []);
                ("agents", agents')])).
Proof.
  intros Hsuffix Hlines Hnodes Hobs Hagents Hnd Hca.
  eexists. split.
  - unfold load_map. rewrite bool_decide_eq_true_2 by done.
    cbn [dict_of mbind result_bind].
    rewrite Hlines, Hnodes, Hobs, Hagents.
    rewrite (load_collection_bare line_of_entry line_of_bare
               (λ x, match x with
                     | PList pts => PTuple (as_tuple <$> pts)
                     | _ => x
                     end)).
    2:{ by destruct lines. }
    2:{ apply Forall_fmap, Forall_true. intros pts. simpl.
        rewrite line_of_bare_ok. do 2 f_equal. by rewrite <-list_fmap_compose. }
    cbn [mbind result_bind].
    rewrite (load_collection_bare node_of_entry py_tuple as_tuple).
    2:{ by destruct nodes. }
    2:{ apply Forall_fmap, Forall_true. done. }
    cbn [mbind result_bind].
    rewrite (load_collection_bare obstacle_of_entry py_tuple as_tuple).
    2:{ by destruct obstacles. }
    2:{ apply Forall_fmap, Forall_true. done. }
    cbn [mbind result_bind dict_of].
    rewrite load_agents_ok by done. cbn [mbind result_bind]. reflexivity.
  - rewrite !length_fmap, <-!list_fmap_compose. split_and!; try done.
    + cbn [dict_get]. simpl. do 2 f_equal. apply list_fmap_ext.
      intros i pts _. simpl. by rewrite <-list_fmap_compose.
    + intros n i. apply default_meta_lookup.
    + by eexists _, _.
Qed.

Lemma load_map_legacy_metadata_witness :
  ∃ m,
    load_map ".json" (PDict legacy_file) = Ok (PDict m) ∧
    dict_get "lines" m
    = Some (PList [PTuple [PTuple [PInt 0; PInt 0]; PTuple [PInt 40; PInt 0]]]) ∧
    dict_get "line_meta" m
    = Some (PList [PDict [("id", PInt 1); ("layer", PStr "Default");
                          ("attributes", PDict []); ("style", PDict [])]]).
Proof.
  destruct (load_map_legacy_metadata ".json" legacy_file
              [[[PInt 0; PInt 0]; [PInt 40; PInt 0]]] [] [] [])
    as (m & Hload & Hl & Hm & _).
  - apply list_elem_of_further, list_elem_of_further, list_elem_of_here.
  - reflexivity.
  - reflexivity.
  - reflexivity.
  - reflexivity.
  - apply NoDup_nil_2.
  - apply Forall_nil_2.
  - exists m. split_and!; [exact Hload|exact Hl|exact Hm].
Defined.

End map_file_claims.

(** * Further properties of the code *)

(** ** Reservation table: slices, overwriting, size *)

Section reservation_more.
Import ReservationTable.

(** X1. [lock_ahead] with any integer [steps], as the slice [path[:steps]]
    reads it: a negative [steps] counts from the end of the path, so the
    first [len(path) + steps] coordinates are reserved, each at its index;
    every other key is left as it was. *)
Theorem lock_ahead_signed_steps (agent : string) (path : list Coordinate)
    (steps : Z) (tbl : t) (c : Coordinate) (i : Z) :
  lock_ahead agent path steps tbl !! (c, i)
  = if decide (0 ≤ i
               < (if decide (0 ≤ steps) then steps
                  else Z.of_nat (length path) + steps)
               ∧ path !! Z.to_nat i = Some c)
    then Some agent else tbl !! (c, i).
Proof.
  destruct (decide (0 ≤ steps)) as [Hs|Hs].
  - replace steps with (Z.of_nat (Z.to_nat steps)) at 1 by lia.
    rewrite lock_ahead_lookup.
    replace (Z.of_nat (Z.to_nat steps)) with steps by lia. done.
  - unfold lock_ahead, enumerate, slice_to.
    rewrite (decide_False (P := 0 ≤ steps)) by done.
    rewrite enumerate_from_lookup, Z.sub_0_r.
    set (n := Z.to_nat (Z.of_nat (length path) + steps)).
    destruct (decide (0 ≤ i)) as [Hi|Hi]; [|by rewrite !decide_False by lia].
    destruct (decide (Z.to_nat i < n)%nat) as [Hlt|Hge].
    + rewrite lookup_take_lt by done.
      case_decide as H1; case_decide as H2; try done.
      * exfalso. apply H2. destruct H1. split; [lia|done].
      * exfalso. apply H1. destruct H2. split; [lia|done].
    + rewrite lookup_take_ge by lia.
      rewrite !decide_False; [done|lia|]. by intros [_ ?].
Qed.

(** The keys of a table filled from index [s] on: one per coordinate. *)
Lemma enumerate_from_size (agent : string) (l : list Coordinate) (s : Z)
    (tbl : t) :
  (∀ c i, is_Some (tbl !! (c, i)) → i < s) →
  size (foldl (λ acc '(j, node), <[(node, j) := agent]> acc) tbl
              (zip (seqZ s (Z.of_nat (length l))) l))
  = (size tbl + length l)%nat.
Proof.
  revert s tbl. induction l as [|x l IH]; intros s tbl Hold.
  - simpl. lia.
  - rewrite seqZ_cons; [|simpl; lia]. cbn [zip zip_with foldl length].
    replace (Z.pred (Z.of_nat (S (length l)))) with (Z.of_nat (length l)) by lia.
    rewrite IH.
    + rewrite map_size_insert_None; [lia|].
      apply eq_None_not_Some. intros Hin. apply Hold in Hin. lia.
    + intros c i. rewrite lookup_insert_is_Some.
      intros [[= <- <-]|[_ Hin]]; [lia|]. apply Hold in Hin. lia.
Qed.

(** X2. On an empty table, [reserve] makes one reservation per time step
    of the path, also when the path visits a coordinate more than once:
    the table then holds [len(path)] keys. *)
Theorem reserve_one_key_per_step (agent : string) (path : list Coordinate) :
  size (reserve agent path init) = length path.
Proof.
  unfold reserve, enumerate, init. rewrite enumerate_from_size.
  - by rewrite map_size_empty.
  - intros c i. rewrite lookup_empty. by intros [? ?].
Qed.

(** X3. Reservations are never checked against the table and never
    released: a second agent that reserves the same path takes over every
    key of the first (the last writer wins), and a key that was reserved
    stays reserved after any [reserve] or [lock_ahead]. *)
Theorem reserve_overwrites_and_keeps (a b : string) (path : list Coordinate)
    (steps : Z) (tbl : t) :
  reserve b path (reserve a path tbl) = reserve b path tbl ∧
  (∀ c i, is_reserved tbl c i = true →
     is_reserved (reserve b path tbl) c i = true ∧
     is_reserved (lock_ahead b path steps tbl) c i = true).
Proof.
  split.
  - apply map_eq. intros [c i]. rewrite !reserve_lookup.
    by case_decide.
  - intros c i. unfold is_reserved. rewrite !bool_decide_eq_true.
    intros Hin. split.
    + rewrite reserve_lookup. by case_decide.
    + unfold lock_ahead, enumerate. rewrite enumerate_from_lookup.
      by case_decide.
Qed.

End reservation_more.

(** ** Occupancy grid: resolutions of either sign, order of the geometry *)

Section occupancy_more.
Import MapIO.

(** X4. A resolution of 0 makes [export_occupancy_grid] raise
    [ZeroDivisionError] on every map, the empty one included: the width is
    computed before any obstacle is looked at. *)
Theorem export_occupancy_grid_zero_resolution (m : MapGeometry) :
  export_occupancy_grid m 0 = Raise ZeroDivisionError.
Proof.
  unfold export_occupancy_grid. destruct (max_xy m) as [mx my]. reflexivity.
Qed.





Lemma grid_ext (nr nc : nat) (g1 g2 : list (list Z)) :
  wf_grid nr nc g1 → wf_grid nr nc g2 →
  (∀ x y, 0 ≤ x < Z.of_nat nc → 0 ≤ y < Z.of_nat nr →
     cell g1 x y = cell g2 x y) →
  g1 = g2.
Proof.
  intros [Hl1 Hr1] [Hl2 Hr2] Hcell. apply list_eq. intros i.
  destruct (decide (i < nr)%nat) as [Hi|Hi].
  - destruct (lookup_lt_is_Some_2 g1 i) as [r1 Hg1]; [lia|].
    destruct (lookup_lt_is_Some_2 g2 i) as [r2 Hg2]; [lia|].
    rewrite Hg1, Hg2. f_equal. apply list_eq. intros j.
    assert (length r1 = nc) as Hn1 by (by eapply Forall_lookup_1 in Hr1).
    assert (length r2 = nc) as Hn2 by (by eapply Forall_lookup_1 in Hr2).
    destruct (decide (j < nc)%nat) as [Hj|Hj].
    + specialize (Hcell (Z.of_nat j) (Z.of_nat i)). unfold cell in Hcell.
      rewrite !decide_True, !Nat2Z.id, Hg1, Hg2 in Hcell by lia.
      apply Hcell; lia.
    + by rewrite !lookup_ge_None_2 by lia.
  - by rewrite !lookup_ge_None_2 by lia.
Qed.

Lemma max_with_zero_same_elements (l l' : list Z) :
  (∀ x, x ∈ l ↔ x ∈ l') → max_with_zero l = max_with_zero l'.
Proof.
  intros Hsame.
  assert (∀ k k' : list Z, (∀ x, x ∈ k → x ∈ k') →
            max_with_zero k ≤ max_with_zero k') as Hle.
  { intros k k' Hsub. destruct (max_with_zero_attained k) as [->|Hin].
    - apply max_with_zero_nonneg.
    - by apply max_with_zero_upper, Hsub. }
  apply Z.le_antisymm; apply Hle; intros x; apply Hsame.
Qed.

(** X6. For a positive resolution the grid depends only on which lines,
    nodes and obstacles the map lists, not on the order in which they are
    listed nor on how often: two maps with the same lines, the same nodes
    and the same obstacles give the same grid. *)
Theorem export_occupancy_grid_order_independent (m m' : MapGeometry) (res : Z) :
  0 < res →
  (∀ l, l ∈ lines m ↔ l ∈ lines m') →
  (∀ n, n ∈ nodes m ↔ n ∈ nodes m') →
  (∀ r, r ∈ obstacles m ↔ r ∈ obstacles m') →
  export_occupancy_grid m res = export_occupancy_grid m' res.
Proof.
  intros Hres Hl Hn Ho.
  assert (max_with_zero (all_xs m) = max_with_zero (all_xs m')) as Hxs.
  { apply max_with_zero_same_elements. intros x. unfold all_xs.
    rewrite !elem_of_app, !list_elem_of_bind.
    split.
    + intros [(l & ? & ?)|[(n & ? & ?)|(r & ? & ?)]].
      * left. exists l. split; [done|]. by apply Hl.
      * right. left. exists n. split; [done|]. by apply Hn.
      * right. right. exists r. split; [done|]. by apply Ho.
    + intros [(l & ? & ?)|[(n & ? & ?)|(r & ? & ?)]].
      * left. exists l. split; [done|]. by apply Hl.
      * right. left. exists n. split; [done|]. by apply Hn.
      * right. right. exists r. split; [done|]. by apply Ho. }
  assert (max_with_zero (all_ys m) = max_with_zero (all_ys m')) as Hys.
  { apply max_with_zero_same_elements. intros x. unfold all_ys.
    rewrite !elem_of_app, !list_elem_of_bind.
    split.
    + intros [(l & ? & ?)|[(n & ? & ?)|(r & ? & ?)]].
      * left. exists l. split; [done|]. by apply Hl.
      * right. left. exists n. split; [done|]. by apply Hn.
      * right. right. exists r. split; [done|]. by apply Ho.
    + intros [(l & ? & ?)|[(n & ? & ?)|(r & ? & ?)]].
      * left. exists l. split; [done|]. by apply Hl.
      * right. left. exists n. split; [done|]. by apply Hn.
      * right. right. exists r. split; [done|]. by apply Ho. }
  destruct (export_occupancy_grid_ok m res Hres)
    as (g & -> & Hlen & Hrows & Hcell).
  destruct (export_occupancy_grid_ok m' res Hres)
    as (g' & -> & Hlen' & Hrows' & Hcell').
  rewrite <- Hxs in Hrows', Hcell'. rewrite <- Hys in Hlen', Hcell'.
  pose proof (max_with_zero_nonneg (all_xs m)) as Hx0.
  pose proof (max_with_zero_nonneg (all_ys m)) as Hy0.
  pose proof (Z.div_pos _ res Hx0 Hres) as Hdx.
  pose proof (Z.div_pos _ res Hy0 Hres) as Hdy.
  f_equal. eapply grid_ext; [by split|by split|].
  intros x y Hx Hy. rewrite Hcell, Hcell' by lia. do 2 f_equal.
  apply decide_ext. rewrite !Exists_exists.
  split; intros (r & Hr & Hc); exists r; (split; [by apply Ho|done]).
Qed.

Lemma export_occupancy_grid_order_independent_witness :
  0 < 40 ∧
  export_occupancy_grid
    {| lines := [((0, 0), (40, 0)); ((0, 0), (40, 0))]; nodes := [];
       obstacles := [(0, 0, 40, 40); (80, 0, 80, 0)] |} 40
  = export_occupancy_grid
      {| lines := [((0, 0), (40, 0))]; nodes := [];
         obstacles := [(80, 0, 80, 0); (0, 0, 40, 40)] |} 40.
Proof.
  split; [lia|].
  apply export_occupancy_grid_order_independent; [lia|..]; simpl.
  - intros l. rewrite !elem_of_cons, !elem_of_nil. tauto.
  - done.
  - intros r. rewrite !elem_of_cons, !elem_of_nil. tauto.
Defined.

End occupancy_more.

(** ** Connectivity graph: a segment is a lightest path *)

Section graph_more.
Import Nx GraphBuilder TenBuilder.





End graph_more.

(** ** Candidate paths: the search is read lazily, the network carries
    every candidate path *)

Section ten_more.
Import Nx GraphBuilder TenBuilder.



Lemma timed_walk_lookup (path : list (Z * Z)) (goal : Z * Z) (h : Z) (i : nat) :
  last path = Some goal →
  timed_walk path h !! i
  = if decide (Z.of_nat i ≤ h)
    then Some (default goal (path !! i), Z.of_nat i) else None.
Proof.
  intros Hlast. unfold timed_walk, py_range. rewrite Hlast, list_lookup_fmap.
  case_decide.
  - rewrite lookup_seqZ_lt by lia. simpl. by rewrite Z.add_0_l, Nat2Z.id.
  - by rewrite lookup_seqZ_ge by lia.
Qed.

(** X9. The network carries every candidate path: if a candidate path
    follows edges of the base graph, then the agent that is on the [i]-th
    coordinate of the path at time [i], and stays on the last coordinate
    from then on, moves along edges of the network at every step up to the
    horizon. The walk leads from the start at time 0 to the goal at the
    horizon, the two nodes on which [solve_mcf] puts the demand of the
    agent. *)
Theorem build_ten_carries_candidate_path
    (g : gmap (Z * Z) (gmap (Z * Z) (option Z)))
    (ppa : list (string * list (list (Z * Z)))) (path : list (Z * Z)) :
  symmetric g →
  path ∈ candidates ppa →
  is_walk g path →
  Forall (λ c, c ∈ dom g) path →
  let ten := (build_ten g ppa).1 in
  let h := (build_ten g ppa).2 in
  Z.of_nat (length path) ≤ h ∧
  di_walk ten (timed_walk path h) ∧
  (∀ s, head path = Some s → head (timed_walk path h) = Some (s, 0)) ∧
  (∀ t, last path = Some t → last (timed_walk path h) = Some (t, h)).
Proof.
  intros Hsym Hcand Hwalk Hnodes ten h.
  destruct (build_ten_spec g ppa Hsym) as (Hh & Hedge & _).
  fold h in Hh. fold ten in Hedge. rewrite <- Hh in Hedge.
  assert (Z.of_nat (length path) ≤ h) as Hlen.
  { rewrite Hh. apply max_with_zero_upper, list_elem_of_fmap. by exists path. }
  split_and!; [done|..].
  - intros i x y Hx Hy.
    destruct (last path) as [goal|] eqn:Hlast;
      [|by unfold timed_walk in Hx; rewrite Hlast in Hx].
    rewrite (timed_walk_lookup _ goal) in Hx, Hy by done.
    do 2 case_decide; simplify_eq.
    rewrite Hedge, decide_True by lia. unfold ten_attr.
    destruct (path !! S i) as [b|] eqn:Hb; simpl.
    + destruct (lookup_lt_is_Some_2 path i) as [a Ha];
        [apply lookup_lt_Some in Hb; lia|].
      rewrite Ha. simpl. rewrite decide_True; [by eexists|]. split.
      * unfold is_walk in Hwalk. rewrite Forall_forall in Hwalk.
        apply (Hwalk (a, b)), elem_of_path_steps. by exists i.
      * left. apply elem_of_allowed. exists path. split; [done|]. by exists i.
    + assert (default goal (path !! i) = goal) as ->.
      { destruct (path !! i) as [a|] eqn:Ha; [|done]. simpl.
        rewrite last_lookup in Hlast.
        pose proof (lookup_lt_Some _ _ _ Ha). apply lookup_ge_None in Hb.
        replace (pred (length path)) with i in Hlast by lia. congruence. }
      case_decide; [by eexists|]. rewrite decide_True; [by eexists|].
      split; [done|]. rewrite Forall_forall in Hnodes.
      by apply Hnodes, last_Some_elem_of.
  - intros s Hs. destruct (last path) as [goal|] eqn:Hlast.
    + rewrite head_lookup, (timed_walk_lookup _ goal), decide_True by (done || lia).
      rewrite head_lookup in Hs. by rewrite Hs.
    + apply last_None in Hlast. by subst.
  - intros t Ht. rewrite last_lookup.
    assert (length (timed_walk path h) = Z.to_nat (h + 1)) as ->.
    { unfold timed_walk, py_range. rewrite Ht, length_fmap, length_seqZ. lia. }
    rewrite (timed_walk_lookup _ t), decide_True by (done || lia).
    rewrite lookup_ge_None_2 by lia. simpl. do 2 f_equal. lia.
Qed.

Lemma build_ten_carries_candidate_path_witness :
  symmetric (lines_to_graph line_graph_lines) ∧
  (build_ten (lines_to_graph line_graph_lines) one_agent_paths).2 = 3 ∧
  di_walk (build_ten (lines_to_graph line_graph_lines) one_agent_paths).1
          (timed_walk [(0, 0); (40, 0); (80, 0)]
             (build_ten (lines_to_graph line_graph_lines) one_agent_paths).2).
Proof.
  split; [apply lines_to_graph_symmetric|]. split; [reflexivity|].
  apply (build_ten_carries_candidate_path
           (lines_to_graph line_graph_lines) one_agent_paths
           [(0, 0); (40, 0); (80, 0)]).
  - apply lines_to_graph_symmetric.
  - apply list_elem_of_here.
  - unfold is_walk. rewrite !path_steps_cons.
    repeat (apply Forall_cons; split; [by vm_compute; eexists|]).
    apply Forall_nil_2.
  - repeat (apply Forall_cons; split;
              [apply lines_to_graph_nodes_pair; vm_compute; eexists;
               first [left; apply list_elem_of_here
                     |right; apply list_elem_of_here
                     |left; apply list_elem_of_further, list_elem_of_here
                     |right; apply list_elem_of_further, list_elem_of_here]|]).
    apply Forall_nil_2.
Defined.

End ten_more.

(** ** Conflict detection *)

Section conflicts.
Import Nx TenBuilder McfSolver.

(** Once a path is over, the agent stays where the path ends. *)
Lemma position_stays (path : list (Z * Z)) (t t' : Z) :
  0 ≤ t → Z.of_nat (length path) - 1 ≤ t ≤ t' →
  position path t' = position path t.
Proof.
  intros Ht0 Ht. unfold position.
  destruct (decide (t' < Z.of_nat (length path))) as [Hlt'|Hge'].
  - assert (t' = t) as -> by lia. by rewrite decide_True.
  - destruct (decide (t < Z.of_nat (length path))) as [Hlt|Hge]; [|done].
    rewrite last_lookup.
    by replace (pred (length path)) with (Z.to_nat t) by lia.
Qed.

Lemma position_at (path : list (Z * Z)) (t : Z) (c : Z * Z) :
  path !! Z.to_nat t = Some c → position path t = Ok c.
Proof.
  intros Hc. unfold position.
  pose proof (lookup_lt_Some _ _ _ Hc) as Hlt.
  rewrite decide_True by lia. by rewrite Hc.
Qed.

Lemma position_empty (t : Z) : position [] t = Raise IndexError.
Proof. unfold position. by case_decide. Qed.

(** A time step without conflict: every agent has a position, and the
    positions differ from one another and from those already taken. *)
Lemma scan_agents_none t occ (items : list (string * list (Z * Z))) :
  scan_agents t occ items = Ok None →
  ∃ nodes, MapIO.rmap (λ p, position p t) items.*2 = Ok nodes ∧ NoDup nodes ∧
           ∀ n, n ∈ nodes → occ !! n = None.
Proof.
  revert occ. induction items as [|[agent path] items IH]; intros occ Hscan.
  - exists []. split_and!; [done|apply NoDup_nil_2|]. by intros n ?%elem_of_nil.
  - cbn [scan_agents] in Hscan. apply bind_Ok in Hscan as (nd & Hpos & Hscan).
    destruct (occ !! nd) as [other|] eqn:Hother; [done|].
    destruct (IH _ Hscan) as (nodes & Hnodes & Hnd & Hfree).
    exists (nd :: nodes). rewrite fmap_cons. cbn [MapIO.rmap snd].
    rewrite Hpos. cbn [mbind result_bind]. rewrite Hnodes. split_and!.
    + done.
    + apply NoDup_cons. split; [|done]. intros Hin. apply Hfree in Hin.
      by rewrite lookup_insert_eq in Hin.
    + intros n [->|Hin]%elem_of_cons; [done|]. apply Hfree in Hin.
      destruct (decide (nd = n)) as [->|Hne].
      * by rewrite lookup_insert_eq in Hin.
      * by rewrite lookup_insert_ne in Hin.
Qed.

Lemma rmap_lookup {B C} (f : B → result C) (l : list B) (out : list C)
    (i : nat) (x : B) :
  MapIO.rmap f l = Ok out → l !! i = Some x → ∃ y, f x = Ok y ∧ out !! i = Some y.
Proof.
  revert out i. induction l as [|b l IH]; intros out i Hmap Hi; [done|].
  cbn [MapIO.rmap] in Hmap. apply bind_Ok in Hmap as (y & Hy & Hmap).
  apply bind_Ok in Hmap as (ys & Hys & Hmap). injection Hmap as <-.
  destruct i as [|i]; simpl in Hi.
  - simplify_eq. by exists y.
  - by apply (IH ys i).
Qed.

Lemma scan_agents_none_distinct t (items : list (string * list (Z * Z)))
    (i j : nat) a p b q n :
  scan_agents t ∅ items = Ok None →
  i ≠ j → items !! i = Some (a, p) → items !! j = Some (b, q) →
  position p t = Ok n → position q t ≠ Ok n.
Proof.
  intros (nodes & Hnodes & Hnd & _)%scan_agents_none Hij Hi Hj Hp Hq.
  assert (items.*2 !! i = Some p) as Hi2 by (by rewrite list_lookup_fmap, Hi).
  assert (items.*2 !! j = Some q) as Hj2 by (by rewrite list_lookup_fmap, Hj).
  destruct (rmap_lookup _ _ _ _ _ Hnodes Hi2) as (n1 & Hn1 & Hl1).
  destruct (rmap_lookup _ _ _ _ _ Hnodes Hj2) as (n2 & Hn2 & Hl2).
  rewrite Hp in Hn1. rewrite Hq in Hn2. injection Hn1 as <-. injection Hn2 as <-.
  apply Hij. by eapply NoDup_lookup.
Qed.

(** A reported conflict: the second agent steps on a coordinate that is
    taken, by an agent that came earlier in the mapping. *)
Lemma scan_agents_some t occ (items : list (string * list (Z * Z)))
    a1 a2 node time :
  scan_agents t occ items = Ok (Some (a1, a2, node, time)) →
  time = t ∧
  ∃ (j : nat) q, items !! j = Some (a2, q) ∧ position q t = Ok node ∧
    (occ !! node = Some a1 ∨
     ∃ (i : nat) p, (i < j)%nat ∧ items !! i = Some (a1, p) ∧
                    position p t = Ok node).
Proof.
  revert occ. induction items as [|[agent path] items IH]; intros occ Hscan;
    cbn [scan_agents] in Hscan; [done|].
  apply bind_Ok in Hscan as (nd & Hpos & Hscan).
  destruct (occ !! nd) as [other|] eqn:Hother.
  - injection Hscan as -> -> -> ->. split; [done|].
    exists 0%nat, path. split_and!; [done..|]. by left.
  - destruct (IH _ Hscan) as (-> & j & q & Hj & Hq & Hfirst).
    split; [done|]. exists (S j), q. split_and!; [done..|].
    destruct Hfirst as [Hocc|(i & p & Hij & Hi & Hp)].
    + destruct (decide (nd = node)) as [->|Hne].
      * rewrite lookup_insert_eq in Hocc. injection Hocc as ->.
        right. exists 0%nat, path. split_and!; [lia|done..].
      * rewrite lookup_insert_ne in Hocc by done. by left.
    + right. exists (S i), p. split_and!; [lia|done..].
Qed.

Lemma scan_times_none ts (paths : list (string * list (Z * Z))) t :
  scan_times ts paths = Ok None → t ∈ ts → scan_agents t ∅ paths = Ok None.
Proof.
  induction ts as [|t0 ts IH]; intros Hscan Hin; [by apply elem_of_nil in Hin|].
  cbn [scan_times] in Hscan. apply bind_Ok in Hscan as ([c|] & Hc & Hscan);
    [done|].
  apply elem_of_cons in Hin as [->|Hin]; [done|]. by apply IH.
Qed.

Lemma scan_times_some ts (paths : list (string * list (Z * Z))) c :
  scan_times ts paths = Ok (Some c) →
  ∃ (k : nat) t, ts !! k = Some t ∧ scan_agents t ∅ paths = Ok (Some c) ∧
    ∀ (k' : nat) t', (k' < k)%nat → ts !! k' = Some t' →
      scan_agents t' ∅ paths = Ok None.
Proof.
  induction ts as [|t0 ts IH]; intros Hscan; [done|].
  cbn [scan_times] in Hscan. apply bind_Ok in Hscan as ([c0|] & Hc & Hscan).
  - injection Hscan as ->. exists 0%nat, t0. split_and!; [done..|]. lia.
  - destruct (IH Hscan) as (k & t & Hk & Ht & Hbefore).
    exists (S k), t. split_and!; [done..|].
    intros [|k'] t' Hlt Hk'; simpl in Hk'; [by simplify_eq|].
    apply (Hbefore k'); [lia|done].
Qed.

Lemma py_max_upper (l : list Z) (m x : Z) : py_max l = Ok m → x ∈ l → x ≤ m.
Proof.
  destruct l as [|y l]; [done|]. intros [= <-].
  assert (∀ (k : list Z) (acc : Z),
            acc ≤ foldl Z.max acc k ∧ ∀ z, z ∈ k → z ≤ foldl Z.max acc k) as Hf.
  { induction k as [|z k IHk]; intros acc; cbn [foldl].
    - split; [lia|]. by intros z ?%elem_of_nil.
    - destruct (IHk (Z.max acc z)) as [H1 H2]. split; [lia|].
      intros z' [->|Hin]%elem_of_cons; [lia|by apply H2]. }
  destruct (Hf l y) as [H1 H2].
  intros [->|Hin]%elem_of_cons; [done|by apply H2].
Qed.

(** X10. A conflict that [_detect_conflict] reports is real and is the
    earliest one: the two agents it names are two entries of the path
    mapping, the first before the second, and both are on the reported
    coordinate at the reported time (an agent whose path is over counts as
    standing on its last coordinate); at every earlier time the agents are
    on pairwise different coordinates. *)
Theorem _detect_conflict_reports_earliest_meeting
    (paths : list (string * list (Z * Z))) (a1 a2 : string) (node : Z * Z)
    (time : Z) :
  _detect_conflict paths = Ok (Some (a1, a2, node, time)) →
  0 ≤ time ∧
  (∃ (i j : nat) p q, (i < j)%nat ∧
     paths !! i = Some (a1, p) ∧ paths !! j = Some (a2, q) ∧
     position p time = Ok node ∧ position q time = Ok node) ∧
  (∀ t' (i j : nat) a p b q n, 0 ≤ t' < time → i ≠ j →
     paths !! i = Some (a, p) → paths !! j = Some (b, q) →
     position p t' = Ok n → position q t' ≠ Ok n).
Proof.
  unfold _detect_conflict. intros (max_len & _ & Hscan)%bind_Ok.
  apply scan_times_some in Hscan as (k & t & Hk & Hc & Hbefore).
  unfold py_range in Hk, Hbefore. apply lookup_seqZ in Hk as [-> Hk].
  apply scan_agents_some in Hc as (-> & j & q & Hj & Hq & [Hocc|Hfirst]);
    [by rewrite lookup_empty in Hocc|].
  destruct Hfirst as (i & p & Hij & Hi & Hp).
  split_and!; [lia|by exists i, j, p, q|].
  intros t' i' j' a p' b q' n Ht' Hne Hi' Hj'.
  apply (scan_agents_none_distinct t' paths i' j' a p' b q' n); [|done..].
  apply (Hbefore (Z.to_nat t')); [lia|]. apply lookup_seqZ. lia.
Qed.

Lemma _detect_conflict_reports_earliest_meeting_witness :
  position [(0, 0); (0, 0); (40, 0)] 2 = Ok (40, 0) ∧
  position [(40, 0); (40, 0); (40, 0)] 2 = Ok (40, 0) ∧
  position [(0, 0); (0, 0); (40, 0)] 1 ≠ Ok (40, 0).
Proof.
  destruct (_detect_conflict_reports_earliest_meeting
              [("A"%string, [(0, 0); (0, 0); (40, 0)]);
               ("B"%string, [(40, 0); (40, 0); (40, 0)])]
              "A" "B" (40, 0) 2 eq_refl) as (_ & _ & Hearlier).
  split_and!; [reflexivity..|].
  apply (Hearlier 1 1%nat 0%nat "B"%string [(40, 0); (40, 0); (40, 0)]
           "A"%string [(0, 0); (0, 0); (40, 0)] (40, 0));
    [lia|done|reflexivity..].
Defined.

(** X11. When [_detect_conflict] returns [None], no two agents are ever on
    the same coordinate at the same time: at every time step from 0 on,
    also after the longest path has ended, the positions of two different
    entries of the path mapping differ. *)
Theorem _detect_conflict_none_is_conflict_free
    (paths : list (string * list (Z * Z))) :
  _detect_conflict paths = Ok None →
  ∀ t (i j : nat) a p b q n, 0 ≤ t → i ≠ j →
    paths !! i = Some (a, p) → paths !! j = Some (b, q) →
    position p t = Ok n → position q t ≠ Ok n.
Proof.
  unfold _detect_conflict. intros (max_len & Hmax & Hscan)%bind_Ok.
  assert (∀ t (i j : nat) a p b q n, 0 ≤ t < max_len → i ≠ j →
    paths !! i = Some (a, p) → paths !! j = Some (b, q) →
    position p t = Ok n → position q t ≠ Ok n) as Hin.
  { intros t i j a p b q n Ht Hne Hi Hj.
    apply (scan_agents_none_distinct t paths i j a p b q n); [|done..].
    apply (scan_times_none _ _ _ Hscan). unfold py_range.
    apply list_elem_of_lookup. exists (Z.to_nat t). apply lookup_seqZ. lia. }
  assert (∀ (i : nat) a p, paths !! i = Some (a, p) →
            Z.of_nat (length p) ≤ max_len) as Hlen.
  { intros i a p Hi. apply (py_max_upper _ _ _ Hmax).
    apply list_elem_of_fmap. exists p. split; [done|].
    apply list_elem_of_fmap. exists (a, p). split; [done|].
    by apply list_elem_of_lookup_2 in Hi. }
  intros t i j a p b q n Ht Hne Hi Hj Hp Hq.
  destruct (decide (t < max_len)) as [Hlt|Hge].
  - by apply (Hin t i j a p b q n).
  - pose proof (Hlen _ _ _ Hi) as Hlp. pose proof (Hlen _ _ _ Hj) as Hlq.
    destruct (decide (max_len = 0)) as [->|Hpos].
    + assert (p = []) as -> by (apply nil_length_inv; lia).
      by rewrite position_empty in Hp.
    + assert (0 ≤ max_len).
      { pose proof (Zle_0_nat (length p)). lia. }
      rewrite (position_stays p (max_len - 1) t) in Hp by lia.
      rewrite (position_stays q (max_len - 1) t) in Hq by lia.
      by apply (Hin (max_len - 1) i j a p b q n); [lia|..].
Qed.

Lemma _detect_conflict_none_is_conflict_free_witness :
  _detect_conflict [("A"%string, [(0, 0); (40, 0)]);
                    ("B"%string, [(40, 0); (80, 0); (80, 40)])]
  = Ok None ∧
  position [(0, 0); (40, 0)] 7 = Ok (40, 0) ∧
  position [(40, 0); (80, 0); (80, 40)] 7 ≠ Ok (40, 0).
Proof.
  split; [reflexivity|]. split; [reflexivity|].
  apply (_detect_conflict_none_is_conflict_free
           [("A"%string, [(0, 0); (40, 0)]);
            ("B"%string, [(40, 0); (80, 0); (80, 40)])]
           eq_refl 7 0%nat 1%nat "A"%string [(0, 0); (40, 0)]
           "B"%string [(40, 0); (80, 0); (80, 40)] (40, 0));
    [lia|done|reflexivity..].
Defined.

(** X12. Two agents that swap their coordinates in one step are not
    reported: only the coordinates occupied at each time step are
    compared, not the edges crossed between two steps. *)
Theorem _detect_conflict_misses_swap (a b : string) (u v : Z * Z) :
  u ≠ v →
  _detect_conflict [(a, [u; v]); (b, [v; u])] = Ok None.
Proof.
  intros Hne. unfold _detect_conflict.
  change (py_max _) with (Ok (A := Z) 2). cbn [mbind result_bind].
  change (py_range 0 2) with [0; 1].
  cbn [mbind result_bind scan_times scan_agents].
  rewrite (position_at [u; v] 0 u), (position_at [v; u] 0 v) by done.
  rewrite (position_at [u; v] 1 v), (position_at [v; u] 1 u) by done.
  cbn [mbind result_bind].
  rewrite lookup_empty, !lookup_insert_ne by done. rewrite lookup_empty.
  cbn [mbind result_bind]. by rewrite lookup_empty.
Qed.

Lemma _detect_conflict_misses_swap_witness :
  _detect_conflict [("A"%string, [(0, 0); (40, 0)]);
                    ("B"%string, [(40, 0); (0, 0)])]
  = Ok None.
Proof.
  apply (_detect_conflict_misses_swap "A" "B" (0, 0) (40, 0)). done.
Defined.

End conflicts.

(** ** Paths read off a flow *)

Section flow_paths.
Import Nx TenBuilder McfSolver.

Lemma first_flow_Some (edges : list (Z * Z * Z * Z)) v f :
  first_flow edges = Some (v, f) → (v, f) ∈ edges ∧ 0 < f.
Proof.
  induction edges as [|[v' f'] edges IH]; [done|]. cbn [first_flow].
  case_decide.
  - intros [= -> ->]. split; [apply list_elem_of_here|done].
  - intros [Hin Hf]%IH. split; [by apply list_elem_of_further|done].
Qed.

Lemma dict_get_elem_of {K V} `{EqDecision K} (k : K) (d : list (K * V)) v :
  dict_get k d = Some v → (k, v) ∈ d.
Proof.
  induction d as [|[k' v'] d IH]; [done|]. cbn [dict_get]. case_decide.
  - intros [= ->]. subst. apply list_elem_of_here.
  - intros Hd. by apply list_elem_of_further, IH.
Qed.

Lemma elem_of_dict_get {K V} `{EqDecision K} (k : K) (d : list (K * V)) v :
  NoDup d.*1 → (k, v) ∈ d → dict_get k d = Some v.
Proof.
  induction d as [|[k' v'] d IH]; intros Hnd Hin;
    [by apply elem_of_nil in Hin|].
  rewrite fmap_cons in Hnd. apply NoDup_cons in Hnd as [Hk Hnd].
  cbn [dict_get]. apply elem_of_cons in Hin as [[= <- <-]|Hin].
  - by rewrite decide_True.
  - rewrite decide_False; [by apply IH|]. intros ->. apply Hk.
    apply list_elem_of_fmap. by exists (k, v).
Qed.

Lemma Forall_dict_set {K V} `{EqDecision K} (P : K * V → Prop) k v
    (d : list (K * V)) :
  Forall P d → P (k, v) → Forall P (dict_set k v d).
Proof.
  intros Hd Hkv. induction d as [|[k' v'] d IH]; cbn [dict_set].
  - by apply Forall_cons.
  - apply Forall_cons in Hd as [Hhd Htl].
    case_decide; apply Forall_cons; split; try done. by apply IH.
Qed.

(** The loop over [range(horizon)] only appends to the path, at most one
    coordinate per round. *)
Lemma walk_extends (hops : nat) flow (node : Z * Z * Z) (path : list (Z * Z)) :
  ∃ ext, (walk hops flow node path).2 = path ++ ext ∧ (length ext ≤ hops)%nat.
Proof.
  revert flow node path. induction hops as [|hops IH]; intros flow node path;
    cbn [walk].
  - exists []. by rewrite app_nil_r.
  - destruct (first_flow (default [] (dict_get node flow))) as [[next f]|].
    + destruct (IH (dict_set node
                      (dict_set next (f - 1) (default [] (dict_get node flow)))
                      flow) next (path ++ [next.1])) as (ext & -> & Hlen).
      exists (next.1 :: ext). rewrite <- app_assoc. split; [done|]. simpl. lia.
    + exists []. rewrite app_nil_r. split; [done|]. simpl. lia.
Qed.

(** When the flow is positive on edges of the network only, the loop
    follows edges of the network, and leaves such a flow behind. *)
Lemma walk_within ten (hops : nat) flow (node : Z * Z * Z)
    (tnodes : list (Z * Z * Z)) :
  flow_within ten flow → last tnodes = Some node → di_walk ten tnodes →
  ∃ ext, (walk hops flow node tnodes.*1).2 = (tnodes ++ ext).*1 ∧
         di_walk ten (tnodes ++ ext) ∧
         flow_within ten (walk hops flow node tnodes.*1).1.
Proof.
  revert flow node tnodes.
  induction hops as [|hops IH]; intros flow node tnodes Hflow Hlast Hwalk;
    cbn [walk].
  - exists []. by rewrite app_nil_r.
  - destruct (first_flow (default [] (dict_get node flow))) as [[next f]|]
      eqn:Hfirst; [|exists []; by rewrite app_nil_r].
    apply first_flow_Some in Hfirst as [Hin Hf].
    destruct (dict_get node flow) as [edges|] eqn:Hedges;
      [|by apply elem_of_nil in Hin].
    cbn [default from_option] in *.
    apply dict_get_elem_of in Hedges.
    unfold flow_within in Hflow. rewrite Forall_forall in Hflow.
    pose proof (Hflow _ Hedges) as Hnode. cbn [fst snd] in Hnode.
    assert (is_Some (edge_data ten node next)) as Hedge.
    { rewrite Forall_forall in Hnode. by apply (Hnode (next, f)). }
    replace (tnodes.*1 ++ [next.1]) with ((tnodes ++ [next]).*1)
      by (by rewrite fmap_app).
    destruct (IH (dict_set node (dict_set next (f - 1) edges) flow) next
                 (tnodes ++ [next])) as (ext & Hpath & Hw & Hfl).
    + unfold flow_within. apply Forall_dict_set.
      * by apply Forall_forall.
      * cbn [fst snd]. apply Forall_dict_set; [done|]. by intros _.
    + apply last_snoc.
    + intros i x y Hx Hy.
      destruct (decide (S i < length tnodes)%nat) as [Hlt|Hge].
      * rewrite lookup_app_l in Hx, Hy by lia. by apply (Hwalk i).
      * assert (S i = length tnodes) as Hi.
        { apply lookup_lt_Some in Hy. rewrite length_app in Hy. simpl in Hy.
          lia. }
        rewrite lookup_app_l in Hx by lia.
        rewrite lookup_app_r, Hi, Nat.sub_diag in Hy by lia.
        rewrite last_lookup in Hlast.
        replace (pred (length tnodes)) with i in Hlast by lia.
        simpl in Hy. by simplify_eq.
    + exists (next :: ext). rewrite <- app_assoc in Hpath, Hw. done.
Qed.

(** The loop over the agents: an entry of the result was there before or
    was made for an agent of the list, from the flow the earlier agents
    have left. *)
Lemma _extract_paths_fold (Inv : list (Z * Z * Z * list (Z * Z * Z * Z)) → Prop)
    (Good : Z * Z → list (Z * Z) → Prop) (h : Z) :
  (∀ fl s, Inv fl →
     Inv (walk (Z.to_nat h) fl (s, 0) [s]).1 ∧
     Good s (walk (Z.to_nat h) fl (s, 0) [s]).2) →
  ∀ (l : list (string * (Z * Z * (Z * Z)))) fl
    (paths0 : list (string * list (Z * Z))) a p,
    Inv fl →
    dict_get a (foldl (λ '(flow0, paths) '(agent, (start, _goal)),
                         let '(flow1, path) :=
                           walk (Z.to_nat h) flow0 (start, 0) [start] in
                         (flow1, dict_set agent path paths))
                      (fl, paths0) l).2 = Some p →
    dict_get a paths0 = Some p ∨ ∃ s g, (a, (s, g)) ∈ l ∧ Good s p.
Proof.
  intros Hwalk l. induction l as [|[agent [start goal]] l IH];
    intros fl paths0 a p Hinv Hget; cbn [foldl] in Hget; [by left|].
  destruct (Hwalk fl start Hinv) as [Hinv' Hgood].
  destruct (walk (Z.to_nat h) fl (start, 0) [start]) as [fl1 path].
  cbn [fst snd] in Hinv', Hgood.
  destruct (IH _ _ _ _ Hinv' Hget) as [Hset|(s & g & Hin & Hg)].
  - rewrite dict_get_set in Hset. case_decide as Ha; [|by left].
    injection Hset as <-. subst. right. exists start, goal.
    split; [apply list_elem_of_here|done].
  - right. exists s, g. split; [by apply list_elem_of_further|done].
Qed.

Lemma _extract_paths_keys flow (agents : list (string * (Z * Z * (Z * Z))))
    h a :
  a ∈ (_extract_paths flow agents h).*1 ↔ a ∈ agents.*1.
Proof.
  unfold _extract_paths.
  assert (∀ (l : list (string * (Z * Z * (Z * Z)))) fl
            (paths0 : list (string * list (Z * Z))),
    a ∈ (foldl (λ '(flow0, paths) '(agent, (start, _goal)),
                  let '(flow1, path) :=
                    walk (Z.to_nat h) flow0 (start, 0) [start] in
                  (flow1, dict_set agent path paths))
               (fl, paths0) l).2.*1
    ↔ a ∈ paths0.*1 ∨ a ∈ l.*1) as Hfold.
  { induction l as [|[agent [start goal]] l IH]; intros fl paths0; cbn [foldl].
    - rewrite fmap_nil, elem_of_nil. tauto.
    - destruct (walk (Z.to_nat h) fl (start, 0) [start]) as [fl1 path].
      rewrite IH, dict_set_keys, fmap_cons, elem_of_cons. cbn [fst]. tauto. }
  rewrite Hfold, fmap_nil, elem_of_nil. tauto.
Qed.

(** X13. [_extract_paths] returns one path for every agent and for nobody
    else; the path of an agent begins with the start of the agent and has
    at least one and at most [horizon + 1] coordinates, whatever the flow
    is. The goals are never looked at: agents with the same names and
    starts get the same paths. *)
Theorem _extract_paths_starts_and_lengths
    (flow : list (Z * Z * Z * list (Z * Z * Z * Z)))
    (agents : list (string * (Z * Z * (Z * Z)))) (h : Z) (a : string) :
  (a ∈ (_extract_paths flow agents h).*1 ↔ a ∈ agents.*1) ∧
  (∀ p, dict_get a (_extract_paths flow agents h) = Some p →
     ∃ s g, (a, (s, g)) ∈ agents ∧ head p = Some s ∧
            (1 ≤ length p ≤ Z.to_nat h + 1)%nat) ∧
  (∀ agents' : list (string * (Z * Z * (Z * Z))),
     (λ e, (e.1, e.2.1)) <$> agents' = (λ e, (e.1, e.2.1)) <$> agents →
     _extract_paths flow agents' h = _extract_paths flow agents h).
Proof.
  split_and!; [apply _extract_paths_keys| |].
  2: { intros agents'. unfold _extract_paths.
       generalize (flow, @nil (string * list (Z * Z))). revert agents.
       induction agents' as [|[b [s g]] l IH]; intros [|[b' [s' g']] l'] acc Heq;
         try done.
       rewrite !fmap_cons in Heq. cbn [fst snd] in Heq.
       injection Heq as -> -> Heq. cbn [foldl]. destruct acc as [fl ps].
       destruct (walk (Z.to_nat h) fl (s', 0) [s']) as [fl1 path].
       by apply IH. }
  - intros p Hget. unfold _extract_paths in Hget.
    destruct (_extract_paths_fold (λ _, True)
                (λ s p, head p = Some s ∧ (1 ≤ length p ≤ Z.to_nat h + 1)%nat) h)
      with (l := agents) (fl := flow) (paths0 := @nil (string * list (Z * Z)))
           (a := a) (p := p) as [?|Hgood]; [|done|done|done|done].
    intros fl s _. split; [done|].
    destruct (walk_extends (Z.to_nat h) fl (s, 0) [s]) as (ext & -> & Hlen).
    split; [done|]. rewrite length_app. simpl. lia.
Qed.

(** X14. When the flow is positive on edges of the network only, every
    path that [_extract_paths] returns is the trace of a directed walk in
    the network that begins on the start of the agent at time 0: the
    coordinates of the path are those of the nodes of the walk, in order. *)
Theorem _extract_paths_follow_network
    (ten : gmap (Z * Z * Z) (gmap (Z * Z * Z) EdgeAttr))
    (flow : list (Z * Z * Z * list (Z * Z * Z * Z)))
    (agents : list (string * (Z * Z * (Z * Z)))) (h : Z) (a : string)
    (p : list (Z * Z)) :
  flow_within ten flow →
  dict_get a (_extract_paths flow agents h) = Some p →
  ∃ s g tnodes, (a, (s, g)) ∈ agents ∧ p = tnodes.*1 ∧
                head tnodes = Some (s, 0) ∧ di_walk ten tnodes.
Proof.
  intros Hflow Hget. unfold _extract_paths in Hget.
  destruct (_extract_paths_fold (flow_within ten)
              (λ s p, ∃ tnodes, p = tnodes.*1 ∧ head tnodes = Some (s, 0) ∧
                                di_walk ten tnodes) h)
    with (l := agents) (fl := flow) (paths0 := @nil (string * list (Z * Z)))
         (a := a) (p := p) as [?|(s & g & Hin & tnodes & Hp & Hhead & Hwalk)];
    [|done|done|done|by exists s, g, tnodes].
  intros fl s Hfl.
  destruct (walk_within ten (Z.to_nat h) fl (s, 0) [(s, 0)] Hfl eq_refl)
    as (ext & Hpath & Hw & Hfl').
  { intros [|i] x y Hx Hy; [done|]. by destruct i. }
  split; [done|]. exists ([(s, 0)] ++ ext). done.
Qed.

Lemma _extract_paths_follow_network_witness :
  ∃ tnodes,
    [(0, 0); (0, 0); (40, 0)] = tnodes.*1 ∧
    di_walk (build_ten (GraphBuilder.lines_to_graph meeting_lines)
               [("A"%string, [[(0, 0); (40, 0)]]); ("B"%string, [[(40, 0)]])]).1
            tnodes.
Proof.
  destruct (_extract_paths_follow_network
              (build_ten (GraphBuilder.lines_to_graph meeting_lines)
                 [("A"%string, [[(0, 0); (40, 0)]]); ("B"%string, [[(40, 0)]])]).1
              meeting_flow meeting_agents 2 "A" [(0, 0); (0, 0); (40, 0)])
    as (s & g & tnodes & _ & Hp & _ & Hwalk).
  - unfold flow_within, meeting_flow.
    repeat (apply Forall_cons; split;
            [cbn [fst snd];
             repeat (apply Forall_cons; split;
                     [cbn [fst snd]; intros Hpos;
                      first [by vm_compute; eexists|lia]|]);
             apply Forall_nil_2|]).
    apply Forall_nil_2.
  - reflexivity.
  - by exists tnodes.
Defined.

End flow_paths.

(** ** The demands of the flow problem *)

Section demands.
Import Nx TenBuilder McfSolver.

Lemma total_demand_insert_new (n : Z * Z * Z) (y : Z) (demand : gmap (Z * Z * Z) Z) :
  demand !! n = None → total_demand (<[n := y]> demand) = y + total_demand demand.
Proof.
  intros Hn. unfold total_demand. rewrite map_fold_insert_L; [done| |done].
  intros. lia.
Qed.

Lemma total_demand_insert (n : Z * Z * Z) (x y : Z) (demand : gmap (Z * Z * Z) Z) :
  demand !! n = Some x →
  total_demand (<[n := y]> demand) = total_demand demand + (y - x).
Proof.
  intros Hn. rewrite <- insert_delete_eq.
  rewrite total_demand_insert_new by apply lookup_delete_eq.
  assert (total_demand demand = x + total_demand (delete n demand)) as ->.
  { unfold total_demand.
    rewrite (map_fold_delete_L (λ _ d acc, d + acc) 0 n x demand); [done| |done].
    intros. lia. }
  lia.
Qed.

Lemma total_demand_zero {A} (graph : gmap (Z * Z * Z) A) :
  total_demand ((λ _, 0) <$> graph) = 0.
Proof.
  induction graph as [|n x graph Hn IH] using map_ind.
  - by rewrite fmap_empty.
  - rewrite fmap_insert, total_demand_insert_new, IH; [done|].
    by rewrite lookup_fmap, Hn.
Qed.

(** The two updates that one agent makes. *)
Lemma demand_step (s g : Z * Z) (h : Z) (d0 d2 : gmap (Z * Z * Z) Z) :
  (d1 ← add_demand (s, 0) (-1) d0; add_demand (g, h) 1 d1) = Ok d2 →
  dom d2 = dom d0 ∧ total_demand d2 = total_demand d0 ∧
  (s, 0) ∈ dom d0 ∧ (g, h) ∈ dom d0 ∧
  ∀ n x0, d0 !! n = Some x0 →
    d2 !! n = Some (x0 + (if decide ((g, h) = n) then 1 else 0)
                       - (if decide ((s, 0) = n) then 1 else 0)).
Proof.
  unfold add_demand. destruct (d0 !! (s, 0)) as [x|] eqn:Hs; [|done].
  cbn [mbind result_bind].
  destruct (<[(s, 0) := x + -1]> d0 !! (g, h)) as [y|] eqn:Hg; [|done].
  intros [= <-].
  assert ((s, 0) ∈ dom d0) as Hsd by (apply elem_of_dom; by eexists).
  assert ((g, h) ∈ dom d0) as Hgd.
  { pose proof Hg as Hg'.
    apply lookup_insert_Some in Hg' as [[<- _]|[_ Hg']]; [done|].
    apply elem_of_dom. by eexists. }
  split_and!; [|..|done|done|].
  - rewrite !dom_insert_L. set_solver.
  - rewrite (total_demand_insert _ y) by done.
    rewrite (total_demand_insert _ x) by done. lia.
  - intros n x0 Hn. destruct (decide ((g, h) = n)) as [<-|Hgn].
    + rewrite lookup_insert_eq. f_equal.
      destruct (decide ((s, 0) = (g, h))) as [Heq|Hsn].
      * rewrite Heq, lookup_insert_eq in Hg. rewrite <- Heq, Hs in Hn.
        simplify_eq. lia.
      * rewrite lookup_insert_ne in Hg by done. simplify_eq. lia.
    + rewrite lookup_insert_ne by done.
      destruct (decide ((s, 0) = n)) as [<-|Hsn].
      * rewrite lookup_insert_eq. simplify_eq. f_equal. lia.
      * rewrite lookup_insert_ne by done. rewrite Hn. f_equal. lia.
Qed.

Lemma demand_step_raise (s g : Z * Z) (h : Z) (d0 : gmap (Z * Z * Z) Z) e :
  (d1 ← add_demand (s, 0) (-1) d0; add_demand (g, h) 1 d1) = Raise e →
  e = KeyError.
Proof.
  unfold add_demand. destruct (d0 !! (s, 0)) as [x|]; [|by intros [= <-]].
  cbn [mbind result_bind].
  destruct (<[(s, 0) := x + -1]> d0 !! (g, h)) as [y|]; [done|by intros [= <-]].
Qed.

Lemma demand_step_ok (s g : Z * Z) (h : Z) (d0 : gmap (Z * Z * Z) Z) :
  (s, 0) ∈ dom d0 → (g, h) ∈ dom d0 →
  ∃ d2, (d1 ← add_demand (s, 0) (-1) d0; add_demand (g, h) 1 d1) = Ok d2.
Proof.
  intros [x Hs]%elem_of_dom [y Hg]%elem_of_dom. unfold add_demand.
  rewrite Hs. cbn [mbind result_bind].
  destruct (<[(s, 0) := x + -1]> d0 !! (g, h)) as [z|] eqn:Hz; [by eexists|].
  apply lookup_insert_None in Hz as [Hz _]. congruence.
Qed.

(** The loop over the agents stops with [KeyError] at the first agent
    whose start node or goal node is not in the network. *)
Lemma set_demands_missing (agents : list (string * (Z * Z * (Z * Z))))
    (h : Z) (d0 : gmap (Z * Z * Z) Z) a s g :
  (a, (s, g)) ∈ agents → (s, 0) ∉ dom d0 ∨ (g, h) ∉ dom d0 →
  rfold (λ demand '(agent, (start, goal)),
           demand1 ← add_demand (start, 0) (-1) demand;
           add_demand (goal, h) 1 demand1) d0 agents
  = Raise KeyError.
Proof.
  revert d0. induction agents as [|[a' [s' g']] agents IH]; intros d0 Hin Hmiss;
    [by apply elem_of_nil in Hin|].
  cbn [rfold].
  destruct (demand1 ← add_demand (s', 0) (-1) d0; add_demand (g', h) 1 demand1)
    as [d2|e] eqn:Hstep.
  - apply demand_step in Hstep as (Hdom & _ & Hs & Hg & _).
    cbn [mbind result_bind].
    apply elem_of_cons in Hin as [[= -> -> ->]|Hin]; [tauto|].
    apply IH; [done|]. by rewrite Hdom.
  - apply demand_step_raise in Hstep as ->. done.
Qed.

(** X15. [solve_mcf] raises [KeyError], without calling the network
    simplex, as soon as the start node [(start, 0)] or the goal node
    [(goal, horizon)] of some agent is not a node of the network; when all
    these nodes are there, the demands are set and the outcome is that of
    the network simplex, followed by the extraction of the paths. *)
Theorem solve_mcf_missing_terminal
    (simplex : gmap (Z * Z * Z) (gmap (Z * Z * Z) EdgeAttr)
               → gmap (Z * Z * Z) Z
               → result (Z * list (Z * Z * Z * list (Z * Z * Z * Z))))
    (ten : gmap (Z * Z * Z) (gmap (Z * Z * Z) EdgeAttr))
    (agents : list (string * (Z * Z * (Z * Z)))) (h : Z) :
  (∀ a s g, (a, (s, g)) ∈ agents → (s, 0) ∉ dom ten ∨ (g, h) ∉ dom ten →
     solve_mcf simplex ten agents h = Raise KeyError) ∧
  (Forall (λ a, (a.2.1, 0) ∈ dom ten ∧ (a.2.2, h) ∈ dom ten) agents →
     ∃ demand, set_demands ten agents h = Ok demand ∧
       solve_mcf simplex ten agents h
       = match simplex ten demand with
         | Ok (_, flow) => Ok (_extract_paths flow agents h)
         | Raise e => Raise e
         end).
Proof.
  split.
  - intros a s g Hin Hmiss. unfold solve_mcf, set_demands.
    rewrite (set_demands_missing agents h _ a s g); [done..|].
    by rewrite dom_fmap_L.
  - intros Hall.
    assert (∃ demand, set_demands ten agents h = Ok demand) as [demand Hd].
    { unfold set_demands.
      assert (dom ((λ _, 0) <$> ten) = dom ten) as Hdom by apply dom_fmap_L.
      revert Hdom. generalize ((λ _ : gmap (Z * Z * Z) EdgeAttr, 0) <$> ten).
      induction Hall as [|[a [s g]] l [Hs Hg] Hall IH]; intros d0 Hdom;
        [by eexists|].
      cbn [rfold]. cbn [fst snd] in Hs, Hg.
      destruct (demand_step_ok s g h d0) as [d2 Hstep];
        [by rewrite Hdom..|].
      rewrite Hstep. cbn [mbind result_bind]. apply IH.
      apply demand_step in Hstep as (-> & _). done. }
    exists demand. split; [done|]. unfold solve_mcf. rewrite Hd.
    cbn [mbind result_bind]. by destruct (simplex ten demand) as [[c flow]|e].
Qed.

(** X16. The demands [solve_mcf] sets are balanced: on every node of the
    network the demand is the number of agents whose goal node it is minus
    the number of agents whose start node it is, no node is added, and the
    demands of all nodes sum to 0. Setting them succeeds only if every
    start node and every goal node is a node of the network. *)
Theorem set_demands_balanced
    (ten : gmap (Z * Z * Z) (gmap (Z * Z * Z) EdgeAttr))
    (agents : list (string * (Z * Z * (Z * Z)))) (h : Z)
    (demand : gmap (Z * Z * Z) Z) :
  set_demands ten agents h = Ok demand →
  dom demand = dom ten ∧
  (∀ n, n ∈ dom ten →
     demand !! n = Some (ends_at agents h n - starts_at agents n)) ∧
  total_demand demand = 0 ∧
  Forall (λ a, (a.2.1, 0) ∈ dom ten ∧ (a.2.2, h) ∈ dom ten) agents.
Proof.
  unfold set_demands. intros Hfold.
  assert (∀ (l : list (string * (Z * Z * (Z * Z)))) (d0 d : gmap (Z * Z * Z) Z),
    rfold (λ demand '(agent, (start, goal)),
             demand1 ← add_demand (start, 0) (-1) demand;
             add_demand (goal, h) 1 demand1) d0 l = Ok d →
    dom d = dom d0 ∧ total_demand d = total_demand d0 ∧
    Forall (λ a, (a.2.1, 0) ∈ dom d0 ∧ (a.2.2, h) ∈ dom d0) l ∧
    ∀ n x0, d0 !! n = Some x0 →
      d !! n = Some (x0 + ends_at l h n - starts_at l n)) as Hgen.
  { induction l as [|[a [s g]] l IH]; intros d0 d Hl; cbn [rfold] in Hl.
    - injection Hl as <-. split_and!; [done..|].
      intros n x0 ->. unfold ends_at, starts_at. simpl. f_equal. lia.
    - apply bind_Ok in Hl as (d2 & Hstep & Hl).
      apply demand_step in Hstep as (Hdom & Htot & Hs & Hg & Hval).
      apply IH in Hl as (Hdom' & Htot' & Hall & Hval').
      split_and!.
      + congruence.
      + congruence.
      + apply Forall_cons. split; [done|]. by rewrite <- Hdom.
      + intros n x0 Hn. rewrite (Hval' _ _ (Hval _ _ Hn)). f_equal.
        unfold ends_at, starts_at. rewrite !filter_cons. cbn [fst snd].
        destruct (decide ((g, h) = n)), (decide ((s, 0) = n));
          cbn [length]; lia. }
  apply Hgen in Hfold as (Hdom & Htot & Hall & Hval).
  rewrite dom_fmap_L in Hdom, Hall. rewrite total_demand_zero in Htot.
  split_and!; [done| |done|done].
  intros n [x Hn]%elem_of_dom. rewrite (Hval n 0).
  - reflexivity.
  - by rewrite lookup_fmap, Hn.
Qed.

Lemma set_demands_balanced_witness :
  ∃ demand,
    set_demands (build_ten (GraphBuilder.lines_to_graph meeting_lines)
                   [("A"%string, [[(0, 0); (40, 0)]]); ("B"%string, [[(40, 0)]])]).1
                meeting_agents 2 = Ok demand ∧
    total_demand demand = 0 ∧
    demand !! ((40, 0), 2) = Some 2.
Proof.
  destruct (set_demands
              (build_ten (GraphBuilder.lines_to_graph meeting_lines)
                 [("A"%string, [[(0, 0); (40, 0)]]); ("B"%string, [[(40, 0)]])]).1
              meeting_agents 2) as [demand|e] eqn:Hd;
    [|by vm_compute in Hd].
  exists demand. split; [done|].
  destruct (set_demands_balanced _ _ _ _ Hd) as (_ & Hval & Htot & _).
  split; [done|]. rewrite Hval; [reflexivity|].
  apply elem_of_dom. by vm_compute; eexists.
Defined.

End demands.

(** ** Forbidden nodes *)

Section forbidden.
Import Nx TenBuilder McfSolver.

Lemma dom_di_remove_node (n : Z * Z * Z)
    (ten : gmap (Z * Z * Z) (gmap (Z * Z * Z) EdgeAttr)) :
  dom (di_remove_node n ten) = dom ten ∖ {[n]}.
Proof. unfold di_remove_node. by rewrite dom_fmap_L, dom_delete_L. Qed.

Lemma edge_data_di_remove_node (n : Z * Z * Z)
    (ten : gmap (Z * Z * Z) (gmap (Z * Z * Z) EdgeAttr)) (x y : Z * Z * Z) :
  edge_data (di_remove_node n ten) x y
  = if decide (x = n ∨ y = n) then None else edge_data ten x y.
Proof.
  unfold edge_data, di_remove_node. rewrite lookup_fmap.
  destruct (decide (x = n)) as [->|Hx].
  - rewrite lookup_delete_eq. by rewrite decide_True by (by left).
  - rewrite lookup_delete_ne by done.
    destruct (ten !! x) as [nbrs|]; simpl; [|by case_decide].
    destruct (decide (y = n)) as [->|Hy].
    + rewrite lookup_delete_eq. by rewrite decide_True by (by right).
    + rewrite lookup_delete_ne by done. rewrite decide_False; [done|tauto].
Qed.

Lemma edge_data_Some_dom {A} (ten : gmap (Z * Z * Z) (gmap (Z * Z * Z) A))
    (x y : Z * Z * Z) d :
  edge_data ten x y = Some d → x ∈ dom ten.
Proof.
  unfold edge_data. destruct (ten !! x) as [nbrs|] eqn:Hx; [|done].
  intros _. apply elem_of_dom. by eexists.
Qed.

(** The inner loop of the removal, over the nodes of one constraint set. *)
Lemma remove_nodes_spec (ns : list (Z * Z * Z))
    (ten : gmap (Z * Z * Z) (gmap (Z * Z * Z) EdgeAttr)) :
  dom (foldl (λ ten1 '(node, t),
                if has_node ten1 (node, t)
                then di_remove_node (node, t) ten1 else ten1) ten ns)
  = dom ten ∖ list_to_set ns ∧
  ∀ x y d,
    edge_data (foldl (λ ten1 '(node, t),
                        if has_node ten1 (node, t)
                        then di_remove_node (node, t) ten1 else ten1) ten ns)
              x y = Some d
    ↔ edge_data ten x y = Some d ∧ x ∉ ns ∧ ¬ (y ∈ ns ∧ y ∈ dom ten).
Proof.
  revert ten. induction ns as [|[node t] ns IH]; intros ten; cbn [foldl].
  - split; [set_solver|]. intros x y d. rewrite !elem_of_nil. tauto.
  - set (ten1 := if has_node ten (node, t)
                 then di_remove_node (node, t) ten else ten).
    assert (dom ten1 = dom ten ∖ {[(node, t)]}) as Hdom1.
    { unfold ten1, has_node. case_bool_decide as Hn.
      - apply dom_di_remove_node.
      - rewrite <- elem_of_dom in Hn. set_solver. }
    assert (∀ x y d, edge_data ten1 x y = Some d
              ↔ edge_data ten x y = Some d ∧ x ≠ (node, t) ∧
                ¬ (y = (node, t) ∧ y ∈ dom ten)) as Hedge1.
    { intros x y d. unfold ten1, has_node. case_bool_decide as Hn.
      - rewrite <- elem_of_dom in Hn. rewrite edge_data_di_remove_node.
        case_decide as Hxy.
        + split; [done|]. intros (_ & Hx & Hy).
          destruct Hxy as [->| ->]; [done|]. by destruct Hy.
        + split; [|tauto]. intros Hd. split_and!; [done|tauto|tauto].
      - rewrite <- elem_of_dom in Hn. split; [|tauto].
        intros Hd. split_and!; [done| |].
        + intros ->. by apply edge_data_Some_dom in Hd.
        + intros [-> Hy]. done. }
    destruct (IH ten1) as [Hdom Hedge]. split.
    + rewrite Hdom, Hdom1. set_solver.
    + intros x y d. rewrite Hedge, Hedge1, Hdom1, !elem_of_cons.
      rewrite elem_of_difference, elem_of_singleton.
      destruct (decide (y = (node, t))); tauto.
Qed.

Lemma remove_forbidden_as_list (cs : list (string * gset (Z * Z * Z)))
    (ten : gmap (Z * Z * Z) (gmap (Z * Z * Z) EdgeAttr)) :
  remove_forbidden cs ten
  = foldl (λ ten1 '(node, t),
             if has_node ten1 (node, t)
             then di_remove_node (node, t) ten1 else ten1)
          ten (mjoin ((λ c, elements c.2) <$> cs)).
Proof.
  rewrite <- foldl_mjoin. unfold remove_forbidden. revert ten.
  induction cs as [|[a F] cs IH]; intros ten; [done|].
  rewrite fmap_cons. cbn [foldl snd]. apply IH.
Qed.

Lemma elem_of_forbidden_list (cs : list (string * gset (Z * Z * Z)))
    (n : Z * Z * Z) :
  n ∈ mjoin ((λ c, elements c.2) <$> cs) ↔ ∃ a F, (a, F) ∈ cs ∧ n ∈ F.
Proof.
  rewrite list_elem_of_join. split.
  - intros (l & Hn & (c & -> & Hc)%list_elem_of_fmap).
    destruct c as [a F]. exists a, F. split; [done|].
    by apply elem_of_elements in Hn.
  - intros (a & F & Hc & Hn). exists (elements F). split.
    + by apply elem_of_elements.
    + apply list_elem_of_fmap. by exists (a, F).
Qed.

(** X17. The removal of the forbidden nodes takes no account of the agent
    a node is forbidden for: a node of the network is kept exactly when no
    constraint set holds it, whichever agent the set belongs to, and an
    edge is kept exactly when its tail is in no constraint set and its
    head is not a node of the network that some constraint set holds. A
    forbidden pair that is not a node of the network changes nothing. *)
Theorem remove_forbidden_spec (cs : list (string * gset (Z * Z * Z)))
    (ten : gmap (Z * Z * Z) (gmap (Z * Z * Z) EdgeAttr)) :
  (∀ n, n ∈ dom (remove_forbidden cs ten)
        ↔ n ∈ dom ten ∧ ¬ ∃ a F, (a, F) ∈ cs ∧ n ∈ F) ∧
  (∀ x y d, edge_data (remove_forbidden cs ten) x y = Some d
            ↔ edge_data ten x y = Some d ∧
              (¬ ∃ a F, (a, F) ∈ cs ∧ x ∈ F) ∧
              ¬ (y ∈ dom ten ∧ ∃ a F, (a, F) ∈ cs ∧ y ∈ F)) ∧
  (∀ a F, (∀ n, n ∈ F → n ∉ dom ten) →
     remove_forbidden [(a, F)] ten = ten).
Proof.
  rewrite remove_forbidden_as_list.
  destruct (remove_nodes_spec (mjoin ((λ c, elements c.2) <$> cs)) ten)
    as [Hdom Hedge].
  split_and!.
  - intros n. rewrite Hdom, elem_of_difference, elem_of_list_to_set.
    by rewrite elem_of_forbidden_list.
  - intros x y d. rewrite Hedge, !elem_of_forbidden_list. tauto.
  - intros a F Hout. rewrite remove_forbidden_as_list. simpl.
    rewrite app_nil_r.
    assert (∀ n, n ∈ elements F → n ∉ dom ten) as Hl.
    { intros n Hn. apply Hout. by apply elem_of_elements. }
    clear Hdom Hedge Hout. induction (elements F) as [|[node t] l IH];
      [done|].
    cbn [foldl]. unfold has_node at 2.
    rewrite bool_decide_eq_false_2.
    + apply IH. intros n Hn. apply Hl. by apply list_elem_of_further.
    + rewrite <- elem_of_dom. apply Hl, list_elem_of_here.
Qed.

End forbidden.

(** ** What the planner returns, and when it cannot return *)

Section planner_more.
Import Nx TenBuilder McfSolver.
Context (ssp : gmap (Z * Z) (gmap (Z * Z) (option Z))
               → Z * Z → Z * Z → gen (list (Z * Z))).
Context (simplex : gmap (Z * Z * Z) (gmap (Z * Z * Z) EdgeAttr)
                   → gmap (Z * Z * Z) Z
                   → result (Z * list (Z * Z * Z * list (Z * Z * Z * Z)))).

Lemma cbm_loop_returns fuel graph agents k cs paths :
  cbm_loop ssp simplex fuel graph agents k cs = Some (Ok paths) →
  ∃ cs' reservation,
    cbm_iteration ssp simplex graph agents k cs' = Ok (Return paths reservation).
Proof.
  revert cs. induction fuel as [|fuel IH]; intros cs; cbn [cbm_loop]; [done|].
  destruct (cbm_iteration ssp simplex graph agents k cs) as [[ps res|cs']|e]
    eqn:Hstep.
  - intros [= ->]. by exists cs, res.
  - apply IH.
  - done.
Qed.

Lemma cbm_iteration_return graph agents k cs paths reservation :
  cbm_iteration ssp simplex graph agents k cs = Ok (Return paths reservation) →
  ∃ ppa demand cost flow,
    candidate_paths ssp graph agents k = Ok ppa ∧
    simplex (remove_forbidden cs (build_ten graph ppa).1) demand
    = Ok (cost, flow) ∧
    paths = _extract_paths flow agents (build_ten graph ppa).2 ∧
    _detect_conflict paths = Ok None.
Proof.
  unfold cbm_iteration. intros (ppa & Hppa & Hrest)%bind_Ok.
  destruct (build_ten graph ppa) as [ten horizon] eqn:Hten.
  apply bind_Ok in Hrest as (ps & Hsolve & Hrest).
  apply bind_Ok in Hrest as (conflict & Hconflict & Hrest).
  destruct conflict as [[[[a1 a2] node] time]|].
  { by destruct (dict_get a2 cs). }
  injection Hrest as -> _.
  unfold solve_mcf in Hsolve.
  apply bind_Ok in Hsolve as (demand & _ & Hsolve).
  apply bind_Ok in Hsolve as ([cost flow] & Hsimplex & Hsolve).
  injection Hsolve as <-.
  exists ppa, demand, cost, flow. by rewrite Hten.
Qed.

(** X18. What [cbm_solve] returns, when it returns: one path for every
    agent and for nobody else, each beginning with the start of its agent
    and of at most [horizon + 1] coordinates, on which [_detect_conflict]
    finds nothing; and, when the network simplex returns flows that are
    positive on edges of the network only, every step of a path is a wait
    on a node of the graph or a move along an edge of the graph that some
    candidate path follows, in one direction or the other. *)
Theorem cbm_solve_returns_checked_walks
    (graph : gmap (Z * Z) (gmap (Z * Z) (option Z)))
    (agents : list (string * (Z * Z * (Z * Z)))) (k : Z) (fuel : nat)
    (paths : list (string * list (Z * Z))) :
  symmetric graph →
  (∀ ten demand cost flow,
     simplex ten demand = Ok (cost, flow) → flow_within ten flow) →
  cbm_solve ssp simplex fuel graph agents k = Some (Ok paths) →
  NoDup paths.*1 ∧
  (∀ a, a ∈ paths.*1 ↔ a ∈ agents.*1) ∧
  _detect_conflict paths = Ok None ∧
  ∃ ppa, candidate_paths ssp graph agents k = Ok ppa ∧
    ∀ a p, dict_get a paths = Some p →
      ∃ s g, (a, (s, g)) ∈ agents ∧ head p = Some s ∧
        Z.of_nat (length p) ≤ (build_ten graph ppa).2 + 1 ∧
        ∀ (i : nat) u v, p !! i = Some u → p !! S i = Some v →
          (u = v ∧ u ∈ dom graph) ∨ allowed_move graph (scan_paths ppa).1 u v.
Proof.
  intros Hsym Hcontract Hsolve. unfold cbm_solve in Hsolve.
  apply cbm_loop_returns in Hsolve as (cs & res & Hstep).
  apply cbm_iteration_return in Hstep
    as (ppa & demand & cost & flow & Hppa & Hsimplex & -> & Hfree).
  split_and!; [apply _extract_paths_NoDup|apply _extract_paths_keys|done|].
  exists ppa. split; [done|]. intros a p Hget.
  set (h := (build_ten graph ppa).2) in *.
  set (ten := remove_forbidden cs (build_ten graph ppa).1) in *.
  pose proof (Hcontract _ _ _ _ Hsimplex) as Hflow.
  unfold _extract_paths in Hget.
  destruct (_extract_paths_fold (flow_within ten)
              (λ s p, head p = Some s ∧ (length p ≤ Z.to_nat h + 1)%nat ∧
                      ∃ tnodes, p = tnodes.*1 ∧ di_walk ten tnodes) h)
    with (l := agents) (fl := flow) (paths0 := @nil (string * list (Z * Z)))
         (a := a) (p := p)
    as [?|(s & g & Hin & Hhead & Hlen & tnodes & Hp & Hwalk)];
    [|done|done|done|].
  { intros fl s Hfl.
    destruct (walk_within ten (Z.to_nat h) fl (s, 0) [(s, 0)] Hfl eq_refl)
      as (ext & Hpath & Hw & Hfl').
    { intros [|i] x y Hx Hy; [done|]. by destruct i. }
    split; [done|].
    destruct (walk_extends (Z.to_nat h) fl (s, 0) [s]) as (ext' & Hext & Hlen).
    split_and!.
    - by rewrite Hext.
    - rewrite Hext, length_app. simpl. lia.
    - exists ([(s, 0)] ++ ext). split; [exact Hpath|done]. }
  destruct (build_ten_spec graph ppa Hsym) as (Hh & Hedge & Hdom).
  exists s, g. split_and!; [done|done| |].
  - fold h. assert (0 ≤ h); [|lia].
    unfold h. rewrite Hh. apply max_with_zero_nonneg.
  - intros i u v Hu Hv. subst p. rewrite list_lookup_fmap in Hu, Hv.
    destruct (tnodes !! i) as [[u' tu]|] eqn:Htu; [|done].
    destruct (tnodes !! S i) as [[v' tv]|] eqn:Htv; [|done].
    simpl in Hu, Hv. simplify_eq.
    destruct (Hwalk i _ _ Htu Htv) as [d Hd].
    destruct (remove_nodes_spec (mjoin ((λ c, elements c.2) <$> cs))
                (build_ten graph ppa).1) as [_ Hsub].
    unfold ten in Hd. rewrite remove_forbidden_as_list in Hd.
    apply Hsub in Hd as [Hd _]. rewrite Hedge in Hd.
    case_decide; [|done]. unfold ten_attr in Hd.
    destruct (decide (allowed_move graph (scan_paths ppa).1 u v)); [by right|].
    destruct (decide (u = v ∧ u ∈ dom graph)); [by left|done].
Qed.

End planner_more.

Section planner_runs.
Import Nx TenBuilder McfSolver.

Lemma cbm_solve_returns_checked_walks_witness :
  cbm_solve meeting_search single_simplex 1
            (GraphBuilder.lines_to_graph meeting_lines) single_agent 1
  = Some (Ok [("A"%string, [(0, 0); (40, 0); (40, 0)])]) ∧
  _detect_conflict [("A"%string, [(0, 0); (40, 0); (40, 0)])] = Ok None.
Proof.
  split; [reflexivity|].
  eapply (cbm_solve_returns_checked_walks meeting_search single_simplex
            (GraphBuilder.lines_to_graph meeting_lines) single_agent 1 1%nat).
  - apply lines_to_graph_symmetric.
  - intros ten demand cost flow. unfold single_simplex.
    case_decide; [|done]. by intros [= _ <-].
  - reflexivity.
Defined.

End planner_runs.

Section planner_shared_start.
Import Nx TenBuilder McfSolver.
Context (ssp : gmap (Z * Z) (gmap (Z * Z) (option Z))
               → Z * Z → Z * Z → gen (list (Z * Z))).
Context (simplex : gmap (Z * Z * Z) (gmap (Z * Z * Z) EdgeAttr)
                   → gmap (Z * Z * Z) Z
                   → result (Z * list (Z * Z * Z * list (Z * Z * Z * Z)))).
Context (graph : gmap (Z * Z) (gmap (Z * Z) (option Z))).
Context (agents : list (string * (Z * Z * (Z * Z)))) (k : Z).
Context (a1 a2 : string) (s g1 g2 : Z * Z).
Hypothesis agents_NoDup : NoDup agents.*1.
Hypothesis first_agent : (a1, (s, g1)) ∈ agents.
Hypothesis second_agent : (a2, (s, g2)) ∈ agents.
Hypothesis two_agents : a1 ≠ a2.

(** Every extracted path begins with the start of the agent it is for. *)
Lemma extracted_path_head flow h (j : nat) b q :
  _extract_paths flow agents h !! j = Some (b, q) →
  ∃ sb gb, (b, (sb, gb)) ∈ agents ∧ head q = Some sb.
Proof.
  intros Hj. apply list_elem_of_lookup_2 in Hj.
  apply elem_of_dict_get in Hj; [|apply _extract_paths_NoDup].
  unfold _extract_paths in Hj.
  destruct (_extract_paths_fold (λ _, True) (λ s0 p, head p = Some s0) h)
    with (l := agents) (fl := flow) (paths0 := @nil (string * list (Z * Z)))
         (a := b) (p := q) as [?|(sb & gb & Hin & Hhead)];
    [|done|done|done|by exists sb, gb].
  intros fl s0 _. split; [done|].
  by destruct (walk_extends (Z.to_nat h) fl (s0, 0) [s0]) as (ext & -> & _).
Qed.

Lemma extracted_path_of flow h b sb gb :
  (b, (sb, gb)) ∈ agents →
  ∃ (j : nat) q, _extract_paths flow agents h !! j = Some (b, q) ∧
                 position q 0 = Ok sb.
Proof.
  intros Hin.
  assert (b ∈ (_extract_paths flow agents h).*1) as Hkey.
  { apply _extract_paths_keys, list_elem_of_fmap. by exists (b, (sb, gb)). }
  apply list_elem_of_fmap in Hkey as ([b' q] & -> & Hq).
  apply list_elem_of_lookup in Hq as [j Hj]. exists j, q. split; [done|].
  destruct (extracted_path_head _ _ _ _ _ Hj) as (sb' & gb' & Hin' & Hhead).
  cbn [fst] in *.
  assert ((sb', gb') = (sb, gb)) as [= -> ->].
  { apply elem_of_dict_get in Hin, Hin'; [|done..]. congruence. }
  apply position_at. by rewrite <- head_lookup.
Qed.

(** The two agents are on their common start at time 0. *)
Lemma shared_start_meets flow h :
  scan_agents 0 ∅ (_extract_paths flow agents h) ≠ Ok None.
Proof.
  intros Hnone.
  destruct (extracted_path_of flow h _ _ _ first_agent) as (i & p & Hi & Hp).
  destruct (extracted_path_of flow h _ _ _ second_agent) as (j & q & Hj & Hq).
  apply (scan_agents_none_distinct 0 _ i j a1 p a2 q s Hnone); [|done..].
  intros ->. rewrite Hi in Hj. by simplify_eq.
Qed.

(** One turn of the loop does not return; if it goes on, some agent has
    its own start node among its forbidden nodes. *)
Lemma shared_start_iteration cs :
  match cbm_iteration ssp simplex graph agents k cs with
  | Raise _ => True
  | Ok (Return _ _) => False
  | Ok (Again cs') =>
      ∃ b sb gb F, (b, (sb, gb)) ∈ agents ∧ dict_get b cs' = Some F ∧
                   (sb, 0) ∈ F
  end.
Proof.
  unfold cbm_iteration.
  destruct (candidate_paths ssp graph agents k) as [ppa|e]; [|done].
  cbn [mbind result_bind]. destruct (build_ten graph ppa) as [ten h].
  destruct (solve_mcf simplex (remove_forbidden cs ten) agents h)
    as [paths|e] eqn:Hsolve; [|done].
  cbn [mbind result_bind]. unfold solve_mcf in Hsolve.
  apply bind_Ok in Hsolve as (demand & _ & Hsolve).
  apply bind_Ok in Hsolve as ([cost flow] & _ & Hsolve).
  injection Hsolve as <-.
  destruct (extracted_path_of flow h _ _ _ first_agent) as (i & p & Hi & Hp).
  destruct (_detect_conflict (_extract_paths flow agents h))
    as [[[[[x y] node] time]|]|e] eqn:Hdc; cbn [mbind result_bind]; [| |done].
  - unfold _detect_conflict in Hdc.
    apply bind_Ok in Hdc as (max_len & Hmax & Hscan).
    apply scan_times_some in Hscan as (k0 & t & Hk & Hc & Hbefore).
    unfold py_range in Hk, Hbefore. apply lookup_seqZ in Hk as [-> Hk].
    destruct k0 as [|k0].
    + apply scan_agents_some in Hc as (-> & j & q & Hj & Hq & _).
      destruct (extracted_path_head _ _ _ _ _ Hj) as (sb & gb & Hin & Hhead).
      assert (node = sb) as ->.
      { rewrite head_lookup in Hhead.
        rewrite (position_at q _ sb) in Hq by done. by injection Hq as <-. }
      destruct (dict_get y cs) as [F|]; [|done].
      exists y, sb, gb, (F ∪ {[(sb, 0 + Z.of_nat 0)]}). split_and!; [done| |].
      * by rewrite dict_get_set, decide_True.
      * set_solver.
    + exfalso. apply (shared_start_meets flow h).
      apply (Hbefore 0%nat); [lia|]. apply lookup_seqZ. lia.
  - exfalso. apply (shared_start_meets flow h).
    unfold _detect_conflict in Hdc.
    apply bind_Ok in Hdc as (max_len & Hmax & Hscan).
    apply (scan_times_none _ _ _ Hscan). unfold py_range.
    apply list_elem_of_lookup. exists 0%nat. apply lookup_seqZ.
    split; [done|].
    assert (Z.of_nat (length p) ≤ max_len) as Hlen.
    { apply (py_max_upper _ _ _ Hmax).
      apply list_elem_of_fmap. exists p. split; [done|].
      apply list_elem_of_fmap. exists (a1, p). split; [done|].
      by apply list_elem_of_lookup_2 in Hi. }
    destruct p as [|c p]; [by rewrite position_empty in Hp|].
    simpl in Hlen. lia.
Qed.

(** With the start node of an agent removed, the next turn fails. *)
Lemma forbidden_start_iteration cs b sb gb F :
  (b, (sb, gb)) ∈ agents → dict_get b cs = Some F → (sb, 0) ∈ F →
  ∃ e, cbm_iteration ssp simplex graph agents k cs = Raise e.
Proof.
  intros Hin Hget HF. unfold cbm_iteration.
  destruct (candidate_paths ssp graph agents k) as [ppa|e]; [|by eexists].
  cbn [mbind result_bind]. destruct (build_ten graph ppa) as [ten h].
  exists KeyError. unfold solve_mcf, set_demands.
  rewrite (set_demands_missing agents h _ b sb gb); [done|done|].
  left. rewrite dom_fmap_L, remove_forbidden_as_list.
  destruct (remove_nodes_spec (mjoin ((λ c, elements c.2) <$> cs)) ten)
    as [-> _].
  rewrite elem_of_difference, elem_of_list_to_set, elem_of_forbidden_list.
  intros [_ Hnot]. apply Hnot. exists b, F. split; [|done].
  by apply dict_get_elem_of.
Qed.

(** X19. Two agents that start on the same coordinate cannot be planned:
    whatever the path search and the network simplex do, [cbm_solve] never
    returns paths, and it has raised an exception by the end of its second
    turn. If the first turn gets as far as the conflict check, the check
    reports the common start at time 0, the start node of the second agent
    is removed from the network, and setting the demand of that agent
    raises [KeyError]. *)
Theorem cbm_solve_shared_start_never_returns :
  (∀ fuel paths,
     cbm_solve ssp simplex fuel graph agents k ≠ Some (Ok paths)) ∧
  (∀ fuel, ∃ e,
     cbm_solve ssp simplex (S (S fuel)) graph agents k = Some (Raise e)).
Proof.
  assert (∀ fuel, ∃ e,
    cbm_solve ssp simplex (S (S fuel)) graph agents k = Some (Raise e)) as Hraise.
  { intros fuel. unfold cbm_solve. cbn [cbm_loop].
    pose proof (shared_start_iteration (init_constraints agents)) as Hfirst.
    destruct (cbm_iteration ssp simplex graph agents k (init_constraints agents))
      as [[ps res|cs']|e]; [done| |by eexists].
    destruct Hfirst as (b & sb & gb & F & Hin & Hget & HF).
    destruct (forbidden_start_iteration cs' b sb gb F Hin Hget HF) as [e ->].
    by eexists. }
  split; [|done]. intros fuel paths Hret.
  destruct fuel as [|[|fuel]].
  - done.
  - unfold cbm_solve in Hret. cbn [cbm_loop] in Hret.
    pose proof (shared_start_iteration (init_constraints agents)) as Hfirst.
    by destruct (cbm_iteration ssp simplex graph agents k
                   (init_constraints agents)) as [[ps res|cs']|e].
  - destruct (Hraise fuel) as [e He]. by rewrite He in Hret.
Qed.

End planner_shared_start.

Section planner_shared_start_run.
Import Nx TenBuilder McfSolver.

Lemma cbm_solve_shared_start_never_returns_witness :
  NoDup shared_start_agents.*1 ∧
  ∃ e, cbm_solve meeting_search meeting_simplex 2
                 (GraphBuilder.lines_to_graph meeting_lines)
                 shared_start_agents 1
       = Some (Raise e).
Proof.
  assert (NoDup shared_start_agents.*1) as Hnd.
  { apply NoDup_cons. split; [by intros [=]%list_elem_of_singleton|].
    apply NoDup_singleton. }
  split; [done|].
  apply (cbm_solve_shared_start_never_returns meeting_search meeting_simplex
           (GraphBuilder.lines_to_graph meeting_lines) shared_start_agents 1
           "A" "B" (0, 0) (40, 0) (0, 0) Hnd).
  - apply list_elem_of_here.
  - apply list_elem_of_further, list_elem_of_here.
  - done.
Defined.

End planner_shared_start_run.

(** ** The agents the command line hands to the planner *)

Section cli_more.

(** X20. The [plan] command plans for exactly the agents that have both a
    start and a goal, in the order of the map file, each with its start
    and goal; an agent that lacks one of the two is dropped without a
    message. *)
Theorem plan_agents_keeps_complete_agents
    (agents : list (string * (option (Z * Z) * option (Z * Z)))) :
  NoDup agents.*1 →
  Cli.plan_agents agents
  = omap (λ e, match e.2 with
               | (Some s, Some g) => Some (e.1, (s, g))
               | _ => None
               end) agents.
Proof.
  unfold Cli.plan_agents. intros Hnd.
  assert (∀ (l : list (string * (option (Z * Z) * option (Z * Z))))
            (acc : list (string * (Z * Z * (Z * Z)))),
    NoDup (acc.*1 ++ l.*1) →
    foldl (λ acc0 '(name, (start, goal)),
             match start, goal with
             | Some s, Some g => dict_set name (s, g) acc0
             | _, _ => acc0
             end) acc l
    = acc ++ omap (λ e, match e.2 with
                        | (Some s, Some g) => Some (e.1, (s, g))
                        | _ => None
                        end) l) as Hfold.
  { induction l as [|[name [start goal]] l IH]; intros acc Hacc; cbn [foldl].
    - by rewrite app_nil_r.
    - rewrite fmap_cons in Hacc. cbn [fst] in Hacc.
      apply NoDup_app in Hacc as (Hacc & Hdisj & Hl).
      apply NoDup_cons in Hl as [Hname Hl].
      assert (name ∉ acc.*1) as Hfresh.
      { intros Hin. apply (Hdisj _ Hin), list_elem_of_here. }
      assert (NoDup (acc.*1 ++ l.*1)) as Hrest.
      { apply NoDup_app. split_and!; [done| |done].
        intros x Hx Hxl. apply (Hdisj _ Hx). by apply list_elem_of_further. }
      destruct start as [s|], goal as [g|]; cbn [omap list_omap snd fst];
        try by apply IH.
      rewrite dict_set_fresh by done. rewrite IH.
      + by rewrite <- app_assoc.
      + rewrite fmap_app. cbn [fmap list_fmap fst]. rewrite <- app_assoc.
        apply NoDup_app. split_and!; [done| |by apply NoDup_cons].
        intros x Hx [->|Hxl]%elem_of_cons; [done|]. apply (Hdisj _ Hx).
        by apply list_elem_of_further. }
  by rewrite Hfold.
Qed.

Lemma plan_agents_keeps_complete_agents_witness :
  Cli.plan_agents [("A"%string, (Some (0, 0), Some (40, 0)));
                   ("B"%string, (Some (0, 0), None));
                   ("C"%string, (None, Some (40, 0)));
                   ("D"%string, (Some (40, 0), Some (0, 0)))]
  = [("A"%string, ((0, 0), (40, 0))); ("D"%string, ((40, 0), (0, 0)))].
Proof.
  rewrite plan_agents_keeps_complete_agents; [reflexivity|].
  by apply (bool_decide_unpack _).
Defined.

End cli_more.

(** ** Loading and saving maps: rejected files, shape of the result,
    geometry without metadata *)

Section map_file_more.
Import MapIO.

(** X21. [load_map] decides on the suffix alone whether it reads a file:
    a suffix other than [.yml], [.yaml] and [.json] (in this spelling)
    raises [ValueError] whatever the file holds; and a file of a supported
    type whose document is not a mapping, a list at top level say, raises
    [AttributeError]. *)
Theorem load_map_rejects (suffix : string) (parsed : pyval) :
  (suffix ∉ [".yml"; ".yaml"; ".json"] →
     load_map suffix parsed = Raise ValueError) ∧
  (suffix ∈ [".yml"; ".yaml"; ".json"] → is_dict parsed = false →
     load_map suffix parsed = Raise AttributeError).
Proof.
  unfold load_map. split.
  - intros Hs. by rewrite bool_decide_eq_false_2.
  - intros Hs Hd. rewrite bool_decide_eq_true_2 by done. by destruct parsed.
Qed.


Lemma rmap_Forall {B C} (f : B → result C) (P : C → Prop) (l : list B)
    (out : list C) :
  (∀ x y, f x = Ok y → P y) → rmap f l = Ok out → Forall P out.
Proof.
  intros Hf. revert out. induction l as [|x l IH]; intros out; cbn [rmap].
  - intros [= <-]. apply Forall_nil_2.
  - intros (y & Hy & (ys & Hys & [= <-])%bind_Ok)%bind_Ok.
    apply Forall_cons. split; [by apply (Hf x)|by apply IH].
Qed.

Lemma rfold_preserves {B C} (Q : C → Prop) (f : C → B → result C)
    (l : list B) (c out : C) :
  (∀ c0 x c1, x ∈ l → Q c0 → f c0 x = Ok c1 → Q c1) →
  Q c → rfold f c l = Ok out → Q out.
Proof.
  revert c. induction l as [|x l IH]; intros c Hf Hc; cbn [rfold].
  - by intros [= <-].
  - intros (c1 & Hc1 & Hrest)%bind_Ok. apply (IH c1); [| |done].
    + intros c0 x0 c2 Hx0. apply Hf. by apply list_elem_of_further.
    + apply (Hf c x); [apply list_elem_of_here|done..].
Qed.

(** Each block of [load_map] makes one meta record per item. *)
Lemma load_collection_shape raw per_item bare (gs ms : list pyval) :
  load_collection raw per_item bare = Ok (gs, ms) →
  length ms = length gs ∧
  Forall (λ m, ∃ i l a st, m = PDict [("id", i); ("layer", l);
                                      ("attributes", a); ("style", st)]) ms.
Proof.
  unfold load_collection. intros (records & _ & Hrest)%bind_Ok.
  apply bind_Ok in Hrest as (entries & _ & Hrest).
  destruct records.
  - apply bind_Ok in Hrest as (items & Hitems & [= <- <-]).
    split; [by rewrite !length_fmap|]. apply Forall_fmap.
    eapply rmap_Forall; [|exact Hitems].
    intros entry [geom meta] (e & _ & (g & _ & [= _ <-])%bind_Ok)%bind_Ok.
    simpl. unfold meta_of. by eexists _, _, _, _.
  - apply bind_Ok in Hrest as (items & Hitems & [= <- <-]).
    split; [by rewrite !length_fmap|]. apply Forall_fmap.
    eapply rmap_Forall; [|exact Hitems].
    intros [idx x] [geom meta] (g & _ & [= _ <-])%bind_Ok.
    simpl. unfold default_meta. by eexists _, _, _, _.
Qed.

Lemma load_agent_shape v a :
  load_agent v = Ok a →
  ∃ slots, a = PDict slots ∧
    Forall (λ kv, kv.1 ∈ ["start"; "goal"] ∧ ∃ l, kv.2 = PTuple l) slots.
Proof.
  unfold load_agent. intros (slots & Hslots & [= <-])%bind_Ok.
  exists slots. split; [done|].
  eapply (rfold_preserves
            (Forall (λ kv : string * pyval,
                       kv.1 ∈ ["start"; "goal"] ∧ ∃ l, kv.2 = PTuple l)));
    [| |exact Hslots]; [|apply Forall_nil_2].
  intros acc key acc' Hkey Hacc (slot & Hslot & Hstep)%bind_Ok.
  destruct slot as [coords|]; [|by injection Hstep as <-].
  apply bind_Ok in Hstep as (t & Ht & [= <-]).
  apply Forall_dict_set; [done|]. cbn [fst snd]. split; [done|].
  unfold py_tuple in Ht. apply bind_Ok in Ht as (l & _ & [= <-]).
  by exists l.
Qed.

(** X22. Whatever file [load_map] accepts, the map it returns has the
    same eight keys in the same order; each of the three meta lists has
    exactly one record per item of its geometry list, and every such
    record has the keys [id], [layer], [attributes] and [style]; every
    agent is a mapping with no key but [start] and [goal], each holding a
    tuple. *)
Theorem load_map_result_shape (suffix : string) (parsed m : pyval) :
  load_map suffix parsed = Ok m →
  ∃ layers lines line_meta nodes node_meta obstacles obstacle_meta agents,
    m = PDict [("layers", layers);
               ("lines", PList lines); ("line_meta", PList line_meta);
               ("nodes", PList nodes); ("node_meta", PList node_meta);
               ("obstacles", PList obstacles);
               ("obstacle_meta", PList obstacle_meta);
               ("agents", PDict agents)] ∧
    length line_meta = length lines ∧
    length node_meta = length nodes ∧
    length obstacle_meta = length obstacles ∧
    Forall (λ meta, ∃ i l a st, meta = PDict [("id", i); ("layer", l);
                                              ("attributes", a); ("style", st)])
           (line_meta ++ node_meta ++ obstacle_meta) ∧
    Forall (λ agent, ∃ slots, agent.2 = PDict slots ∧
              Forall (λ kv, kv.1 ∈ ["start"; "goal"] ∧ ∃ l, kv.2 = PTuple l)
                     slots) agents.
Proof.
  unfold load_map. case_bool_decide; [|done].
  intros (data & _ & Hrest)%bind_Ok.
  apply bind_Ok in Hrest as ([lines line_meta] & Hlines & Hrest).
  apply bind_Ok in Hrest as ([nodes node_meta] & Hnodes & Hrest).
  apply bind_Ok in Hrest as ([obstacles obstacle_meta] & Hobs & Hrest).
  apply bind_Ok in Hrest as (raw_agents & _ & Hrest).
  apply bind_Ok in Hrest as (agents & Hagents & [= <-]).
  apply load_collection_shape in Hlines as [Hl1 Hl2].
  apply load_collection_shape in Hnodes as [Hn1 Hn2].
  apply load_collection_shape in Hobs as [Ho1 Ho2].
  eexists _, lines, line_meta, nodes, node_meta, obstacles, obstacle_meta, agents.
  split_and!; [done..| |].
  - by rewrite !Forall_app.
  - eapply (rfold_preserves
              (Forall (λ agent : string * pyval, ∃ slots,
                 agent.2 = PDict slots ∧
                 Forall (λ kv : string * pyval,
                           kv.1 ∈ ["start"; "goal"] ∧ ∃ l, kv.2 = PTuple l)
                        slots))); [| |exact Hagents]; [|apply Forall_nil_2].
    intros acc [name v] acc' _ Hacc (a & Ha & [= <-])%bind_Ok.
    apply Forall_dict_set; [done|]. cbn [snd]. by apply (load_agent_shape v).
Qed.

Lemma load_map_result_shape_witness :
  ∃ lines line_meta,
    load_map ".json" (PDict legacy_file)
    = Ok (PDict [("layers", PList [PDict [("name", PStr "Default");
                                          ("color", PStr "#000000");
                                          ("visible", PBool true)]]);
                 ("lines", PList lines); ("line_meta", PList line_meta);
                 ("nodes", PList []); ("node_meta", PList []);
                 ("obstacles", PList []); ("obstacle_meta", PList []);
                 ("agents", PDict [])]) ∧
    length line_meta = length lines.
Proof.
  destruct (load_map_result_shape ".json" (PDict legacy_file) _ eq_refl)
    as (layers & lines & line_meta & nodes & node_meta & obstacles
        & obstacle_meta & agents & Hm & Hlen & _).
  injection Hm as <- <- <- <- <- <- <- <-.
  eexists _, _. split; [reflexivity|exact Hlen].
Defined.




(** The record [save_map] writes for the item of index [i] of a bare
    list, from the geometry under [key] and the meta record [load_map] has
    made up. *)
Lemma combine_legacy {B} (key : string) (geom payload : B → pyval)
    (items : list B) :
  Forall (λ x, (if bool_decide (key = "points")
                then pts ← py_iter (geom x); ls ← rmap py_list pts; Ok (PList ls)
                else py_list (geom x)) = Ok (payload x)) items →
  _combine_collection
    (PList (geom <$> items))
    (PList (default_meta <$> seqZ 0 (Z.of_nat (length items)))) key
  = Ok ((λ xi, PDict (foldl (λ e '(k, v), dict_set k v e)
                            [(key, payload xi.1)]
                            [("id", PInt (xi.2 + 1)); ("layer", PStr "Default");
                             ("attributes", PDict []); ("style", PDict [])]))
          <$> zip items (seqZ 0 (Z.of_nat (length items)))).
Proof.
  intros Hpay. unfold _combine_collection. cbn [py_iter mbind result_bind].
  set (l := zip items (seqZ 0 (Z.of_nat (length items)))).
  assert (geom <$> items = (λ xi : B * Z, geom xi.1) <$> l) as ->.
  { transitivity (geom <$> l.*1); [|by rewrite <- list_fmap_compose].
    unfold l. rewrite fst_zip; [done|]. rewrite length_seqZ. lia. }
  assert (default_meta <$> seqZ 0 (Z.of_nat (length items))
          = (λ xi : B * Z, default_meta xi.2) <$> l) as ->.
  { transitivity (default_meta <$> l.*2); [|by rewrite <- list_fmap_compose].
    unfold l. rewrite snd_zip; [done|]. rewrite length_seqZ. lia. }
  apply rmap_zip_fmap. apply Forall_forall. intros [x i] Hxi.
  apply elem_of_zip_l in Hxi. rewrite Forall_forall in Hpay.
  cbn [fst snd]. rewrite (Hpay x Hxi). reflexivity.
Qed.

Lemma fmap_zip_l {A B C} (f : A * B → C) (g : A → C) (l : list A)
    (k : list B) :
  (length l ≤ length k)%nat → (∀ x, f x = g x.1) → f <$> zip l k = g <$> l.
Proof.
  intros Hlen Hfg. rewrite <- (fst_zip l k) at 2 by done.
  rewrite <- list_fmap_compose. apply list_fmap_ext. intros i x _. apply Hfg.
Qed.

Lemma fmap_zip_r {A B C} (f : A * B → C) (g : B → C) (l : list A)
    (k : list B) :
  (length k ≤ length l)%nat → (∀ x, f x = g x.2) → f <$> zip l k = g <$> k.
Proof.
  intros Hlen Hfg. rewrite <- (snd_zip l k) at 2 by done.
  rewrite <- list_fmap_compose. apply list_fmap_ext. intros i x _. apply Hfg.
Qed.

Lemma load_collection_records_of {B}
    (per_item : list (string * pyval) → result pyval) bare
    (rec : B → list (string * pyval)) (geom meta : B → pyval) (l : list B) :
  Forall (λ x, per_item (rec x) = Ok (geom x) ∧ meta_of (rec x) = meta x) l →
  load_collection (PList ((λ x, PDict (rec x)) <$> l)) per_item bare
  = Ok (geom <$> l, meta <$> l).
Proof.
  intros Hl.
  replace ((λ x, PDict (rec x)) <$> l) with (PDict <$> (rec <$> l))
    by (by rewrite <- list_fmap_compose).
  rewrite (load_collection_records per_item bare
             (λ r, match per_item r with Ok g => g | Raise _ => PNone end)).
  - rewrite <- !list_fmap_compose. f_equal. f_equal.
    + apply list_fmap_ext. intros i x Hx. simpl.
      apply list_elem_of_lookup_2 in Hx. rewrite Forall_forall in Hl.
      by destruct (Hl x Hx) as [-> _].
    + apply list_fmap_ext. intros i x Hx. simpl.
      apply list_elem_of_lookup_2 in Hx. rewrite Forall_forall in Hl.
      by destruct (Hl x Hx) as [_ ->].
  - apply Forall_fmap. eapply Forall_impl; [exact Hl|].
    intros x [Hx _]. simpl. by rewrite Hx.
Qed.

Lemma loaded_agent_written a : loaded_agent (written_agent a) = loaded_agent a.
Proof.
  unfold loaded_agent. rewrite (written_agent_fields a "start"),
    (written_agent_fields a "goal"); [done|..].
  - apply list_elem_of_further, list_elem_of_here.
  - apply list_elem_of_here.
Qed.

Lemma canonical_agent_written a :
  canonical_agent a → canonical_agent (written_agent a).
Proof.
  intros Ha k c Hk. rewrite written_agent_fields by done. by apply Ha.
Qed.

(** X24. Upgrading a legacy file is stable. For a file in the legacy
    form (bare lists; every line has two points), saving the map that
    [load_map] returns and loading what was saved gives the same map
    again: the ids and layers that were made up at the first load are
    written to the file as records and read back unchanged. *)
Theorem legacy_file_upgrade_is_stable (suffix : string)
    (data : list (string * pyval))
    (lines : list (list pyval * list pyval)) (nodes obstacles : list (list pyval))
    (agents : list (string * list (string * pyval))) :
  suffix ∈ [".yml"; ".yaml"; ".json"] →
  get data "lines" (PList [])
  = PList ((λ p, PList [PList p.1; PList p.2]) <$> lines) →
  get data "nodes" (PList []) = PList (PList <$> nodes) →
  get data "obstacles" (PList []) = PList (PList <$> obstacles) →
  get data "agents" (PDict []) = PDict ((λ na, (na.1, PDict na.2)) <$> agents) →
  NoDup agents.*1 →
  Forall (λ na, canonical_agent na.2) agents →
  ∃ m saved,
    load_map suffix (PDict data) = Ok m ∧
    save_map m = Ok saved ∧
    load_map ".json" saved = Ok m.
Proof.
  intros Hsuffix Hlines Hnodes Hobs Hagents Hnd Hca.
  eexists _, _. split_and!.
  - unfold load_map. rewrite bool_decide_eq_true_2 by done.
    cbn [dict_of mbind result_bind].
    rewrite Hlines, Hnodes, Hobs, Hagents.
    rewrite (load_collection_bare line_of_entry line_of_bare
               (λ x, match x with
                     | PList pts => PTuple (as_tuple <$> pts)
                     | _ => x
                     end)).
    2:{ by destruct lines. }
    2:{ apply Forall_fmap, Forall_true. intros [p1 p2].
        apply (line_of_bare_ok [p1; p2]). }
    cbn [mbind result_bind].
    rewrite (load_collection_bare node_of_entry py_tuple as_tuple).
    2:{ by destruct nodes. }
    2:{ apply Forall_fmap, Forall_true. done. }
    cbn [mbind result_bind].
    rewrite (load_collection_bare obstacle_of_entry py_tuple as_tuple).
    2:{ by destruct obstacles. }
    2:{ apply Forall_fmap, Forall_true. done. }
    cbn [mbind result_bind dict_of].
    rewrite load_agents_ok by done. cbn [mbind result_bind].
    rewrite <- !list_fmap_compose, !length_fmap. reflexivity.
  - unfold save_map. cbn [dict_of mbind result_bind].
    unfold get. cbn [dict_get]. simpl default.
    rewrite (combine_legacy "points" _ (λ p, PList [PList p.1; PList p.2])).
    2:{ apply Forall_true. intros [p1 p2]. reflexivity. }
    cbn [mbind result_bind].
    rewrite (combine_legacy "point" _ PList).
    2:{ apply Forall_true. intros c. reflexivity. }
    cbn [mbind result_bind].
    rewrite (combine_legacy "rect" _ PList).
    2:{ apply Forall_true. intros c. reflexivity. }
    cbn [mbind result_bind dict_of].
    rewrite save_agents_ok by done. cbn [mbind result_bind].
    reflexivity.
  - unfold load_map.
    rewrite bool_decide_eq_true_2
      by apply list_elem_of_further, list_elem_of_further, list_elem_of_here.
    cbn [dict_of mbind result_bind]. unfold get. cbn [dict_get].
    simpl default.
    set (nl := Z.of_nat (length lines)).
    set (nn := Z.of_nat (length nodes)).
    set (no := Z.of_nat (length obstacles)).
    set (layers := from_option id _ (dict_get "layers" data)).
    rewrite (load_collection_records_of line_of_entry line_of_bare _
               (λ xi, PTuple [PTuple xi.1.1; PTuple xi.1.2])
               (λ xi, default_meta xi.2)).
    2:{ apply Forall_true. by intros [[p1 p2] i]. }
    cbn [mbind result_bind].
    rewrite (load_collection_records_of node_of_entry py_tuple _
               (λ xi, PTuple xi.1) (λ xi, default_meta xi.2)).
    2:{ apply Forall_true. by intros [c i]. }
    cbn [mbind result_bind].
    rewrite (load_collection_records_of obstacle_of_entry py_tuple _
               (λ xi, PTuple xi.1) (λ xi, default_meta xi.2)).
    2:{ apply Forall_true. by intros [c i]. }
    cbn [mbind result_bind dict_of].
    replace ((λ na : string * list (string * pyval),
                (na.1, PDict (written_agent na.2))) <$> agents)
      with ((λ na : string * list (string * pyval), (na.1, PDict na.2))
              <$> ((λ na : string * list (string * pyval),
                      (na.1, written_agent na.2)) <$> agents))
      by (by rewrite <- list_fmap_compose).
    rewrite load_agents_ok.
    2:{ by rewrite <- list_fmap_compose. }
    2:{ apply Forall_fmap. eapply Forall_impl; [exact Hca|].
        intros na Hna. by apply canonical_agent_written. }
    cbn [mbind result_bind].
    rewrite <- !list_fmap_compose.
    assert (∀ n : nat, (n ≤ length (seqZ 0 (Z.of_nat n)))%nat) as Hseq.
    { intros n. rewrite length_seqZ. lia. }
    assert (∀ n : nat, (length (seqZ 0 (Z.of_nat n)) ≤ n)%nat) as Hseq'.
    { intros n. rewrite length_seqZ. lia. }
    rewrite (fmap_zip_l
               (λ xi : list pyval * list pyval * Z,
                  PTuple [PTuple xi.1.1; PTuple xi.1.2])
               (λ p, PTuple [PTuple p.1; PTuple p.2]) lines (seqZ 0 nl))
      by (apply Hseq || done).
    rewrite (fmap_zip_r (λ xi : list pyval * list pyval * Z, default_meta xi.2)
               default_meta lines (seqZ 0 nl)) by (apply Hseq' || done).
    rewrite (fmap_zip_l (λ xi : list pyval * Z, PTuple xi.1) PTuple
               nodes (seqZ 0 nn)) by (apply Hseq || done).
    rewrite (fmap_zip_r (λ xi : list pyval * Z, default_meta xi.2)
               default_meta nodes (seqZ 0 nn)) by (apply Hseq' || done).
    rewrite (fmap_zip_l (λ xi : list pyval * Z, PTuple xi.1) PTuple
               obstacles (seqZ 0 no)) by (apply Hseq || done).
    rewrite (fmap_zip_r (λ xi : list pyval * Z, default_meta xi.2)
               default_meta obstacles (seqZ 0 no)) by (apply Hseq' || done).
    assert ((λ na : string * list (string * pyval),
               (na.1, PDict (loaded_agent na.2)))
            ∘ (λ na : string * list (string * pyval),
                 (na.1, written_agent na.2)) <$> agents
            = (λ na : string * list (string * pyval),
                 (na.1, PDict (loaded_agent na.2))) <$> agents) as ->.
    { apply list_fmap_ext. intros i na _. simpl.
      by rewrite loaded_agent_written. }
    reflexivity.
Qed.

Lemma legacy_file_upgrade_is_stable_witness :
  ∃ m saved,
    load_map ".json" (PDict legacy_file) = Ok m ∧
    save_map m = Ok saved ∧
    load_map ".json" saved = Ok m.
Proof.
  apply (legacy_file_upgrade_is_stable ".json" legacy_file
           [([PInt 0; PInt 0], [PInt 40; PInt 0])] [] [] []).
  - apply list_elem_of_further, list_elem_of_further, list_elem_of_here.
  - reflexivity.
  - reflexivity.
  - reflexivity.
  - reflexivity.
  - apply NoDup_nil_2.
  - apply Forall_nil_2.
Defined.

Lemma coord_list_inj (l l' : list (Z * Z)) :
  coord_list <$> l = coord_list <$> l' → l = l'.
Proof.
  revert l'. induction l as [|[x y] l IH]; intros [|[x' y'] l'] Heq; try done.
  rewrite !fmap_cons in Heq. injection Heq as -> -> Heq. f_equal. by apply IH.
Qed.

Lemma save_paths_entries (paths : list (string * list (Z * Z))) :
  NoDup paths.*1 →
  save_paths paths
  = PDict [("paths",
            PDict ((λ kv, (kv.1, PList (coord_list <$> kv.2))) <$> paths))].
Proof.
  intros Hnd. unfold save_paths. do 4 f_equal.
  assert (∀ (l : list (string * list (Z * Z))) (acc : list (string * pyval)),
    NoDup (acc.*1 ++ l.*1) →
    foldl (λ acc0 '(k, v), dict_set k (PList (coord_list <$> v)) acc0) acc l
    = acc ++ ((λ kv, (kv.1, PList (coord_list <$> kv.2))) <$> l)) as Hfold.
  { induction l as [|[k v] l IH]; intros acc Hacc; cbn [foldl].
    - by rewrite app_nil_r.
    - rewrite fmap_cons in Hacc. cbn [fst] in Hacc.
      assert (k ∉ acc.*1) as Hfresh.
      { apply NoDup_app in Hacc as (_ & Hdisj & _). intros Hin.
        apply (Hdisj _ Hin), list_elem_of_here. }
      rewrite dict_set_fresh by done. rewrite IH.
      + by rewrite <- app_assoc.
      + rewrite fmap_app, <- app_assoc. done. }
  by rewrite Hfold.
Qed.

(** X25. [save_paths] writes everything it is given: the document has the
    one key [paths], under it one entry per agent, in the order of the
    path mapping, holding the coordinates of the path in order, each as a
    list of two numbers; so two path mappings that are written to the same
    document are the same. *)
Theorem save_paths_keeps_everything (paths paths' : list (string * list (Z * Z))) :
  NoDup paths.*1 →
  save_paths paths
  = PDict [("paths",
            PDict ((λ kv, (kv.1, PList (coord_list <$> kv.2))) <$> paths))] ∧
  (NoDup paths'.*1 → save_paths paths = save_paths paths' → paths = paths').
Proof.
  intros Hnd. split; [by apply save_paths_entries|].
  intros Hnd' Heq. rewrite !save_paths_entries in Heq by done.
  injection Heq as Heq. clear Hnd Hnd'. revert paths' Heq.
  induction paths as [|[k v] l IH]; intros [|[k' v'] l'] Heq; try done.
  rewrite !fmap_cons in Heq. cbn [fst snd] in Heq.
  injection Heq as -> Hv Heq. apply coord_list_inj in Hv as ->.
  f_equal. by apply IH.
Qed.

Lemma save_paths_keeps_everything_witness :
  save_paths [("A"%string, [(0, 0); (40, 0)]); ("B"%string, [(40, 0)])]
  = PDict [("paths",
            PDict [("A", PList [PList [PInt 0; PInt 0]; PList [PInt 40; PInt 0]]);
                   ("B", PList [PList [PInt 40; PInt 0]])])].
Proof.
  apply (save_paths_keeps_everything
           [("A"%string, [(0, 0); (40, 0)]); ("B"%string, [(40, 0)])] []).
  by apply (bool_decide_unpack _).
Defined.

End map_file_more.

(** ** The map editor: Delete and Undo *)

Section editor.
Import MapEditor.

Lemma list_remove_elem_of (x : Z) (l : list Z) :
  x ∈ l → ∃ l', list_remove x l = Ok l'.
Proof.
  induction l as [|y l IH]; intros Hin; [by apply elem_of_nil in Hin|].
  cbn [list_remove]. case_decide as Hy; [by eexists|].
  apply elem_of_cons in Hin as [->|Hin]; [done|].
  destruct (IH Hin) as [l' ->]. by eexists.
Qed.

Lemma list_remove_not_elem_of (x : Z) (l : list Z) :
  x ∉ l → list_remove x l = Raise ValueError.
Proof.
  induction l as [|y l IH]; intros Hnin; [done|]. cbn [list_remove].
  rewrite decide_False by (intros ->; apply Hnin, list_elem_of_here).
  rewrite IH; [done|]. intros Hin. by apply Hnin, list_elem_of_further.
Qed.

Lemma list_remove_NoDup (x : Z) (l l' : list Z) :
  NoDup l → list_remove x l = Ok l' → x ∉ l'.
Proof.
  revert l'. induction l as [|y l IH]; intros l' Hnd; [done|].
  apply NoDup_cons in Hnd as [Hy Hnd]. cbn [list_remove]. case_decide as Heq.
  - intros [= <-]. by subst.
  - intros (l'' & Hl'' & [= <-])%bind_Ok.
    intros [->|Hin]%elem_of_cons; [done|]. by apply (IH l'').
Qed.

(** After [l.pop(i)], the item that was at [j] is at [j - 1] when it came
    after [i], and at [j] still when it came before. *)
Lemma delete_lookup_shift {A} (l : list A) (i j : nat) :
  j ≠ i →
  delete i l !! (if decide (i < j)%nat then (j - 1)%nat else j) = l !! j.
Proof.
  intros Hne. case_decide.
  - rewrite list_lookup_delete_ge by lia. f_equal. lia.
  - apply list_lookup_delete_lt. lia.
Qed.

Lemma reindex_lookup (k : kind) (index : nat) (m : gmap Z (kind * info))
    (item : Z) :
  reindex k index m !! item
  = (λ v : kind * info,
       match v.2 with
       | Index idx =>
           if decide (v.1 = k ∧ (index < idx)%nat) then (v.1, Index (idx - 1))
           else v
       | _ => v
       end) <$> (m !! item).
Proof. unfold reindex. by rewrite lookup_fmap. Qed.

(** X26. [delete_selected] on a selected line, node or obstacle takes the
    item and its meta record out of the two lists of its kind and leaves
    every other item attached to its own geometry and meta record: the
    indices that [item_map] holds for the items that came later are moved
    down by one, all other entries are left alone. The selection is
    dropped; the entry that [history] holds for the deleted item is not. *)
Theorem delete_selected_keeps_items_attached (e : Editor) (k : kind)
    (sel : Z) (i : nat) (meta : Meta) (l : list Z) :
  is_geometry k →
  selected_item e = Some sel →
  item_map e !! sel = Some (k, Index i) →
  metas_of k e !! i = Some meta →
  (i < length (geometry_of k e))%nat →
  layer_items e !! meta_layer meta = Some l → sel ∈ l →
  ∃ e', delete_selected e = (e', None) ∧
    geometry_of k e' = delete i (geometry_of k e) ∧
    metas_of k e' = delete i (metas_of k e) ∧
    (∀ k', k' ≠ k →
       geometry_of k' e' = geometry_of k' e ∧ metas_of k' e' = metas_of k' e) ∧
    selected_item e' = None ∧
    item_map e' !! sel = None ∧
    history e' = history e ∧
    (∀ item j, item ≠ sel → item_map e !! item = Some (k, Index j) → j ≠ i →
       ∃ j', item_map e' !! item = Some (k, Index j') ∧
             geometry_of k e' !! j' = geometry_of k e !! j ∧
             metas_of k e' !! j' = metas_of k e !! j) ∧
    (∀ item k' inf, item ≠ sel → k' ≠ k →
       item_map e !! item = Some (k', inf) →
       item_map e' !! item = Some (k', inf)).
Proof.
  intros Hk Hsel Hmap Hmeta Hlen Hlayer Hin.
  destruct (list_remove_elem_of sel l Hin) as [l' Hl'].
  unfold delete_selected. rewrite Hsel, Hmap.
  destruct Hk as [->|[->| ->]]; cbn [metas_of geometry_of] in *;
    rewrite length_fmap in Hlen;
    cbn [set_item_map line_meta node_meta obstacle_meta lines nodes obstacles
         set_line_meta set_node_meta set_obstacle_meta layer_items
         set_lines set_nodes set_obstacles];
    rewrite Hmeta; rewrite decide_False by lia;
    unfold remove_layer_item; rewrite Hlayer, Hl'; cbn [mbind result_bind];
    (eexists; split; [reflexivity|]); simpl;
    (split_and!;
     [by rewrite list_fmap_delete
     |done
     |by intros []
     |done
     |by rewrite reindex_lookup, lookup_delete_eq
     |done
     |intros item j Hitem Hj Hji;
      exists (if decide (i < j)%nat then (j - 1)%nat else j);
      rewrite reindex_lookup, lookup_delete_ne, Hj by done;
      cbn [fmap option_fmap option_map fst snd];
      rewrite ?list_fmap_delete, !delete_lookup_shift by done;
      split_and!; [|done..];
      destruct (decide (i < j)%nat);
        [by rewrite decide_True|by rewrite decide_False by tauto]
     |intros item k' inf Hitem Hk' Hj;
      rewrite reindex_lookup, lookup_delete_ne, Hj by done;
      cbn [fmap option_fmap option_map fst snd];
      destruct inf; try done; by rewrite decide_False by tauto]).
Qed.

Lemma delete_selected_keeps_items_attached_witness :
  ∃ e', delete_selected (set_selected_item (Some 11) two_lines) = (e', None) ∧
        lines e' = [((40, 0), (80, 0))] ∧
        item_map e' !! 12 = Some (KLine, Index 0) ∧
        history e' = [(KLine, 11, INone); (KLine, 12, INone)].
Proof.
  destruct (delete_selected_keeps_items_attached
              (set_selected_item (Some 11) two_lines) KLine 11 0
              {| meta_id := 1; meta_layer := "Default"; meta_attributes := [];
                 meta_style := [("color"%string, "#000000"%string)] |}
              [11; 12])
    as (e' & He' & _ & _ & _ & _ & _ & Hhist & _).
  - by left.
  - reflexivity.
  - reflexivity.
  - reflexivity.
  - simpl. lia.
  - reflexivity.
  - apply list_elem_of_here.
  - exists e'. split; [done|]. injection He' as <-.
    split_and!; reflexivity.
Defined.

Lemma remove_layer_item_gone (layer layer2 : string) (sel : Z)
    (items : gmap string (list Z)) (l l' : list Z) :
  items !! layer = Some l → NoDup l → list_remove sel l = Ok l' →
  (∀ ly its, items !! ly = Some its → sel ∈ its → ly = layer) →
  remove_layer_item layer2 sel (<[layer := l']> items) = Raise ValueError.
Proof.
  intros Hl Hnd Hl' Honly. unfold remove_layer_item.
  destruct (decide (layer = layer2)) as [<-|Hne].
  - rewrite lookup_insert_eq.
    by rewrite (list_remove_not_elem_of sel l')
      by (by eapply list_remove_NoDup).
  - rewrite lookup_insert_ne by done.
    destruct (items !! layer2) as [its|] eqn:Hits; [|done].
    rewrite list_remove_not_elem_of; [done|].
    intros Hin. apply Hne. symmetry. by eapply Honly.
Qed.

Lemma pop_last_fmap {A B} (f : A → B) (l : list A) :
  f <$> pop_last l = pop_last (f <$> l).
Proof. unfold pop_last. by rewrite fmap_take, length_fmap. Qed.

Lemma pop_last_snoc {A} (l : list A) (x : A) : pop_last (l ++ [x]) = l.
Proof.
  unfold pop_last. rewrite length_app. simpl.
  apply take_app_length'. lia.
Qed.

(** X27. [delete_selected] leaves the entry of the deleted item in
    [history], and [undo] takes it for the item drawn last: when the
    deleted line (node, obstacle) was the last one drawn and another one
    is left, the next [undo] pops the last line that is left and its meta
    record, although that line belongs to another item, and then raises
    [ValueError], because the item is in no layer list any more. One
    deletion and one undo take two items out of the map. *)
Theorem undo_after_delete_selected_fails (e : Editor) (k : kind)
    (sel : Z) (i : nat) (meta : Meta) (l : list Z)
    (h : list (kind * Z * info)) :
  is_geometry k →
  selected_item e = Some sel →
  item_map e !! sel = Some (k, Index i) →
  metas_of k e !! i = Some meta →
  length (metas_of k e) = length (geometry_of k e) →
  (2 ≤ length (geometry_of k e))%nat →
  history e = h ++ [(k, sel, INone)] →
  layer_items e !! meta_layer meta = Some l → sel ∈ l → NoDup l →
  (∀ layer items, layer_items e !! layer = Some items → sel ∈ items →
     layer = meta_layer meta) →
  ∃ e1 e2,
    delete_selected e = (e1, None) ∧
    undo e1 = (e2, Some ValueError) ∧
    history e2 = h ∧
    geometry_of k e2 = pop_last (delete i (geometry_of k e)) ∧
    metas_of k e2 = pop_last (delete i (metas_of k e)) ∧
    length (geometry_of k e2) = (length (geometry_of k e) - 2)%nat.
Proof.
  intros Hk Hsel Hmap Hmeta Hsame Hlen Hhist Hlayer Hin Hnd Honly.
  destruct (list_remove_elem_of sel l Hin) as [l' Hl'].
  pose proof (lookup_lt_Some _ _ _ Hmeta) as Hi.
  unfold delete_selected. rewrite Hsel, Hmap.
  destruct Hk as [->|[->| ->]]; cbn [metas_of geometry_of] in *;
    rewrite length_fmap in Hlen, Hsame;
    cbn [set_item_map line_meta node_meta obstacle_meta lines nodes obstacles
         set_line_meta set_node_meta set_obstacle_meta layer_items
         set_lines set_nodes set_obstacles];
    rewrite Hmeta; rewrite decide_False by lia;
    unfold remove_layer_item at 1; rewrite Hlayer, Hl'; cbn [mbind result_bind];
    (eexists _, _; split; [reflexivity|]);
    unfold undo; simpl; rewrite Hhist, last_snoc, pop_last_snoc; simpl;
    (rewrite decide_False;
     [|intros Hnil; apply (f_equal length) in Hnil;
       rewrite length_delete in Hnil
         by (apply lookup_lt_is_Some_2; lia);
       simpl in Hnil; lia]);
    (match goal with
     | |- context [last (delete i ?ms)] =>
         destruct (last (delete i ms)) as [meta0|] eqn:Hlast;
         [|apply last_None in Hlast; apply (f_equal length) in Hlast;
           rewrite length_delete in Hlast
             by (apply lookup_lt_is_Some_2; lia);
           simpl in Hlast; lia]
     end);
    rewrite (remove_layer_item_gone _ _ _ _ l l') by done;
    (split; [reflexivity|]); simpl;
    (split_and!;
     [done
     |by rewrite pop_last_fmap, list_fmap_delete
     |done
     |rewrite length_fmap; unfold pop_last;
      rewrite length_take, !length_delete
        by (apply lookup_lt_is_Some_2; lia);
      rewrite ?length_fmap; lia]).
Qed.

Lemma undo_after_delete_selected_fails_witness :
  ∃ e1 e2,
    delete_selected (set_selected_item (Some 12) two_lines) = (e1, None) ∧
    undo e1 = (e2, Some ValueError) ∧
    lines e2 = [] ∧ history e2 = [(KLine, 11, INone)] ∧
    item_map e2 !! 11 = Some (KLine, Index 0).
Proof.
  destruct (undo_after_delete_selected_fails
              (set_selected_item (Some 12) two_lines) KLine 12 1
              {| meta_id := 2; meta_layer := "Default"; meta_attributes := [];
                 meta_style := [("color"%string, "#000000"%string)] |}
              [11; 12] [(KLine, 11, INone)])
    as (e1 & e2 & He1 & He2 & Hh & _).
  - by left.
  - reflexivity.
  - reflexivity.
  - reflexivity.
  - reflexivity.
  - simpl. lia.
  - reflexivity.
  - reflexivity.
  - apply list_elem_of_further, list_elem_of_here.
  - by apply (bool_decide_unpack _).
  - intros layer items Hl _.
    change (layer_items (set_selected_item (Some 12) two_lines))
      with ({["Default"%string := [11; 12]]} : gmap string (list Z)) in Hl.
    apply lookup_singleton_Some in Hl as [<- _]. reflexivity.
  - exists e1, e2. split; [done|]. split; [done|].
    injection He1 as <-. injection He2 as <-. split_and!; reflexivity.
Defined.


Lemma dict_get_filter_ne {K V} `{EqDecision K} (k k0 : K) (d : list (K * V)) :
  dict_get k (filter (λ kv, kv.1 ≠ k0) d)
  = if decide (k = k0) then None else dict_get k d.
Proof.
  induction d as [|[k' v] d IH]; [by case_decide|].
  rewrite filter_cons. cbn [fst dict_get].
  destruct (decide (k' ≠ k0)) as [Hk'|Hk'].
  - cbn [dict_get]. rewrite IH.
    destruct (decide (k' = k)) as [->|?]; [by rewrite decide_False|done].
  - apply dec_stable in Hk' as ->. rewrite IH.
    destruct (decide (k = k0)) as [->|?]; [done|]. by rewrite decide_False.
Qed.

(** X28. [undo] of an agent marker. When the last entry of [history] is
    the start (or goal) marker of an agent, [undo] takes this entry and
    the item off the tables, touches no geometry, and takes the marker off
    the agent: the other marker of the agent and all other agents stay as
    they are, and an agent that has no marker left is taken out of
    [agents], so that no agent is left with an empty record. *)
Theorem undo_marker (e : Editor) (k : kind) (item : Z) (agent_name : string)
    (h : list (kind * Z * info)) :
  k = KStart ∨ k = KGoal →
  history e = h ++ [(k, item, Name agent_name)] →
  ∃ e', undo e = (e', None) ∧
    history e' = h ∧
    item_map e' = delete item (item_map e) ∧
    (∀ k', geometry_of k' e' = geometry_of k' e ∧ metas_of k' e' = metas_of k' e) ∧
    (∀ other, other ≠ agent_name →
       dict_get other (agents e') = dict_get other (agents e)) ∧
    (∀ record, dict_get agent_name (agents e') = Some record →
       record ≠ [] ∧ dict_get (kind_key k) record = None ∧
       ∃ before, dict_get agent_name (agents e) = Some before ∧
         ∀ key, key ≠ kind_key k → dict_get key record = dict_get key before) ∧
    (∀ before key c, dict_get agent_name (agents e) = Some before →
       key ≠ kind_key k → dict_get key before = Some c →
       is_Some (dict_get agent_name (agents e'))).
Proof.
  intros Hk Hhist. unfold undo. rewrite Hhist, last_snoc, pop_last_snoc.
  assert (∃ ags,
    ags = drop_marker k (Name agent_name) (agents e) ∧
    (∀ other, other ≠ agent_name → dict_get other ags = dict_get other (agents e)) ∧
    (∀ record, dict_get agent_name ags = Some record →
       record ≠ [] ∧ dict_get (kind_key k) record = None ∧
       ∃ before, dict_get agent_name (agents e) = Some before ∧
         ∀ key, key ≠ kind_key k → dict_get key record = dict_get key before) ∧
    (∀ before key c, dict_get agent_name (agents e) = Some before →
       key ≠ kind_key k → dict_get key before = Some c →
       is_Some (dict_get agent_name ags))) as (ags & Hags & Hother & Hrec & Hkeep).
  { eexists. split; [reflexivity|]. unfold drop_marker.
    destruct (dict_get agent_name (agents e)) as [before|] eqn:Hbefore.
    - destruct (filter (λ kv, kv.1 ≠ kind_key k) before) as [|kv rest] eqn:Hf.
      + split_and!.
        * intros other Hne. by rewrite dict_get_filter_ne, decide_False.
        * intros record. by rewrite dict_get_filter_ne, decide_True.
        * intros b key c [= <-] Hkey Hc. exfalso.
          pose proof (dict_get_filter_ne key (kind_key k) before) as Hget.
          rewrite Hf, decide_False, Hc in Hget by done. done.
      + split_and!.
        * intros other Hne. by rewrite dict_get_set, decide_False.
        * intros record. rewrite dict_get_set, decide_True by done.
          intros [= <-]. split_and!; [done| |].
          -- by rewrite <- Hf, dict_get_filter_ne, decide_True.
          -- exists before. split; [done|]. intros key Hkey.
             by rewrite <- Hf, dict_get_filter_ne, decide_False.
        * intros b key c _ _ _. rewrite dict_get_set, decide_True by done.
          by eexists.
    - split_and!; [done| |].
      + intros record Hr. by rewrite Hbefore in Hr.
      + intros b key c Hb. done. }
  destruct Hk as [-> | ->];
    cbn [agents set_item_map set_history item_map history] in *;
    rewrite <- Hags;
    (eexists; split; [reflexivity|]); simpl;
    (split_and!; [done|done|by intros []|done..]).
Qed.

Lemma undo_marker_witness :
  ∃ e',
    undo (set_agents [("A"%string, [("start"%string, (0, 0));
                                    ("goal"%string, (40, 0))]);
                      ("B"%string, [("goal"%string, (80, 0))])]
            (set_history [(KStart, 5, Name "A"); (KGoal, 6, Name "A");
                          (KGoal, 7, Name "B")] two_lines))
    = (e', None) ∧
    agents e' = [("A"%string, [("start"%string, (0, 0));
                               ("goal"%string, (40, 0))])] ∧
    history e' = [(KStart, 5, Name "A"); (KGoal, 6, Name "A")].
Proof.
  destruct (undo_marker
              (set_agents [("A"%string, [("start"%string, (0, 0));
                                         ("goal"%string, (40, 0))]);
                           ("B"%string, [("goal"%string, (80, 0))])]
                 (set_history [(KStart, 5, Name "A"); (KGoal, 6, Name "A");
                               (KGoal, 7, Name "B")] two_lines))
              KGoal 7 "B" [(KStart, 5, Name "A"); (KGoal, 6, Name "A")])
    as (e' & He' & Hh & _).
  - by right.
  - reflexivity.
  - exists e'. split; [done|]. injection He' as <-. split; reflexivity.
Defined.


End editor.

(** ** A search that fails *)

Section search_fails.
Import Nx TenBuilder McfSolver.




End search_fails.
